(** * my-blog: content ingestion and the password gate

    A shallow embedding of the TypeScript sources

    - [src/lib/content/posts.ts]      (module [Posts]: reads the generated snapshot),
    - the live, file-system variant of [posts.ts]   (module [LivePosts]),
    - [scripts/generate-content.ts]   (module [GenerateContent]),
    - [src/app/post/[slug]/actions.ts] (module [Actions]),

    with the functions the last two scripts share in module [Discovery],
    the Validator of the specification in module [FrontmatterSchema], and
    what they need of JavaScript and Node.js in [Js], [Path], [Crypto] and
    [IsoDate]; followed by the properties of the ingestion pipeline and of
    the access gate that the specification states, and by further
    properties of the code: the gate from one request to the next, the
    listing against the single fetch, the generation script against the
    site that reads its snapshot.

    Conventions.  A JavaScript string is a Rocq [string] holding its UTF-8
    encoding (so ASCII patterns, emptiness and hashing read the same on both
    sides).  A JavaScript number that is an integer or NaN is an [option Z]
    with [None] for NaN.  An [async] function is the function it computes:
    the file system is read-only during a pass, so the order in which the
    promises of one pass complete cannot change what each of them returns.
    Exceptions are the [Throw] completion; [console] output and the cookie
    store are threaded through a state monad. *)

From Stdlib Require Import ZArith List Ascii String Bool Lia Permutation Sorted.
From stdpp Require Import base option strings gmap list sorting.

Local Open Scope Z_scope.

(** ** JavaScript strings *)

Module Js.

Definition dquote : string := String (ascii_of_nat 34) "".
Definition backslash : string := String (ascii_of_nat 92) "".

(** [s.startsWith(p)] *)
Definition startsWith (s p : string) : bool := String.prefix p s.

(** [s.includes(p)] *)
Fixpoint includes (s p : string) : bool :=
  String.prefix p s ||
  match s with
  | EmptyString => false
  | String _ r => includes r p
  end.

(** [s.replace(/^\//, "")]: one leading slash is removed. *)
Definition stripLeadingSlash (s : string) : string :=
  match s with
  | String "/"%char r => r
  | _ => s
  end.

(** The code points ECMAScript calls WhiteSpace or LineTerminator, in
    UTF-8: TAB, LF, VT, FF, CR, SP, U+00A0, U+1680, U+2000..U+200A,
    U+2028, U+2029, U+202F, U+205F, U+3000, U+FEFF. *)
Definition bytes (l : list nat) : string :=
  fold_right (fun n s => String (ascii_of_nat n) s) EmptyString l.

Definition whitespace : list string :=
  ((fun n => bytes [n]) <$> [9; 10; 11; 12; 13; 32]%nat)
  ++ [bytes [194; 160]%nat; bytes [225; 154; 128]%nat]
  ++ ((fun n => bytes [226; 128; n]%nat) <$> seq 128 11)
  ++ (bytes <$> [[226; 128; 168]; [226; 128; 169]; [226; 128; 175];
                 [226; 129; 159]; [227; 128; 128]; [239; 187; 191]]%nat).

(** Drop [n] bytes. *)
Fixpoint drop (n : nat) (s : string) : string :=
  match n, s with
  | S n, String _ r => drop n r
  | _, _ => s
  end.

(** The length of the white-space token [s] starts with, if any. *)
Definition leadingSpace (toks : list string) (s : string) : option nat :=
  String.length <$> List.find (fun t => String.prefix t s) toks.

Fixpoint stripSpaces (toks : list string) (fuel : nat) (s : string) : string :=
  match fuel with
  | O => s
  | S fuel =>
      match leadingSpace toks s with
      | Some (S n) => stripSpaces toks fuel (drop (S n) s)
      | _ => s
      end
  end.

Definition trimStart (s : string) : string :=
  stripSpaces whitespace (String.length s) s.

Definition trimEnd (s : string) : string :=
  String.rev (stripSpaces (String.rev <$> whitespace) (String.length s) (String.rev s)).

(** [s.trim()] *)
Definition trim (s : string) : string := trimEnd (trimStart s).

(** [s.split(sep)] for a one-character separator; never the empty list. *)
Fixpoint split (sep : ascii) (s : string) : list string :=
  match s with
  | EmptyString => [EmptyString]
  | String c r =>
      if Ascii.eqb c sep then EmptyString :: split sep r
      else match split sep r with
           | h :: t => String c h :: t
           | [] => [String c EmptyString]
           end
  end.

(** [parts.join(sep)] *)
Definition join (sep : string) (parts : list string) : string :=
  String.concat sep parts.

(** A thrown value. [FrontmatterValidationError] is the class of
    [parsePost.ts], a subclass of [Error] carrying the list of issues;
    [NotFound] is what [notFound()] of next/navigation throws; [Thrown]
    is a value that is no [Error]. *)
Inductive Exception : Type :=
| Error (message : string)
| FrontmatterValidationError (message : string) (issues : list (string * string))
| NotFound
| Thrown (value : string).

(** [e instanceof Error] *)
Definition instanceofError (e : Exception) : bool :=
  match e with
  | Error _ | FrontmatterValidationError _ _ | NotFound => true
  | Thrown _ => false
  end.

(** [e.message], and [String(e)] for a value that is no [Error]. *)
Definition messageOf (e : Exception) : string :=
  match e with
  | Error m | FrontmatterValidationError m _ => m
  | NotFound => "NEXT_HTTP_ERROR_FALLBACK;404"
  | Thrown v => v
  end.

Inductive Completion (A : Type) : Type :=
| Return (a : A)
| Throw (e : Exception).
Arguments Return {A} a.
Arguments Throw {A} e.

(** [SortCompare] of ECMAScript: a comparator that answers NaN answers 0. *)
Definition SortCompare {A} (comparefn : A -> A -> option Z) (x y : A) : Z :=
  default 0 (comparefn x y).

(** [Array.prototype.sort(comparefn)].  ECMAScript leaves the sequence of
    comparisons to the engine; this is the stable straight insertion sort:
    each element, in input order, goes before the first element of the
    sorted prefix that the comparator puts strictly after it.  For a
    consistent comparator every conforming (stable) sort returns this
    list. *)
Fixpoint insert {A} (comparefn : A -> A -> option Z) (x : A) (sorted : list A) : list A :=
  match sorted with
  | [] => [x]
  | y :: rest =>
      if SortCompare comparefn x y <? 0 then x :: y :: rest
      else y :: insert comparefn x rest
  end.

Definition sort {A} (comparefn : A -> A -> option Z) (l : list A) : list A :=
  fold_left (fun sorted x => insert comparefn x sorted) l [].

(** Can [s] be the value of an HTTP header ([Headers.append] of the Fetch
    standard)?  A header value is a byte string: it has no character above
    U+00FF (in UTF-8 these are the characters with a lead byte from 0xC4
    on); and it holds no NUL, LF or CR. *)
Definition headerByte (c : ascii) : bool :=
  let n := nat_of_ascii c in
  (n <? 196)%nat && negb (n =? 0)%nat && negb (n =? 10)%nat && negb (n =? 13)%nat.

Fixpoint headerValue (s : string) : bool :=
  match s with
  | EmptyString => true
  | String c r => headerByte c && headerValue r
  end.

End Js.

(** ** [path] of Node.js, POSIX flavour ([path.sep] is "/") *)

Module Path.

Definition sep : string := "/".

(** One segment of [normalizeString]: empty segments and "." are
    skipped; ".." removes the last kept segment unless there is none or
    it is ".." itself, in which case it is kept only above a relative
    root.  The kept segments are held last-first. *)
Definition step (allowAboveRoot : bool) (kept : list string) (seg : string) : list string :=
  if decide (seg = "" ∨ seg = ".") then kept
  else if decide (seg = "..") then
    match kept with
    | last :: before =>
        if decide (last = "..") then (if allowAboveRoot then seg :: kept else kept)
        else before
    | [] => if allowAboveRoot then [seg] else []
    end
  else seg :: kept.

Definition segments (allowAboveRoot : bool) (path : string) : list string :=
  fold_left (step allowAboveRoot) (Js.split "/" path) [].

Definition normalizeString (path : string) (allowAboveRoot : bool) : string :=
  Js.join "/" (rev (segments allowAboveRoot path)).

Definition endsWithSlash (path : string) : bool :=
  String.prefix "/" (String.rev path).

(** [path.normalize(p)] *)
Definition normalize (path : string) : string :=
  if decide (path = "") then "."
  else
    let isAbsolute := Js.startsWith path "/" in
    let trailingSeparator := endsWithSlash path in
    let body := normalizeString path (negb isAbsolute) in
    if decide (body = "") then
      (if isAbsolute then "/" else if trailingSeparator then "./" else ".")
    else
      let body := if trailingSeparator then body +:+ "/" else body in
      if isAbsolute then "/" +:+ body else body.

(** [path.join(...args)] *)
Definition join (args : list string) : string :=
  match List.filter (fun a => negb (String.eqb a "")) args with
  | [] => "."
  | parts => normalize (Js.join "/" parts)
  end.

(** The loop of [path.resolve]: the arguments are read from the last one
    backwards, then the working directory, until one is absolute. *)
Fixpoint resolveLoop (paths : list string) (resolvedPath : string) : string * bool :=
  match paths with
  | [] => (resolvedPath, false)
  | path :: earlier =>
      if decide (path = "") then resolveLoop earlier resolvedPath
      else
        let resolvedPath := path +:+ "/" +:+ resolvedPath in
        if Js.startsWith path "/" then (resolvedPath, true)
        else resolveLoop earlier resolvedPath
  end.

(** [path.resolve(...args)] in the working directory [cwd] *)
Definition resolve (cwd : string) (args : list string) : string :=
  let '(resolvedPath, resolvedAbsolute) := resolveLoop (rev args ++ [cwd]) "" in
  let body := normalizeString resolvedPath (negb resolvedAbsolute) in
  if resolvedAbsolute then "/" +:+ body
  else if decide (body = "") then "." else body.

End Path.

(** ** Digests of Node's [crypto]: [createHash(alg).update(s).digest("hex")] *)

Module Crypto.

Definition two32 : Z := 4294967296.
Definition add32 (a b : Z) : Z := (a + b) mod two32.
Definition not32 (a : Z) : Z := Z.lxor a (two32 - 1).
Definition rotr (n a : Z) : Z :=
  Z.lor (Z.shiftr a n) (Z.shiftl a (32 - n) mod two32).
Definition rotl (n a : Z) : Z := rotr (32 - n) a.

Definition byteOf (c : ascii) : Z := Z.of_N (N_of_ascii c).
Definition bytesOf (s : string) : list Z := byteOf <$> list_ascii_of_string s.

(** [x] as [n] big-endian digits in base [2 ^ bits]. *)
Fixpoint digits (bits : Z) (n : nat) (x : Z) : list Z :=
  match n with
  | O => []
  | S n => digits bits n (Z.shiftr x bits) ++ [x mod 2 ^ bits]
  end.

(** The message, a 1 bit, zeros up to 56 bytes modulo 64, and the length
    in bits as 64 bits. *)
Definition pad (message : list Z) : list Z :=
  let len := Z.of_nat (length message) in
  let zeros := Z.to_nat ((55 - len) mod 64) in
  message ++ [128] ++ repeat 0 zeros ++ digits 8 8 (8 * len).

Fixpoint wordsOf (fuel : nat) (bs : list Z) : list Z :=
  match fuel, bs with
  | S fuel, b0 :: b1 :: b2 :: b3 :: rest =>
      (((b0 * 256 + b1) * 256 + b2) * 256 + b3) :: wordsOf fuel rest
  | _, _ => []
  end.

(** The 16-word blocks of a padded message. *)
Fixpoint blocksOf (fuel : nat) (ws : list Z) : list (list Z) :=
  match fuel, ws with
  | S fuel, _ :: _ => take 16 ws :: blocksOf fuel (drop 16 ws)
  | _, _ => []
  end.

Definition blocks (s : string) : list (list Z) :=
  let padded := pad (bytesOf s) in
  let ws := wordsOf (length padded) padded in
  blocksOf (length ws) ws.

Definition hexDigit (d : Z) : ascii :=
  ascii_of_N (Z.to_N (if d <? 10 then 48 + d else 87 + d)).

Definition hex (ws : list Z) : string :=
  string_of_list_ascii (hexDigit <$> concat (digits 4 8 <$> ws)).

(** *** SHA-256 (FIPS 180-4, section 6.2) *)

Definition K256 : list Z :=
  [
   1116352408; 1899447441; 3049323471; 3921009573; 961987163; 1508970993;
   2453635748; 2870763221; 3624381080; 310598401; 607225278; 1426881987;
   1925078388; 2162078206; 2614888103; 3248222580; 3835390401; 4022224774;
   264347078; 604807628; 770255983; 1249150122; 1555081692; 1996064986;
   2554220882; 2821834349; 2952996808; 3210313671; 3336571891; 3584528711;
   113926993; 338241895; 666307205; 773529912; 1294757372; 1396182291;
   1695183700; 1986661051; 2177026350; 2456956037; 2730485921; 2820302411;
   3259730800; 3345764771; 3516065817; 3600352804; 4094571909; 275423344;
   430227734; 506948616; 659060556; 883997877; 958139571; 1322822218;
   1537002063; 1747873779; 1955562222; 2024104815; 2227730452; 2361852424;
   2428436474; 2756734187; 3204031479; 3329325298 ].

Definition H256 : list Z :=
  [ 1779033703; 3144134277; 1013904242; 2773480762; 1359893119; 2600822924; 528734635; 1541459225 ].

(** The message schedule, newest word first. *)
Fixpoint schedule256 (n : nat) (w : list Z) : list Z :=
  match n with
  | O => w
  | S n =>
      let w2 := nth 1 w 0 in
      let w15 := nth 14 w 0 in
      let s0 := Z.lxor (Z.lxor (rotr 7 w15) (rotr 18 w15)) (Z.shiftr w15 3) in
      let s1 := Z.lxor (Z.lxor (rotr 17 w2) (rotr 19 w2)) (Z.shiftr w2 10) in
      schedule256 n (add32 (add32 s1 (nth 6 w 0)) (add32 s0 (nth 15 w 0)) :: w)
  end.

Definition round256 (v : list Z) (kw : Z * Z) : list Z :=
  match v with
  | [a; b; c; d; e; f; g; h] =>
      let S1 := Z.lxor (Z.lxor (rotr 6 e) (rotr 11 e)) (rotr 25 e) in
      let ch := Z.lxor (Z.land e f) (Z.land (not32 e) g) in
      let t1 := add32 (add32 (add32 h S1) (add32 ch kw.1)) kw.2 in
      let S0 := Z.lxor (Z.lxor (rotr 2 a) (rotr 13 a)) (rotr 22 a) in
      let maj := Z.lxor (Z.lxor (Z.land a b) (Z.land a c)) (Z.land b c) in
      [add32 t1 (add32 S0 maj); a; b; c; add32 d t1; e; f; g]
  | _ => v
  end.

Definition compress256 (h : list Z) (block : list Z) : list Z :=
  let w := rev (schedule256 48 (rev block)) in
  zip_with add32 h (fold_left round256 (zip K256 w) h).

Definition sha256 (s : string) : string :=
  hex (fold_left compress256 (blocks s) H256).

(** *** SHA-1 (FIPS 180-4, section 6.1) *)

Definition H1 : list Z :=
  [ 1732584193; 4023233417; 2562383102; 271733878; 3285377520 ].

Fixpoint schedule1 (n : nat) (w : list Z) : list Z :=
  match n with
  | O => w
  | S n =>
      let x := Z.lxor (Z.lxor (nth 2 w 0) (nth 7 w 0)) (Z.lxor (nth 13 w 0) (nth 15 w 0)) in
      schedule1 n (rotl 1 x :: w)
  end.

Definition round1 (v : list Z) (tw : nat * Z) : list Z :=
  match v with
  | [a; b; c; d; e] =>
      let '(f, k) :=
        if (tw.1 <? 20)%nat then
          (Z.lxor (Z.land b c) (Z.land (not32 b) d), 1518500249)
        else if (tw.1 <? 40)%nat then
          (Z.lxor (Z.lxor b c) d, 1859775393)
        else if (tw.1 <? 60)%nat then
          (Z.lxor (Z.lxor (Z.land b c) (Z.land b d)) (Z.land c d), 2400959708)
        else
          (Z.lxor (Z.lxor b c) d, 3395469782) in
      [add32 (add32 (add32 (rotl 5 a) f) (add32 e k)) tw.2; a; rotl 30 b; c; d]
  | _ => v
  end.

Definition compress1 (h : list Z) (block : list Z) : list Z :=
  let w := rev (schedule1 64 (rev block)) in
  zip_with add32 h (fold_left round1 (zip (seq 0 80) w) h).

Definition sha1 (s : string) : string :=
  hex (fold_left compress1 (blocks s) H1).

End Crypto.

(** ** The process: console, cookies, completions *)

Inductive LogLevel : Type := console_warn | console_error.

(** What follows the text of a [console] call: the fields of its object
    argument. *)
Inductive LogField : Type :=
| FText (s : string)
| FIssues (issues : list (string * string)).

Record LogEntry : Type := {
  level : LogLevel;
  text : string;
  fields : list (string * LogField);
}.

Inductive SameSite : Type := lax | strict | none.

(** A cookie of the store of [cookies()] of next/headers: its value and
    the attributes it was set with (a cookie that came with the request has
    its value only). *)
Record Cookie : Type := {
  value : string;
  httpOnly : bool;
  sameSite : option SameSite;
  path : option string;
  secure : bool;
  maxAge : option Z;
}.

Definition requestCookie (v : string) : Cookie :=
  {| value := v; httpOnly := false; sameSite := None; path := None;
     secure := false; maxAge := None |}.

Record Process : Type := {
  console : list LogEntry;
  cookieStore : gmap string Cookie;
}.

Definition M (A : Type) : Type := Process -> Js.Completion A * Process.

Definition ret {A} (a : A) : M A := fun p => (Js.Return a, p).
Definition throw {A} (e : Js.Exception) : M A := fun p => (Js.Throw e, p).
Definition bind {A B} (m : M A) (k : A -> M B) : M B :=
  fun p =>
    match m p with
    | (Js.Return a, p') => k a p'
    | (Js.Throw e, p') => (Js.Throw e, p')
    end.
(** [try { m } catch (e) { handler(e) }] *)
Definition tryCatch {A} (m : M A) (handler : Js.Exception -> M A) : M A :=
  fun p =>
    match m p with
    | (Js.Return a, p') => (Js.Return a, p')
    | (Js.Throw e, p') => handler e p'
    end.
(** A synchronous or read-only step that completes normally or throws. *)
Definition lift {A} (c : Js.Completion A) : M A := fun p => (c, p).
Definition log (l : LogLevel) (t : string) (fs : list (string * LogField)) : M unit :=
  fun p =>
    (Js.Return tt,
     {| console := console p ++ [{| level := l; text := t; fields := fs |}];
        cookieStore := cookieStore p |}).
Definition cookieGet (name : string) : M (option Cookie) :=
  fun p => (Js.Return (cookieStore p !! name), p).
(** [cookies().set(name, value, options)] of next/headers in a server
    action.  The cookie goes into a [Set-Cookie] header of the response,
    its name and its path as they are, its value percent-encoded;
    [Headers.append] throws a TypeError when that is no header value, and
    then no cookie is set.  TypeError is an [Error]; its message is the
    runtime's, for which a short text stands here.  (White space at the
    head of a header value would be stripped, not refused; no name set
    here starts with white space.) *)
Definition cookieSet (name : string) (c : Cookie) : M unit :=
  fun p =>
    if Js.headerValue name && Js.headerValue (default "" (path c)) then
      (Js.Return tt,
       {| console := console p; cookieStore := <[name := c]> (cookieStore p) |})
    else (Js.Throw (Js.Error "Invalid header value"), p).

Notation "'let*' x ':=' m 'in' k" := (bind m (fun x => k))
  (at level 10, x name, m at level 100, k at level 200).
Notation "'do' m 'then' k" := (bind m (fun _ => k))
  (at level 10, m at level 100, k at level 200).

(** [Promise.allSettled(xs.map(f))]: every task runs, and the outcomes come
    in input order. *)
Fixpoint allSettled {A B} (f : A -> M B) (xs : list A) : M (list (Js.Completion B)) :=
  match xs with
  | [] => ret []
  | x :: rest =>
      fun p =>
        let '(c, p') := f x p in
        (let* r := allSettled f rest in ret (c :: r)) p'
  end.

(** A date: its time value in milliseconds since the epoch, [None] for an
    invalid date (NaN). *)
Record Date : Type := { getTime : option Z }.

(** ** What the host provides *)

Record Dirent : Type := { name : string; isDirectory : bool }.

Record FileSystem : Type := {
  readdir : string -> Js.Completion (list Dirent);
  access : string -> Js.Completion unit;
  readFile : string -> Js.Completion string;
}.

Record Env : Type := {
  CONTENT_DIR : option string;
  POSTS_ROOT_DIR : option string;
  NODE_ENV : option string;
}.

(** ** The shape of a post ([frontmatterSchema.ts], [generatedPosts.ts]) *)

Inductive Access : Type := public | unlisted | private | protected.

Global Instance Access_eq_dec : EqDecision Access.
Proof. solve_decision. Defined.

(** [Frontmatter] with its [date] of type [D]: a [Date] after validation,
    an ISO string in the generated snapshot. *)
Record FrontmatterOf (D : Type) : Type := {
  title : string;
  fm_access : Access;
  password : option string;
  description : option string;
  thumbnail : option string;
  topics : option (list string);
  date : option D;
}.
Arguments title {D}.
Arguments fm_access {D}.
Arguments password {D}.
Arguments description {D}.
Arguments thumbnail {D}.
Arguments topics {D}.
Arguments date {D}.

Definition Frontmatter : Type := FrontmatterOf Date.
Definition SerializedFrontmatter : Type := FrontmatterOf string.

(** [{ ...frontmatter, date: d }] *)
Definition withDate {D E} (f : FrontmatterOf D) (d : option E) : FrontmatterOf E :=
  {| title := title f; fm_access := fm_access f; password := password f;
     description := description f; thumbnail := thumbnail f;
     topics := topics f; date := d |}.

(** [PostEntry] of [posts.ts] *)
Record PostEntry : Type := {
  entrySlug : string;
  entryPath : string;
  sha : string;
  frontmatter : Frontmatter;
}.

(** [SerializedPostEntry] of [generatedPosts.ts] *)
Module Generated.
Record SerializedPostEntry : Type := {
  slug : string;
  path : string;
  sha : string;
  frontmatter : SerializedFrontmatter;
  content : string;
}.
End Generated.
Abbreviation SerializedPostEntry := Generated.SerializedPostEntry.

(** What the repository's code takes from outside: the file system, the
    environment, the working directory, the collation of
    [String.prototype.localeCompare], the time value of [new Date(s)], and
    [parsePost] of [parsePost.ts]. *)
Record Host : Type := {
  fs : FileSystem;
  env : Env;
  cwd : string;
  localeCompare : string -> string -> Z;
  Date_parse : string -> option Z;
  parsePost : string -> Js.Completion (Frontmatter * string);
}.

(** ** ISO 8601 time stamps: [Date.prototype.toISOString] and a reader *)

Module IsoDate.

(** Days since 1970-01-01 of a proleptic Gregorian date. *)
Definition daysFromCivil (y m d : Z) : Z :=
  let y := if m <=? 2 then y - 1 else y in
  let era := y / 400 in
  let yoe := y - era * 400 in
  let doy := (153 * (if m >? 2 then m - 3 else m + 9) + 2) / 5 + d - 1 in
  let doe := yoe * 365 + yoe / 4 - yoe / 100 + doy in
  era * 146097 + doe - 719468.

Definition civilFromDays (z : Z) : Z * Z * Z :=
  let z := z + 719468 in
  let era := z / 146097 in
  let doe := z - era * 146097 in
  let yoe := (doe - doe / 1460 + doe / 36524 - doe / 146096) / 365 in
  let doy := doe - (365 * yoe + yoe / 4 - yoe / 100) in
  let mp := (5 * doy + 2) / 153 in
  let d := doy - (153 * mp + 2) / 5 + 1 in
  let m := if mp <? 10 then mp + 3 else mp - 9 in
  (yoe + era * 400 + (if m <=? 2 then 1 else 0), m, d).

Definition msPerDay : Z := 86400000.

(** [n] in [width] decimal digits. *)
Fixpoint padded (width : nat) (n : Z) : string :=
  match width with
  | O => ""
  | S w => padded w (n / 10) +:+ String (ascii_of_N (Z.to_N (48 + n mod 10))) ""
  end.

(** [date.toISOString()]: a RangeError for an invalid date; years
    outside 0..9999 are written with a sign and six digits. *)
Definition toISOString (d : Date) : Js.Completion string :=
  match getTime d with
  | None => Js.Throw (Js.Error "Invalid time value")
  | Some t =>
      let '(y, m, dd) := civilFromDays (t / msPerDay) in
      let ms := t mod msPerDay in
      let year :=
        if (0 <=? y) && (y <=? 9999) then padded 4 y
        else (if y <? 0 then "-" else "+") +:+ padded 6 (Z.abs y) in
      Js.Return
        (year +:+ "-" +:+ padded 2 m +:+ "-" +:+ padded 2 dd +:+ "T"
         +:+ padded 2 (ms / 3600000) +:+ ":" +:+ padded 2 (ms / 60000 mod 60)
         +:+ ":" +:+ padded 2 (ms / 1000 mod 60) +:+ "." +:+ padded 3 (ms mod 1000)
         +:+ "Z")
  end.

Definition digit (c : ascii) : option Z :=
  let n := Z.of_N (N_of_ascii c) in
  if (48 <=? n) && (n <=? 57) then Some (n - 48) else None.

(** Exactly [width] decimal digits at the head of [s], and what follows. *)
Fixpoint number (width : nat) (acc : Z) (s : string) : option (Z * string) :=
  match width, s with
  | O, _ => Some (acc, s)
  | S w, String c r =>
      match digit c with
      | Some d => number w (10 * acc + d) r
      | None => None
      end
  | S _, EmptyString => None
  end.

(** The literal [lit] at the head of [s]: what follows it. *)
Definition after (lit s : string) : option string :=
  if String.prefix lit s then Some (Js.drop (String.length lit) s) else None.

Definition daysInMonth (y m : Z) : Z :=
  if m =? 2 then
    (if ((y mod 4 =? 0) && negb (y mod 100 =? 0)) || (y mod 400 =? 0) then 29 else 28)
  else if (m =? 4) || (m =? 6) || (m =? 9) || (m =? 11) then 30 else 31.

(** [YYYY-MM-DD]: the days since the epoch and what follows. *)
Definition readDate (s : string) : option (Z * string) :=
  '(y, s) ← number 4 0 s;
  s ← after "-" s;
  '(m, s) ← number 2 0 s;
  s ← after "-" s;
  '(d, s) ← number 2 0 s;
  if (1 <=? m) && (m <=? 12) && (1 <=? d) && (d <=? daysInMonth y m)
  then Some (daysFromCivil y m d, s) else None.

(** [Z] or [+HH:mm] or [-HH:mm] and nothing after it: the offset in
    minutes. *)
Definition readOffset (s : string) : option Z :=
  if decide (s = "Z") then Some 0
  else
    sign ← (if String.prefix "+" s then Some 1
            else if String.prefix "-" s then Some (-1) else None);
    '(hh, s) ← number 2 0 (Js.drop 1 s);
    s ← after ":" s;
    '(mm, s) ← number 2 0 s;
    if String.eqb s "" && (hh <=? 23) && (mm <=? 59)
    then Some (sign * (60 * hh + mm)) else None.

(** [THH:mm:ss], an optional [.sss], and the offset. *)
Definition readTime (s : string) : option Z :=
  s ← after "T" s;
  '(hh, s) ← number 2 0 s;
  s ← after ":" s;
  '(mm, s) ← number 2 0 s;
  s ← after ":" s;
  '(ss, s) ← number 2 0 s;
  '(ms, s) ← (match after "." s with
              | Some s => number 3 0 s
              | None => Some (0, s)
              end);
  offset ← readOffset s;
  if (hh <=? 23) && (mm <=? 59) && (ss <=? 59)
  then Some (((hh * 60 + mm - offset) * 60 + ss) * 1000 + ms) else None.

(** The time value of a time stamp written as [YYYY-MM-DD] or as
    [YYYY-MM-DDTHH:mm:ss], with optional milliseconds, and a time zone;
    NaN for anything else. *)
Definition parse (s : string) : option Z :=
  '(days, s) ← readDate s;
  if decide (s = "") then Some (days * msPerDay)
  else t ← readTime s; Some (days * msPerDay + t).

End IsoDate.

(** ** Content discovery

    [normalizeSlug], [listPostSlugs], [resolvePostFilePath] and
    [assertPostsRootExists] stand, word for word, in the live [posts.ts] and
    in [scripts/generate-content.ts]; the two differ in the directory their
    messages name ([contentDir]) and in the layout they expect
    ([layout]). *)

Module Discovery.

Definition POST_ENTRY_FILENAME : string := "index.md".

Definition normalizeSlug (slug : string) : Js.Completion string :=
  let cleaned := Js.trim slug in
  if (String.length cleaned =? 0)%nat
     || String.eqb cleaned "."
     || String.eqb cleaned ".."
     || Js.includes cleaned "/"
     || Js.includes cleaned Js.backslash
  then Js.Throw (Js.Error ("Invalid slug: " +:+ slug))
  else Js.Return cleaned.

(** [names.map(f)] for an [f] that may throw: the first throw ends it. *)
Fixpoint mapThrowing {A B} (f : A -> Js.Completion B) (xs : list A) : Js.Completion (list B) :=
  match xs with
  | [] => Js.Return []
  | x :: rest =>
      match f x with
      | Js.Throw e => Js.Throw e
      | Js.Return y =>
          match mapThrowing f rest with
          | Js.Throw e => Js.Throw e
          | Js.Return ys => Js.Return (y :: ys)
          end
      end
  end.

(** [Promise.all]: every task runs; the first rejection, if any, is the
    outcome. *)
Fixpoint firstRejection {B} (rs : list (Js.Completion B)) : Js.Completion (list B) :=
  match rs with
  | [] => Js.Return []
  | Js.Throw e :: _ => Js.Throw e
  | Js.Return y :: rest =>
      match firstRejection rest with
      | Js.Throw e => Js.Throw e
      | Js.Return ys => Js.Return (y :: ys)
      end
  end.

Definition promiseAll {A B} (f : A -> M B) (xs : list A) : M (list B) :=
  let* rs := allSettled f xs in lift (firstRejection rs).

Section WithHost.
Context (h : Host) (contentDir layout : string).

Definition assertPostsRootExists (postsRoot : string) : M unit :=
  tryCatch (lift (access (fs h) postsRoot))
    (fun error =>
       if Js.instanceofError error then
         throw (Js.Error ("Posts root not found: " +:+ postsRoot
                          +:+ ". Did you fetch the content repo into "
                          +:+ Js.dquote +:+ contentDir +:+ "/" +:+ Js.dquote +:+ "?"))
       else throw error).

(** Is [entry] kept by the filter of [listPostSlugs]? *)
Definition visibleDirectory (entry : Dirent) : bool :=
  isDirectory entry && negb (Js.startsWith (name entry) ".").

(** The task of one directory: [Some slug] when it pushed [slug] onto
    [found], [None] when it warned and returned. *)
Definition probe (postsRoot slug : string) : M (option string) :=
  let filePath := Path.join [postsRoot; slug; POST_ENTRY_FILENAME] in
  tryCatch
    (do lift (access (fs h) filePath) then ret (Some slug))
    (fun error =>
       if Js.instanceofError error then
         do log console_warn ("Skipping directory without " +:+ POST_ENTRY_FILENAME
                      +:+ ": " +:+ filePath) []
         then ret None
       else throw error).

(** [found] is filled as the probes complete and sorted before it is
    returned; here the probes complete in the order of [dirNames], and so
    do their warnings. *)
Definition listPostSlugs (postsRoot : string) : M (list string) :=
  let* entries := lift (readdir (fs h) postsRoot) in
  let* dirNames :=
    lift (mapThrowing (fun entry => normalizeSlug (name entry))
            (List.filter visibleDirectory entries)) in
  let* pushed := promiseAll (probe postsRoot) dirNames in
  let found := omap id pushed in
  if (length found =? 0)%nat then
    throw (Js.Error ("No posts found in " +:+ postsRoot +:+ ". Expected "
                     +:+ Js.dquote +:+ layout +:+ Js.dquote +:+ "."))
  else ret (Js.sort (fun a b => Some (localeCompare h a b)) found).

Definition resolvePostFilePath (postsRoot slug : string) : Js.Completion string :=
  match normalizeSlug (Js.stripLeadingSlash slug) with
  | Js.Throw e => Js.Throw e
  | Js.Return safeSlug =>
      let candidate := Path.resolve (cwd h) [postsRoot; safeSlug; POST_ENTRY_FILENAME] in
      let normalizedPostsRoot := Path.resolve (cwd h) [postsRoot] in
      if negb (Js.startsWith candidate (normalizedPostsRoot +:+ Path.sep))
         && negb (String.eqb candidate normalizedPostsRoot)
      then Js.Throw (Js.Error ("Invalid slug: " +:+ slug))
      else Js.Return candidate
  end.

(** [filePath.split(path.sep).join("/")] *)
Definition toPosixPath (filePath : string) : string :=
  Js.join "/" (Js.split "/" filePath).

Definition createContentSha (raw : string) : string := Crypto.sha1 raw.

(** The warning for a task of the batch that was rejected, as both
    batches write it: [slugs[index] ?? "unknown"] names the post. *)
Definition skipWarning (postPath : string) (reason : Js.Exception) : M unit :=
  match reason with
  | Js.FrontmatterValidationError _ issues =>
      log console_warn "Skipping post due to invalid frontmatter"
        [("path", FText (postPath +:+ "/" +:+ POST_ENTRY_FILENAME));
         ("issues", FIssues issues)]
  | _ =>
      log console_warn "Skipping post due to unexpected error"
        [("path", FText (postPath +:+ "/" +:+ POST_ENTRY_FILENAME));
         ("error", FText (Js.messageOf reason))]
  end.

(** [results.forEach((result, index) => ...)]: fulfilled values are
    pushed onto [entries], rejections are logged. *)
Fixpoint collect {E} (slugs : list string) (index : nat)
    (results : list (Js.Completion E)) (entries : list E) : M (list E) :=
  match results with
  | [] => ret entries
  | result :: later =>
      match result with
      | Js.Return value => collect slugs (S index) later (entries ++ [value])
      | Js.Throw reason =>
          do skipWarning (default "unknown" (slugs !! index)) reason
          then collect slugs (S index) later entries
      end
  end.

End WithHost.

End Discovery.

(** ** The comparator of [listPublicPosts] (the same in both [posts.ts]) *)

(** [(a, b) => { if (!dateA) return 1; if (!dateB) return -1;
    return dateB.getTime() - dateA.getTime(); }]: a [Date] object is
    truthy whatever its time value; the difference of two time values is
    NaN when one of them is.  Time values are integers of at most
    8.64e15 in magnitude, so that the difference of two of them, computed
    in double precision, has the sign of the exact difference, and [sort]
    reads the sign only. *)
Definition byDateDescending (a b : PostEntry) : option Z :=
  match date (frontmatter a), date (frontmatter b) with
  | None, _ => Some 1
  | Some _, None => Some (-1)
  | Some dateA, Some dateB =>
      match getTime dateB, getTime dateA with
      | Some tb, Some ta => Some (tb - ta)
      | _, _ => None
      end
  end.

Definition isPublic (post : PostEntry) : bool :=
  bool_decide (fm_access (frontmatter post) = public).

(** [allPosts.filter(...).sort(...)] *)
Definition publicNewestFirst (allPosts : list PostEntry) : list PostEntry :=
  Js.sort byDateDescending (List.filter isPublic allPosts).

(** ** The live [posts.ts]: the file system read on every (uncached) call *)

Module LivePosts.

Definition DEFAULT_CONTENT_DIR : string := "external-posts".
Definition POST_ENTRY_FILENAME : string := Discovery.POST_ENTRY_FILENAME.

Section WithHost.
Context (h : Host).

Definition contentDir : string := default DEFAULT_CONTENT_DIR (CONTENT_DIR (env h)).

Definition resolvePostsRoot : string := Path.join [cwd h; contentDir].

Definition formatPostPath (slug : string) : string :=
  contentDir +:+ "/" +:+ slug +:+ "/" +:+ POST_ENTRY_FILENAME.

Definition assertPostsRootExists : string -> M unit :=
  Discovery.assertPostsRootExists h DEFAULT_CONTENT_DIR.

Definition listPostSlugs : string -> M (list string) :=
  Discovery.listPostSlugs h
    (DEFAULT_CONTENT_DIR +:+ "/<slug>/" +:+ POST_ENTRY_FILENAME).

Definition resolvePostFilePath : string -> string -> Js.Completion string :=
  Discovery.resolvePostFilePath h.

(** The task of one slug in [listPostsCached]. *)
Definition readEntry (postsRoot slug : string) : M PostEntry :=
  let* absolutePath := lift (resolvePostFilePath postsRoot slug) in
  let* raw := lift (readFile (fs h) absolutePath) in
  let* parsed := lift (parsePost h raw) in
  let posixPath :=
    Discovery.toPosixPath (Path.join [contentDir; slug; POST_ENTRY_FILENAME]) in
  ret {| entrySlug := slug; entryPath := posixPath;
         sha := Discovery.createContentSha raw;
         frontmatter := parsed.1 |}.

Definition listPostsCached : M (list PostEntry) :=
  let postsRoot := resolvePostsRoot in
  do assertPostsRootExists postsRoot then
  let* slugs := listPostSlugs postsRoot in
  let* results := allSettled (readEntry postsRoot) slugs in
  Discovery.collect slugs 0 results [].

(** [date ? new Date(date) : undefined]: a copy with the same time
    value (the cache of the framework, which is not modelled, hands the
    date over as the ISO string of the same instant). *)
Definition restoreDates (f : Frontmatter) : Frontmatter :=
  withDate f ((fun d => {| getTime := getTime d |}) <$> date f).

Definition restoreEntry (item : PostEntry) : PostEntry :=
  {| entrySlug := entrySlug item; entryPath := entryPath item; sha := sha item;
     frontmatter := restoreDates (frontmatter item) |}.

Definition listPosts : M (list PostEntry) :=
  let* entries := listPostsCached in
  ret (restoreEntry <$> entries).

Definition listPublicPosts : M (list PostEntry) :=
  let* allPosts := listPosts in
  ret (publicNewestFirst allPosts).

Definition getPostBySlugCached (slug : string) : M (Frontmatter * string) :=
  let postsRoot := resolvePostsRoot in
  do assertPostsRootExists postsRoot then
  let* filePath := lift (resolvePostFilePath postsRoot slug) in
  let* raw := lift (readFile (fs h) filePath) in
  lift (parsePost h raw).

Definition getPostBySlug (slug : string) : M (Frontmatter * string) :=
  tryCatch
    (let* post := getPostBySlugCached slug in
     ret (restoreDates post.1, post.2))
    (fun error =>
       let targetPath := formatPostPath slug in
       do (match error with
           | Js.FrontmatterValidationError _ issues =>
               log console_warn "Frontmatter invalid, returning 404"
                 [("path", FText targetPath); ("issues", FIssues issues)]
           | Js.Thrown _ => ret tt
           | _ =>
               log console_error ("Failed to fetch post: " +:+ slug)
                 [("path", FText targetPath); ("error", FText (Js.messageOf error))]
           end)
       then throw Js.NotFound).

End WithHost.

End LivePosts.

(** ** [scripts/generate-content.ts]: the snapshot written before a build *)

Module GenerateContent.

Definition DEFAULT_CONTENT_DIR : string := "my-blog-contents".
Definition DEFAULT_POSTS_ROOT_DIR : string := "external-posts".
Definition POST_ENTRY_FILENAME : string := Discovery.POST_ENTRY_FILENAME.

Section WithHost.
Context (h : Host).

Definition contentDir : string := default DEFAULT_CONTENT_DIR (CONTENT_DIR (env h)).
Definition postsRootDir : string :=
  default DEFAULT_POSTS_ROOT_DIR (POSTS_ROOT_DIR (env h)).

Definition resolvePostsRoot : string := Path.join [cwd h; contentDir; postsRootDir].

Definition assertPostsRootExists : string -> M unit :=
  Discovery.assertPostsRootExists h DEFAULT_CONTENT_DIR.

Definition listPostSlugs : string -> M (list string) :=
  Discovery.listPostSlugs h
    (DEFAULT_CONTENT_DIR +:+ "/" +:+ DEFAULT_POSTS_ROOT_DIR +:+ "/<slug>/"
     +:+ POST_ENTRY_FILENAME).

Definition resolvePostFilePath : string -> string -> Js.Completion string :=
  Discovery.resolvePostFilePath h.

(** [{ ...frontmatter, date: date ? date.toISOString() : undefined }] *)
Definition serializeFrontmatter (f : Frontmatter) : Js.Completion SerializedFrontmatter :=
  match date f with
  | None => Js.Return (withDate f None)
  | Some d =>
      match IsoDate.toISOString d with
      | Js.Return s => Js.Return (withDate f (Some s))
      | Js.Throw e => Js.Throw e
      end
  end.

(** The task of one slug in [buildPosts]. *)
Definition readEntry (postsRoot slug : string) : M SerializedPostEntry :=
  let* absolutePath := lift (resolvePostFilePath postsRoot slug) in
  let* raw := lift (readFile (fs h) absolutePath) in
  let* parsed := lift (parsePost h raw) in
  let posixPath :=
    Discovery.toPosixPath
      (Path.join [contentDir; postsRootDir; slug; POST_ENTRY_FILENAME]) in
  let* serialized := lift (serializeFrontmatter parsed.1) in
  ret {| Generated.slug := slug; Generated.path := posixPath;
         Generated.sha := Discovery.createContentSha raw;
         Generated.frontmatter := serialized; Generated.content := parsed.2 |}.

Definition buildPosts : M (list SerializedPostEntry) :=
  let postsRoot := resolvePostsRoot in
  do assertPostsRootExists postsRoot then
  let* slugs := listPostSlugs postsRoot in
  let* results := allSettled (readEntry postsRoot) slugs in
  let* entries := Discovery.collect slugs 0 results [] in
  if (length entries =? 0)%nat then
    throw (Js.Error "No valid posts generated. Check content and frontmatter.")
  else ret entries.

End WithHost.

End GenerateContent.

(** ** [src/lib/content/posts.ts]: the posts of the generated snapshot *)

Module Posts.

Definition DEFAULT_CONTENT_DIR : string := "my-blog-contents".
Definition DEFAULT_POSTS_ROOT_DIR : string := "external-posts".
Definition POST_ENTRY_FILENAME : string := "index.md".

(** A [date] as [restoreDates] may meet it: a [Date] or a string. *)
Inductive DateOrString : Type :=
| ADate (d : Date)
| AString (s : string).

Section WithHost.
(** [generatedPosts] is the array [posts] of [generatedPosts.ts]. *)
Context (h : Host) (generatedPosts : list SerializedPostEntry).

Definition formatPostPath (slug : string) : string :=
  let contentDir := default DEFAULT_CONTENT_DIR (CONTENT_DIR (env h)) in
  let postsRootDir := default DEFAULT_POSTS_ROOT_DIR (POSTS_ROOT_DIR (env h)) in
  contentDir +:+ "/" +:+ postsRootDir +:+ "/" +:+ slug +:+ "/" +:+ POST_ENTRY_FILENAME.

Definition listPostsCached : M (list SerializedPostEntry) :=
  if (length generatedPosts =? 0)%nat then
    throw (Js.Error ("No posts found in generated data. Run " +:+ Js.dquote
                     +:+ "bun run generate:content" +:+ Js.dquote
                     +:+ " before building."))
  else ret generatedPosts.

(** [date instanceof Date ? date : date ? new Date(date) : undefined];
    the empty string is falsy. *)
Definition restoreDate (d : option DateOrString) : option Date :=
  match d with
  | Some (ADate d) => Some d
  | Some (AString s) =>
      if decide (s = "") then None else Some {| getTime := Date_parse h s |}
  | None => None
  end.

Definition restoreDates (f : SerializedFrontmatter) : Frontmatter :=
  withDate f (restoreDate (AString <$> date f)).

(** [restoreDates] at an entry of the list; [listPosts] gives its result
    the type [PostEntry], which has no [content]. *)
Definition restoreEntry (item : SerializedPostEntry) : PostEntry :=
  {| entrySlug := Generated.slug item; entryPath := Generated.path item;
     sha := Generated.sha item;
     frontmatter := restoreDates (Generated.frontmatter item) |}.

Definition listPosts : M (list PostEntry) :=
  let* entries := listPostsCached in
  ret (restoreEntry <$> entries).

Definition listPublicPosts : M (list PostEntry) :=
  let* allPosts := listPosts in
  ret (publicNewestFirst allPosts).

Definition getPostBySlugCached (slug : string) : M (SerializedFrontmatter * string) :=
  match List.find (fun post => String.eqb (Generated.slug post) slug) generatedPosts with
  | None => throw (Js.Error ("Post not found: " +:+ slug))
  | Some entry => ret (Generated.frontmatter entry, Generated.content entry)
  end.

Definition getPostBySlug (slug : string) : M (Frontmatter * string) :=
  tryCatch
    (let* post := getPostBySlugCached slug in
     ret (restoreDates post.1, post.2))
    (fun error =>
       let targetPath := formatPostPath slug in
       do (if Js.instanceofError error then
             log console_error ("Failed to fetch post: " +:+ slug)
               [("path", FText targetPath); ("error", FText (Js.messageOf error))]
           else ret tt)
       then throw Js.NotFound).

End WithHost.

End Posts.

(** ** [src/app/post/[slug]/actions.ts]: the gate of a protected post *)

Module Actions.

(** [ProtectedPostActionState] *)
Record ProtectedPostActionState : Type := {
  success : option bool;
  error : option string;
  content : option string;
}.

(** What [formData.get("password")] may return. *)
Inductive FormDataEntryValue : Type :=
| FormString (s : string)
| FormFile (fileName : string).

Definition FormData : Type := list (string * FormDataEntryValue).

(** [formData.get(name)]: the first entry of that name, or null. *)
Definition formDataGet (formData : FormData) (name : string) : option FormDataEntryValue :=
  snd <$> List.find (fun kv => String.eqb kv.1 name) formData.

Definition protectedCookieName (slug : string) : string := "protected-post-" +:+ slug.

Definition sha256 (value : string) : string := Crypto.sha256 value.

Definition passwordNotConfigured : string :=
  "access: " +:+ Js.dquote +:+ "protected" +:+ Js.dquote
  +:+ " の記事には password を設定してください。".
Definition passwordMissing : string := "パスワードを入力してください。".
Definition passwordMismatch : string := "パスワードが一致しません。".

(** [!frontmatter.password]: undefined and the empty string are falsy. *)
Definition falsy (s : option string) : bool :=
  match s with
  | None => true
  | Some s => String.eqb s ""
  end.

Definition hasProtectedAccess (slug expectedHash : string) : M bool :=
  let* cookie := cookieGet (protectedCookieName slug) in
  ret (bool_decide (value <$> cookie = Some expectedHash)).

Section WithHost.
Context (h : Host) (generatedPosts : list SerializedPostEntry).

Definition loadProtectedPost (slug : string) : M ProtectedPostActionState :=
  let* post := Posts.getPostBySlug h generatedPosts slug in
  let '(frontmatter, content) := post in
  if negb (bool_decide (fm_access frontmatter = protected)) then
    ret {| success := Some true; error := None; content := Some content |}
  else if falsy (password frontmatter) then
    ret {| success := None; error := Some passwordNotConfigured; content := None |}
  else
    let expectedHash := sha256 (default "" (password frontmatter)) in
    let* granted := hasProtectedAccess slug expectedHash in
    if negb granted then
      ret {| success := Some false; error := None; content := None |}
    else
      ret {| success := Some true; error := None; content := Some content |}.

Definition verifyProtectedPostPassword (slug : string)
    (_prevState : option ProtectedPostActionState) (formData : FormData)
    : M ProtectedPostActionState :=
  let* post := Posts.getPostBySlug h generatedPosts slug in
  let '(frontmatter, content) := post in
  if negb (bool_decide (fm_access frontmatter = protected)) then
    ret {| success := Some true; error := None; content := Some content |}
  else if falsy (password frontmatter) then
    ret {| success := None; error := Some passwordNotConfigured; content := None |}
  else
    match formDataGet formData "password" with
    | Some (FormString input) =>
        if (String.length input =? 0)%nat then
          ret {| success := None; error := Some passwordMissing; content := None |}
        else
          let expectedHash := sha256 (default "" (password frontmatter)) in
          let inputHash := sha256 input in
          if negb (String.eqb inputHash expectedHash) then
            ret {| success := None; error := Some passwordMismatch; content := None |}
          else
            do cookieSet (protectedCookieName slug)
                 {| value := expectedHash;
                    httpOnly := true;
                    sameSite := Some lax;
                    path := Some "/";
                    secure := bool_decide (NODE_ENV (env h) = Some "production");
                    maxAge := Some (60 * 60 * 12) |}
            then ret {| success := Some true; error := None; content := Some content |}
    | _ =>
        ret {| success := None; error := Some passwordMissing; content := None |}
    end.

End WithHost.

End Actions.

(** ** The frontmatter validator ([frontmatterSchema.ts] is not among the
    sources: this module follows section 4.1 of the specification) *)

Module FrontmatterSchema.

(** A value of the decoded metadata block. *)
#[warnings="-register-all"]
Inductive Yaml : Type :=
| YString (s : string)
| YNumber (n : Z)
| YBool (b : bool)
| YNull
| YSeq (items : list Yaml)
| YMap (pairs : list (string * Yaml)).

(** An issue: the field it is about and the reason. *)
Definition Issue : Type := (string * string)%type.

(** Modelled from the spec: the four literals of [access]. *)
Definition accessOfLiteral (s : string) : option Access :=
  if String.eqb s "public" then Some public
  else if String.eqb s "unlisted" then Some unlisted
  else if String.eqb s "private" then Some private
  else if String.eqb s "protected" then Some protected
  else None.

(** The strings of a sequence, when every item is one. *)
Definition stringsOf (items : list Yaml) : option (list string) :=
  mapM (fun y => match y with YString s => Some s | _ => None end) items.

Section WithIso.
(** The time value of a string that parses as ISO 8601 (date only, or
    date and time with an offset). *)
Context (parseIso : string -> option Z).

(** Modelled from the spec: the rule of section 4.1 for [title]
    (required, a non-empty string). *)
Definition titleIssues (v : option Yaml) : list Issue :=
  match v with
  | Some (YString s) => if String.eqb s "" then [("title", "must not be empty")] else []
  | Some _ => [("title", "must be a string")]
  | None => [("title", "is required")]
  end.

(** Modelled from the spec: the rule of section 4.1 for [access] (if
    present, one of the four literals). *)
Definition accessIssues (v : option Yaml) : list Issue :=
  match v with
  | None => []
  | Some (YString s) =>
      if accessOfLiteral s is Some _ then [] else [("access", "must be public, unlisted, private or protected")]
  | Some _ => [("access", "must be public, unlisted, private or protected")]
  end.

(** Modelled from the spec: the rule of section 4.1 for [date] (if
    present, it parses as ISO 8601; a wrong format and a wrong type are
    different issues). *)
Definition dateIssues (v : option Yaml) : list Issue :=
  match v with
  | None => []
  | Some (YString s) => if parseIso s is Some _ then [] else [("date", "must be an ISO 8601 date")]
  | Some _ => [("date", "must be a string")]
  end.

(** Modelled from the spec: the rule of section 4.1 for [topics] (if
    present, a sequence of strings; anything that is no sequence is
    told that it must be an array). *)
Definition topicsIssues (v : option Yaml) : list Issue :=
  match v with
  | None => []
  | Some (YSeq items) => if stringsOf items is Some _ then [] else [("topics", "must contain strings only")]
  | Some _ => [("topics", "must be an array")]
  end.

(** Modelled from the spec: the rule of section 4.1 for [password] (if
    present, a non-empty string). *)
Definition passwordIssues (v : option Yaml) : list Issue :=
  match v with
  | None => []
  | Some (YString s) => if String.eqb s "" then [("password", "must not be empty")] else []
  | Some _ => [("password", "must be a string")]
  end.

(** Modelled from the spec: [access] as validated, the literal, [private]
    when absent (section 4.1). *)
Definition accessOf (v : option Yaml) : Access :=
  match v with
  | Some (YString s) => default private (accessOfLiteral s)
  | _ => private
  end.

(** Modelled from the spec: the cross-field rule of section 4.1 (a
    protected post needs a password), checked after the rules of the
    fields. *)
Definition crossIssues (raw : gmap string Yaml) : list Issue :=
  if bool_decide (accessOf (raw !! "access") = protected)
     && bool_decide (raw !! "password" = None)
  then [("password", "is required when access is protected")] else [].

Definition stringOf (v : option Yaml) : option string :=
  match v with Some (YString s) => Some s | _ => None end.

(** Modelled from the spec: the Validator of section 4.1.  Every rule is
    applied and every issue collected; without issues the result is the
    validated frontmatter. *)
Definition validate (raw : gmap string Yaml) : list Issue + Frontmatter :=
  match titleIssues (raw !! "title") ++ accessIssues (raw !! "access")
        ++ dateIssues (raw !! "date") ++ topicsIssues (raw !! "topics")
        ++ passwordIssues (raw !! "password") ++ crossIssues raw with
  | [] =>
      inr {| title := default "" (stringOf (raw !! "title"));
             fm_access := accessOf (raw !! "access");
             password := stringOf (raw !! "password");
             description := stringOf (raw !! "description");
             thumbnail := stringOf (raw !! "thumbnail");
             topics := match raw !! "topics" with
                       | Some (YSeq items) => stringsOf items
                       | _ => None
                       end;
             date := (fun s => {| getTime := parseIso s |}) <$> stringOf (raw !! "date") |}
  | issues => inl issues
  end.

(** The conditions on the fields, one by one. *)
Definition titleValid (raw : gmap string Yaml) : Prop :=
  ∃ s, raw !! "title" = Some (YString s) ∧ s ≠ "".
Definition accessValid (raw : gmap string Yaml) : Prop :=
  ∀ v, raw !! "access" = Some v → ∃ s a, v = YString s ∧ accessOfLiteral s = Some a.
Definition dateValid (raw : gmap string Yaml) : Prop :=
  ∀ v, raw !! "date" = Some v → ∃ s t, v = YString s ∧ parseIso s = Some t.
Definition topicsValid (raw : gmap string Yaml) : Prop :=
  ∀ v, raw !! "topics" = Some v → ∃ items l, v = YSeq items ∧ stringsOf items = Some l.
Definition passwordValid (raw : gmap string Yaml) : Prop :=
  ∀ v, raw !! "password" = Some v → ∃ s, v = YString s ∧ s ≠ "".
Definition passwordPresentIfProtected (raw : gmap string Yaml) : Prop :=
  raw !! "access" = Some (YString "protected") → is_Some (raw !! "password").

(** Is [field] named by one of the issues? *)
Definition reported (field : string) (issues : list Issue) : Prop :=
  field ∈ issues.*1.

End WithIso.

End FrontmatterSchema.

(** ** Words of the statements *)

(** The states an action of the gate returns. *)
Definition granted (content : string) : Actions.ProtectedPostActionState :=
{| Actions.success := Some true; Actions.error := None; Actions.content := Some content |}.
Definition refused (message : string) : Actions.ProtectedPostActionState :=
{| Actions.success := None; Actions.error := Some message; Actions.content := None |}.
Definition unauthenticated : Actions.ProtectedPostActionState :=
{| Actions.success := Some false; Actions.error := None; Actions.content := None |}.

(** The credential of a post whose password is [pw]: the SHA-256 digest of
    [pw], HTTP-only, SameSite=Lax, for the whole site, for twelve hours. *)
Definition credential (h : Host) (pw : string) : Cookie :=
{| value := Crypto.sha256 pw;
   httpOnly := true;
   sameSite := Some lax;
   path := Some "/";
   secure := bool_decide (NODE_ENV (env h) = Some "production");
   maxAge := Some 43200 |}.

(** The process [p] after the cookie [name] was set to [c]. *)
Definition withCookie (p : Process) (name : string) (c : Cookie) : Process :=
{| console := console p; cookieStore := <[name := c]> (cookieStore p) |}.

(** The first entry of the form under [name] holds [v]. *)
Definition submits (formData : Actions.FormData) (name : string)
  (v : Actions.FormDataEntryValue) : Prop :=
∃ before after,
  formData = before ++ (name, v) :: after ∧ Forall (fun kv => kv.1 ≠ name) before.

(** The form has no entry under [name]. *)
Definition submitsNothing (formData : Actions.FormData) (name : string) : Prop :=
Forall (fun kv => kv.1 ≠ name) formData.

(** A name of a directory entry proper: not empty, not "." and not "..". *)
Definition proper (segment : string) : Prop :=
segment ≠ "" ∧ segment ≠ "." ∧ segment ≠ "..".

(** [p] lies within the directory [root]: it is [root], a separator, and
    a path that only descends (none of its segments is empty, "." or
    ".."). *)
Definition liesWithin (root p : string) : Prop :=
∃ below, p = root +:+ "/" +:+ below ∧ Forall proper (Js.split "/" below).

(** What [normalizeSlug] refuses, said of the trimmed slug. *)
Definition refusedSlug (cleaned : string) : Prop :=
cleaned = "" ∨ cleaned = "." ∨ cleaned = ".."
∨ Js.includes cleaned "/" = true ∨ Js.includes cleaned Js.backslash = true.

(** A comparator that orders consistently, as ECMAScript asks of the
    argument of [sort]: what is not before is after or equal, and the order
    is transitive. *)
Definition consistentComparator {A} (comparefn : A → A → option Z) : Prop :=
(∀ a b, 0 ≤ Js.SortCompare comparefn a b → Js.SortCompare comparefn b a ≤ 0)
∧ (∀ a b c, Js.SortCompare comparefn a b ≤ 0 → Js.SortCompare comparefn b c ≤ 0 →
            Js.SortCompare comparefn a c ≤ 0).

(** [a] is before [b], or equal to it, for the comparator. *)
Definition notAfter {A} (comparefn : A → A → option Z) (a b : A) : Prop :=
Js.SortCompare comparefn a b ≤ 0.

(** The pair [a], [b], in this order, is not against the comparator of
    [listPublicPosts]: it puts [a] before [b] or level with it, or [b]
    after [a] or level with it. *)
Definition agrees (a b : PostEntry) : Prop :=
Js.SortCompare byDateDescending a b ≤ 0 ∨ 0 ≤ Js.SortCompare byDateDescending b a.






(** The collation of the host, as [listPostSlugs] hands it to [sort]. *)
Definition collation (h : Host) (a b : string) : option Z := Some (localeCompare h a b).

(** [fs.access] rejects with an [Error], as the file system of Node does. *)
Definition rejectsWithErrors (files : FileSystem) : Prop :=
∀ p e, access files p = Js.Throw e → Js.instanceofError e = true.

(** Does the directory [slug] of [postsRoot] hold the entry file? *)
Definition hasEntryFile (h : Host) (postsRoot slug : string) : bool :=
match access (fs h) (Path.join [postsRoot; slug; "index.md"]) with
| Js.Return _ => true
| Js.Throw _ => false
end.


(** The warning for a directory without entry file. *)
Definition skippedDirectory (postsRoot slug : string) : LogEntry :=
{| level := console_warn;
   text := "Skipping directory without index.md: "
           +:+ Path.join [postsRoot; slug; "index.md"];
   fields := [] |}.

(** The process [p] after [entries] were written to the console. *)
Definition logged (p : Process) (entries : list LogEntry) : Process :=
{| console := console p ++ entries; cookieStore := cookieStore p |}.

(** The entries of [posts] whose access is "public", in their order. *)
Definition publicPosts (posts : list PostEntry) : list PostEntry :=
filter (fun post => fm_access (frontmatter post) = public) posts.

(** The time value of the date of a post, when it has a valid date. *)
Definition timeOf (post : PostEntry) : option Z :=
d ← date (frontmatter post); getTime d.

Definition undated (post : PostEntry) : Prop := date (frontmatter post) = None.

(** [a] is as new as [b] or newer. *)
Definition newerOrSame (a b : PostEntry) : Prop :=
∃ ta tb, timeOf a = Some ta ∧ timeOf b = Some tb ∧ tb ≤ ta.

(** Every date of [posts] is a valid date. *)
Definition datesValid (posts : list PostEntry) : Prop :=
∀ post d, post ∈ posts → date (frontmatter post) = Some d → is_Some (getTime d).

(** The dated posts first, from the newest to the oldest, then the undated
    ones. *)
Definition newestFirst (listing : list PostEntry) : Prop :=
∃ dated others,
  listing = dated ++ others
  ∧ Forall (fun post => is_Some (timeOf post)) dated
  ∧ StronglySorted newerOrSame dated
  ∧ Forall undated others.

(** How a task that leaves the process alone completes. *)
Definition settled {A} (task : M A) : Js.Completion A :=
(task {| console := []; cookieStore := ∅ |}).1.

(** The value of a fulfilled task. *)
Definition fulfilled {A} (c : Js.Completion A) : option A :=
match c with
| Js.Return v => Some v
| Js.Throw _ => None
end.

(** The warning for the post [slug] whose task was rejected with
    [reason]. *)
Definition skippedPost (slug : string) (reason : Js.Exception) : LogEntry :=
match reason with
| Js.FrontmatterValidationError _ issues =>
    {| level := console_warn;
       text := "Skipping post due to invalid frontmatter";
       fields := [("path", FText (slug +:+ "/" +:+ "index.md")); ("issues", FIssues issues)] |}
| _ =>
    {| level := console_warn;
       text := "Skipping post due to unexpected error";
       fields := [("path", FText (slug +:+ "/" +:+ "index.md"));
                  ("error", FText (Js.messageOf reason))] |}
end.

(** The warning of a task, when it was rejected. *)
Definition rejected {A} (slug : string) (c : Js.Completion A) : option LogEntry :=
match c with
| Js.Return _ => None
| Js.Throw reason => Some (skippedPost slug reason)
end.

(** The post of the snapshot that [getPostBySlug] finds for [slug]. *)
Definition postOf (generatedPosts : list SerializedPostEntry) (slug : string)
  : option SerializedPostEntry :=
List.find (fun post => String.eqb (Generated.slug post) slug) generatedPosts.

(** The error [getPostBySlug] of the snapshot writes to the console for a
    slug it has no post for. *)
Definition fetchFailure (h : Host) (slug : string) : LogEntry :=
{| level := console_error;
   text := "Failed to fetch post: " +:+ slug;
   fields := [("path", FText (default "my-blog-contents" (CONTENT_DIR (env h)) +:+ "/"
                              +:+ default "external-posts" (POSTS_ROOT_DIR (env h)) +:+ "/"
                              +:+ slug +:+ "/" +:+ "index.md"));
              ("error", FText ("Post not found: " +:+ slug))] |}.

(** The error of [assertPostsRootExists] for a posts root that cannot be
    accessed; [contentDir] is the default content directory of the
    script. *)
Definition rootNotFound (postsRoot contentDir : string) : Js.Exception :=
Js.Error ("Posts root not found: " +:+ postsRoot
          +:+ ". Did you fetch the content repo into "
          +:+ Js.dquote +:+ contentDir +:+ "/" +:+ Js.dquote +:+ "?").

(** What [getPostBySlug] of the live site writes to the console before it
    answers [notFound()], for the [reason] it caught. *)
Definition notFoundLog (h : Host) (slug : string) (reason : Js.Exception) : list LogEntry :=
match reason with
| Js.FrontmatterValidationError _ issues =>
    [{| level := console_warn;
        text := "Frontmatter invalid, returning 404";
        fields := [("path", FText (default "external-posts" (CONTENT_DIR (env h)) +:+ "/"
                                   +:+ slug +:+ "/" +:+ "index.md"));
                   ("issues", FIssues issues)] |}]
| Js.Thrown _ => []
| _ =>
    [{| level := console_error;
        text := "Failed to fetch post: " +:+ slug;
        fields := [("path", FText (default "external-posts" (CONTENT_DIR (env h)) +:+ "/"
                                   +:+ slug +:+ "/" +:+ "index.md"));
                   ("error", FText (Js.messageOf reason))] |}]
end.

(** The host [h] when the directory listing of its file system is
    [entries]: [readdir] gives no order to rely on. *)
Definition relisted (h : Host) (entries : list Dirent) : Host :=
{| fs := {| readdir := fun _ => Js.Return entries;
            access := access (fs h);
            readFile := readFile (fs h) |};
   env := env h; cwd := cwd h; localeCompare := localeCompare h;
   Date_parse := Date_parse h; parsePost := parsePost h |}.

(** No token of [toks] is at the head of [s]. *)
Definition noLeading (toks : list string) (s : string) : Prop :=
∀ t, t ∈ toks → String.prefix t s = false.

(** A name that can stand for one directory in a path: not empty, not "."
    or "..", and without a slash. *)
Definition plainName (segment : string) : Prop :=
proper segment ∧ Js.includes segment "/" = false.

(** ** A host to run the code on

    A small content repository, a parser for its posts, and the snapshot
    generated from it. *)

Module Sample.

Definition newline : string := String (ascii_of_nat 10) "".

(** The text before and after the first colon of a line. *)
Fixpoint keyValue (line : string) : option (string * string) :=
match line with
| EmptyString => None
| String c r =>
    if Ascii.eqb c ":" then Some ("", r)
    else '(k, v) ← keyValue r; Some (String c k, v)
end.

(** [[a, b]] is a sequence of strings, anything else a string. *)
Definition scalar (v : string) : FrontmatterSchema.Yaml :=
let v := Js.trim v in
if Js.startsWith v "[" && String.prefix "]" (String.rev v) then
  let inner := String.rev (Js.drop 1 (String.rev (Js.drop 1 v))) in
  FrontmatterSchema.YSeq
    ((fun s => FrontmatterSchema.YString (Js.trim s)) <$> Js.split "," inner)
else FrontmatterSchema.YString v.

(** The lines of the metadata block up to its closing marker, decoded, and
    the lines after the marker. *)
Fixpoint metadata (lines : list string)
  : option (gmap string FrontmatterSchema.Yaml * list string) :=
match lines with
| [] => None
| line :: rest =>
    if String.eqb line "---" then Some (∅, rest)
    else
      '(k, v) ← keyValue line;
      '(m, body) ← metadata rest;
      Some (<[Js.trim k := scalar v]> m, body)
end.

(** Modelled from the spec: [parsePost] of section 4.2, for a metadata
    block of [key: value] lines between two [---] lines.  The block is
    split from the body, decoded and handed to the Validator; the body is
    returned as it stands. *)
Definition parsePostLines (raw : string) : Js.Completion (Frontmatter * string) :=
match Js.split (ascii_of_nat 10) raw with
| first :: rest =>
    if String.eqb first "---" then
      match metadata rest with
      | Some (m, body) =>
          match FrontmatterSchema.validate IsoDate.parse m with
          | inr f => Js.Return (f, Js.join newline body)
          | inl issues => Js.Throw (Js.FrontmatterValidationError "Invalid frontmatter" issues)
          end
      | None =>
          Js.Throw (Js.FrontmatterValidationError "Invalid frontmatter"
                      [("frontmatter", "is not closed")])
      end
    else
      Js.Throw (Js.FrontmatterValidationError "Invalid frontmatter"
                  [("frontmatter", "is missing")])
| [] => Js.Throw (Js.FrontmatterValidationError "Invalid frontmatter"
                    [("frontmatter", "is missing")])
end.

(** [a.localeCompare(b)] where the collation is the order of the bytes. *)
Definition byteCompare (a b : string) : Z :=
match String.compare a b with
| Lt => -1
| Eq => 0
| Gt => 1
end.

Definition lookupPath {A} (table : list (string * A)) (p : string) : option A :=
snd <$> List.find (fun kv => String.eqb kv.1 p) table.

Definition enoent {A} (call p : string) : Js.Completion A :=
Js.Throw (Js.Error ("ENOENT: no such file or directory, " +:+ call +:+ " '" +:+ p +:+ "'")).

(** A file system given by its directories and its files. *)
Definition fileSystem (dirs : list (string * list Dirent)) (files : list (string * string))
  : FileSystem :=
{| readdir p := match lookupPath dirs p with
                | Some entries => Js.Return entries
                | None => enoent "scandir" p
                end;
   access p := if lookupPath dirs p is Some _ then Js.Return tt
               else if lookupPath files p is Some _ then Js.Return tt
               else enoent "access" p;
   readFile p := match lookupPath files p with
                 | Some raw => Js.Return raw
                 | None => enoent "open" p
                 end |}.

Definition post (meta : list string) (body : string) : string :=
Js.join newline (["---"] ++ meta ++ ["---"; body]).

Definition dir (n : string) : Dirent := {| name := n; isDirectory := true |}.

(** The posts of the content repository under [root]: four listed posts,
    one of them undated and one private, a protected post, a post without
    a title, a directory without entry file, a hidden directory and a
    file. *)
Definition entriesOfRoot : list Dirent :=
[dir "b"; dir "a"; dir ".git"; dir "c-no-index"; {| name := "README.md"; isDirectory := false |};
 dir "draft"; dir "undated"; dir "secret"; dir "broken"].

Definition repository (root : string) : FileSystem :=
fileSystem
  [(root, entriesOfRoot);
   (root +:+ "/b", []); (root +:+ "/a", []); (root +:+ "/.git", []);
   (root +:+ "/c-no-index", []); (root +:+ "/draft", []); (root +:+ "/undated", []);
   (root +:+ "/secret", []); (root +:+ "/broken", [])]
  [(root +:+ "/a/index.md",
     post ["title: First"; "access: public"; "date: 2024-01-01"] "# First");
   (root +:+ "/b/index.md",
     post ["title: Second"; "access: public"; "date: 2024-06-01"; "topics: [blog, news]"]
       "# Second");
   (root +:+ "/draft/index.md",
     post ["title: Draft"; "access: private"; "date: 2024-12-01"] "# Draft");
   (root +:+ "/undated/index.md", post ["title: Undated"; "access: public"] "# Undated");
   (root +:+ "/secret/index.md",
     post ["title: Secret"; "access: protected"; "password: hunter2"] "# Hidden");
   (root +:+ "/broken/index.md", post ["access: public"] "# Broken");
   (root +:+ "/README.md", "content repository")].

Definition noEnv : Env :=
{| CONTENT_DIR := None; POSTS_ROOT_DIR := None; NODE_ENV := None |}.

Definition hostOn (files : FileSystem) : Host :=
{| fs := files; env := noEnv; cwd := "/app"; localeCompare := byteCompare;
   Date_parse := IsoDate.parse; parsePost := parsePostLines |}.

(** The host of the live site and the host of the generation script. *)
Definition liveHost : Host := hostOn (repository "/app/external-posts").
Definition buildHost : Host := hostOn (repository "/app/my-blog-contents/external-posts").

Definition start : Process := {| console := []; cookieStore := ∅ |}.

Definition meta (t : string) (a : Access) (pw d : option string) : SerializedFrontmatter :=
{| title := t; fm_access := a; password := pw; description := None;
   thumbnail := None; topics := None; date := d |}.

(** The snapshot that [buildPosts] writes on [buildHost]. *)
Definition generatedPosts : list SerializedPostEntry :=
Eval vm_compute in
  match (GenerateContent.buildPosts buildHost start).1 with
  | Js.Return entries => entries
  | Js.Throw _ => []
  end.

(** Its protected post. *)
Definition secretPost : SerializedPostEntry :=
{| Generated.slug := "secret";
   Generated.path := "my-blog-contents/external-posts/secret/index.md";
   Generated.sha := "14f57d9cfad71843e832bd6752cd6417fb64633b";
   Generated.frontmatter := meta "Secret" protected (Some "hunter2") None;
   Generated.content := "# Hidden" |}.

(** A content repository with a directory whose name is three spaces,
    beside a post. *)
Definition blankRepository : FileSystem :=
fileSystem
  [("/app/external-posts", [dir "a"; dir "   "]);
   ("/app/external-posts/a", []); ("/app/external-posts/   ", [])]
  [("/app/external-posts/a/index.md",
     post ["title: First"; "access: public"; "date: 2024-01-01"] "# First")].


Definition liveLayout : string := "external-posts/<slug>/index.md".

(** The slugs of [repository], and the console after their discovery. *)
Definition discovered : list string := ["a"; "b"; "broken"; "draft"; "secret"; "undated"].
Definition afterDiscovery (root : string) : Process :=
logged start [skippedDirectory root "c-no-index"].

(** A content repository whose only post has no title. *)
Definition brokenRepository : FileSystem :=
fileSystem
  [("/app/external-posts", [dir "broken"]); ("/app/external-posts/broken", [])]
  [("/app/external-posts/broken/index.md", post ["access: public"] "# Broken")].

(** The metadata of a post that is not protected and whose password is the
    empty string. *)
Definition emptyPassword : gmap string FrontmatterSchema.Yaml :=
<["title" := FrontmatterSchema.YString "Hello"]>
  (<["password" := FrontmatterSchema.YString ""]> ∅).

(** The metadata of a protected post without password, with a date that is
    none and a topic that is no sequence; and what the Validator says. *)
Definition invalid : gmap string FrontmatterSchema.Yaml :=
<["title" := FrontmatterSchema.YString "Hello"]>
  (<["access" := FrontmatterSchema.YString "protected"]>
     (<["date" := FrontmatterSchema.YString "not a date"]>
        (<["topics" := FrontmatterSchema.YString "blog"]> ∅))).

Definition issuesOfInvalid : list FrontmatterSchema.Issue :=
[("date", "must be an ISO 8601 date"); ("topics", "must be an array");
 ("password", "is required when access is protected")].

(** A snapshot whose protected post has the empty string for password. *)
Definition lockedPost : SerializedPostEntry :=
{| Generated.slug := "locked";
   Generated.path := "my-blog-contents/external-posts/locked/index.md";
   Generated.sha := "da39a3ee5e6b4b0d3255bfef95601890afd80709";
   Generated.frontmatter := meta "Locked" protected (Some "") None;
   Generated.content := "# Locked" |}.

(** A second protected post with the password of the first, and the
    snapshot of the two. *)
Definition twinPost : SerializedPostEntry :=
{| Generated.slug := "twin";
   Generated.path := "my-blog-contents/external-posts/twin/index.md";
   Generated.sha := "da39a3ee5e6b4b0d3255bfef95601890afd80709";
   Generated.frontmatter := meta "Twin" protected (Some "hunter2") None;
   Generated.content := "# Twin" |}.

Definition twins : list SerializedPostEntry := [secretPost; twinPost].

(** The frontmatter of a post of 2024-01-01T00:00:00.000Z. *)
Definition dated : Frontmatter :=
{| title := "First"; fm_access := public; password := None; description := None;
   thumbnail := None; topics := None;
   date := Some {| getTime := Some 1704067200000 |} |}.

(** A protected post whose directory has a Japanese name. *)
Definition widePost : SerializedPostEntry :=
{| Generated.slug := "日本語";
   Generated.path := "my-blog-contents/external-posts/日本語/index.md";
   Generated.sha := "da39a3ee5e6b4b0d3255bfef95601890afd80709";
   Generated.frontmatter := meta "Wide" protected (Some "hunter2") None;
   Generated.content := "# Wide" |}.

(** A request with the credential of the post [twin] and no other
    cookie. *)
Definition twinRequest : Process :=
{| console := [];
   cookieStore := {[ "protected-post-twin" := requestCookie (Crypto.sha256 "hunter2") ]} |}.

(** A host without content repository. *)
Definition emptyHost : Host := hostOn (fileSystem [] []).

End Sample.

(** * Properties *)

(** ** The gate of a protected post *)

Section Gate.
Context (h : Host) (generatedPosts : list SerializedPostEntry).

(** A post of the snapshot is returned with its dates restored, and nothing
    is logged. *)
Lemma getPostBySlug_found slug entry p :
  postOf generatedPosts slug = Some entry →
  Posts.getPostBySlug h generatedPosts slug p
  = (Js.Return (Posts.restoreDates h (Generated.frontmatter entry), Generated.content entry), p).
Proof.
  unfold postOf. intros Hfind.
  unfold Posts.getPostBySlug, Posts.getPostBySlugCached, tryCatch, bind.
  rewrite Hfind. reflexivity.
Qed.

(** A slug of no post of the snapshot is answered by [notFound()], after an
    error on the console. *)
Lemma getPostBySlug_missing slug p :
  postOf generatedPosts slug = None →
  (Posts.getPostBySlug h generatedPosts slug p).1 = Js.Throw Js.NotFound.
Proof.
  unfold postOf. intros Hfind.
  unfold Posts.getPostBySlug, Posts.getPostBySlugCached, tryCatch, bind.
  rewrite Hfind. reflexivity.
Qed.

Lemma length_zero_iff (s : string) : (String.length s =? 0)%nat = true ↔ s = "".
Proof.
  destruct s; simpl; split; intros; try reflexivity; discriminate.
Qed.

(** What [formData.get] returns, said of the entries of the form. *)
Lemma formDataGet_submits formData name v :
  Actions.formDataGet formData name = Some v ↔ submits formData name v.
Proof.
  unfold Actions.formDataGet, submits. induction formData as [|[k w] rest IH]; simpl.
  - split; [discriminate|]. intros (before & after & Heq & _).
    destruct before; discriminate Heq.
  - destruct (String.eqb k name) eqn:Hk.
    + apply String.eqb_eq in Hk as ->. simpl. split.
      * intros [= ->]. exists [], rest. split; [reflexivity | constructor].
      * intros (before & after & Heq & Hbefore). destruct before as [|first before].
        -- injection Heq as -> _. reflexivity.
        -- injection Heq as <- _. apply Forall_cons in Hbefore as [Hne _].
           exfalso. apply Hne. reflexivity.
    + apply String.eqb_neq in Hk. rewrite IH. split.
      * intros (before & after & -> & Hbefore). exists ((k, w) :: before), after.
        split; [reflexivity|]. constructor; [exact Hk | exact Hbefore].
      * intros (before & after & Heq & Hbefore). destruct before as [|first before].
        -- injection Heq as -> _ _. contradiction.
        -- injection Heq as <- ->. apply Forall_cons in Hbefore as [_ Hbefore].
           exists before, after. split; [reflexivity | exact Hbefore].
Qed.

Lemma formDataGet_nothing formData name :
  Actions.formDataGet formData name = None ↔ submitsNothing formData name.
Proof.
  unfold Actions.formDataGet, submitsNothing. induction formData as [|[k w] rest IH]; simpl.
  - split; [constructor | reflexivity].
  - destruct (String.eqb k name) eqn:Hk.
    + apply String.eqb_eq in Hk as ->. simpl. split; [discriminate|].
      intros [Hne _]%Forall_cons. exfalso. apply Hne. reflexivity.
    + apply String.eqb_neq in Hk. rewrite IH. split.
      * intros Hrest. constructor; [exact Hk | exact Hrest].
      * intros [_ Hrest]%Forall_cons. exact Hrest.
Qed.

(** [verifyProtectedPostPassword] on a protected post with a password, by
    what the form submits and by whether the name of the cookie can stand
    in a header. *)
Lemma verifyProtectedPostPassword_run slug prev formData entry pw p :
  postOf generatedPosts slug = Some entry →
  fm_access (Generated.frontmatter entry) = protected →
  password (Generated.frontmatter entry) = Some pw →
  pw ≠ "" →
  Actions.verifyProtectedPostPassword h generatedPosts slug prev formData p
  = match Actions.formDataGet formData "password" with
    | Some (Actions.FormString input) =>
        if (String.length input =? 0)%nat
        then (Js.Return (refused "パスワードを入力してください。"), p)
        else if negb (String.eqb (Crypto.sha256 input) (Crypto.sha256 pw))
        then (Js.Return (refused "パスワードが一致しません。"), p)
        else if Js.headerValue ("protected-post-" +:+ slug)
        then (Js.Return (granted (Generated.content entry)),
              withCookie p ("protected-post-" +:+ slug) (credential h pw))
        else (Js.Throw (Js.Error "Invalid header value"), p)
    | _ => (Js.Return (refused "パスワードを入力してください。"), p)
    end.
Proof.
  intros Hfind Haccess Hpw Hne.
  unfold Actions.verifyProtectedPostPassword, Actions.protectedCookieName, bind.
  remember ("protected-post-" +:+ slug) as cookieName.
  rewrite (getPostBySlug_found _ _ _ Hfind). simpl.
  rewrite Haccess, Hpw. simpl. rewrite (proj2 (String.eqb_neq _ _) Hne).
  destruct (Actions.formDataGet formData "password") as [[input|file]|]; try reflexivity.
  destruct (String.length input =? 0)%nat; [reflexivity|].
  unfold Actions.sha256.
  destruct (String.eqb (Crypto.sha256 input) (Crypto.sha256 pw)); [|reflexivity].
  unfold cookieSet. simpl.
  rewrite andb_true_r. destruct (Js.headerValue cookieName); reflexivity.
Qed.

(** X19.  The gate of a protected post with a configured, non-empty
    password, for every submitted form, read by its first entry under
    [password].  Where the name [protected-post-<slug>] can stand in a
    header, [verifyProtectedPostPassword] returns the content and sets the
    cookie of that name (the SHA-256 digest of the configured password,
    HTTP-only, SameSite=Lax, path "/", 43200 seconds) exactly when the
    entry is a non-empty string whose SHA-256 digest is that of the
    configured password; where it cannot, the right password is answered
    by the TypeError of [cookies().set], and nothing is set.  A non-empty
    string with another digest is answered by the mismatch message, and a
    missing value, a file or the empty string by the request for a
    password; in both cases the process, its cookie store included, is
    left as it was. *)
Theorem verifyProtectedPostPassword_spec slug prev formData entry pw p :
  postOf generatedPosts slug = Some entry →
  fm_access (Generated.frontmatter entry) = protected →
  password (Generated.frontmatter entry) = Some pw →
  pw ≠ "" →
  let outcome := Actions.verifyProtectedPostPassword h generatedPosts slug prev formData p in
  let cookieName := "protected-post-" +:+ slug in
  let correct :=
    ∃ input, submits formData "password" (Actions.FormString input) ∧ input ≠ ""
             ∧ Crypto.sha256 input = Crypto.sha256 pw in
  (Js.headerValue cookieName = true →
   (correct ↔ outcome = (Js.Return (granted (Generated.content entry)),
                         withCookie p cookieName (credential h pw))))
  ∧ (Js.headerValue cookieName = false → correct →
     ∃ message, outcome = (Js.Throw (Js.Error message), p))
  ∧ (∀ input, submits formData "password" (Actions.FormString input) → input ≠ "" →
       Crypto.sha256 input ≠ Crypto.sha256 pw →
       outcome = (Js.Return (refused "パスワードが一致しません。"), p))
  ∧ ((submitsNothing formData "password"
      ∨ submits formData "password" (Actions.FormString "")
      ∨ ∃ file, submits formData "password" (Actions.FormFile file)) →
     outcome = (Js.Return (refused "パスワードを入力してください。"), p)).
Proof.
  intros Hfind Haccess Hpw Hne outcome cookieName correct.
  subst outcome. rewrite (verifyProtectedPostPassword_run _ _ _ _ _ _ Hfind Haccess Hpw Hne).
  fold cookieName.
  assert (Hcorrect : ∀ input, submits formData "password" (Actions.FormString input) →
                     input ≠ "" → Crypto.sha256 input = Crypto.sha256 pw →
                     match Actions.formDataGet formData "password" with
                     | Some (Actions.FormString input) =>
                         if (String.length input =? 0)%nat
                         then (Js.Return (refused "パスワードを入力してください。"), p)
                         else if negb (String.eqb (Crypto.sha256 input) (Crypto.sha256 pw))
                         then (Js.Return (refused "パスワードが一致しません。"), p)
                         else if Js.headerValue cookieName
                         then (Js.Return (granted (Generated.content entry)),
                               withCookie p cookieName (credential h pw))
                         else (Js.Throw (Js.Error "Invalid header value"), p)
                     | _ => (Js.Return (refused "パスワードを入力してください。"), p)
                     end
                     = if Js.headerValue cookieName
                       then (Js.Return (granted (Generated.content entry)),
                             withCookie p cookieName (credential h pw))
                       else (Js.Throw (Js.Error "Invalid header value"), p)).
  { intros input Hsubmits%formDataGet_submits Hinput Hhash. rewrite Hsubmits.
    destruct (String.length input =? 0)%nat eqn:Hlen.
    { apply length_zero_iff in Hlen. contradiction. }
    rewrite (proj2 (String.eqb_eq _ _) Hhash). reflexivity. }
  split; [|split; [|split]].
  - intros Hsafe. split.
    + intros (input & Hsubmits & Hinput & Hhash).
      rewrite (Hcorrect input Hsubmits Hinput Hhash), Hsafe. reflexivity.
    + destruct (Actions.formDataGet formData "password") as [[input|file]|] eqn:Hget;
        try discriminate.
      destruct (String.length input =? 0)%nat eqn:Hlen; [discriminate|].
      destruct (String.eqb (Crypto.sha256 input) (Crypto.sha256 pw)) eqn:Hhash;
        [|discriminate].
      intros _. exists input. split; [apply formDataGet_submits, Hget|]. split.
      * intros ->. discriminate.
      * apply String.eqb_eq. exact Hhash.
  - intros Hunsafe (input & Hsubmits & Hinput & Hhash).
    rewrite (Hcorrect input Hsubmits Hinput Hhash), Hunsafe. eexists. reflexivity.
  - intros input Hsubmits%formDataGet_submits Hinput Hhash. rewrite Hsubmits.
    destruct (String.length input =? 0)%nat eqn:Hlen.
    { apply length_zero_iff in Hlen. contradiction. }
    rewrite (proj2 (String.eqb_neq _ _) Hhash). reflexivity.
  - intros [Hnone%formDataGet_nothing | [Hempty%formDataGet_submits
                                         | [file Hfile%formDataGet_submits]]].
    + rewrite Hnone. reflexivity.
    + rewrite Hempty. reflexivity.
    + rewrite Hfile. reflexivity.
Qed.

(** C2, as the code has it.  [loadProtectedPost] on a post of the
    snapshot: a post that is not protected is returned at once; a
    protected post without a password (none, or the empty string) is
    answered by the configuration message; a protected post with a
    password is returned when the cookie named [protected-post-<slug>] of
    the request holds the SHA-256 digest of the password, and is otherwise
    answered by the state whose [success] is false and which has neither
    content nor error.  That state is none of the others, and it is a
    normal return, not [notFound()]. *)
Theorem loadProtectedPost_spec slug entry p :
  postOf generatedPosts slug = Some entry →
  let outcome := Actions.loadProtectedPost h generatedPosts slug p in
  let meta := Generated.frontmatter entry in
  let presented := value <$> cookieStore p !! ("protected-post-" +:+ slug) in
  (fm_access meta ≠ protected →
   outcome = (Js.Return (granted (Generated.content entry)), p))
  ∧ (fm_access meta = protected → password meta = None ∨ password meta = Some "" →
     outcome
     = (Js.Return (refused ("access: " +:+ Js.dquote +:+ "protected" +:+ Js.dquote
                            +:+ " の記事には password を設定してください。")), p))
  ∧ (∀ pw, fm_access meta = protected → password meta = Some pw → pw ≠ "" →
       (presented ≠ Some (Crypto.sha256 pw) → outcome = (Js.Return unauthenticated, p))
       ∧ (presented = Some (Crypto.sha256 pw) →
          outcome = (Js.Return (granted (Generated.content entry)), p)))
  ∧ (∀ message content, unauthenticated ≠ refused message ∧ unauthenticated ≠ granted content)
  ∧ Js.Return unauthenticated ≠ Js.Throw Js.NotFound.
Proof.
  intros Hfind outcome meta presented.
  subst outcome. unfold Actions.loadProtectedPost, bind.
  rewrite (getPostBySlug_found _ _ _ Hfind). simpl. fold meta.
  split; [|split; [|split; [|split]]].
  - intros Haccess. rewrite bool_decide_eq_false_2 by exact Haccess. reflexivity.
  - intros Haccess Hpw. rewrite bool_decide_eq_true_2 by exact Haccess. simpl.
    destruct Hpw as [-> | ->]; reflexivity.
  - intros pw Haccess Hpw Hne.
    rewrite bool_decide_eq_true_2 by exact Haccess. simpl.
    rewrite Hpw. simpl. rewrite (proj2 (String.eqb_neq _ _) Hne).
    unfold Actions.hasProtectedAccess, Actions.protectedCookieName, Actions.sha256,
      cookieGet, bind, ret.
    fold presented.
    split; intros Hcookie.
    + rewrite bool_decide_eq_false_2 by exact Hcookie. reflexivity.
    + rewrite bool_decide_eq_true_2 by exact Hcookie. reflexivity.
  - intros message content. split; discriminate.
  - discriminate.
Qed.

(** C10.  A protected post whose configured password is the empty string:
    [loadProtectedPost] and [verifyProtectedPostPassword] both answer with
    the configuration message and leave the process, its cookie store
    included, as it was, whatever cookies the request carries and whatever
    the form submits. *)
Theorem empty_password_never_unlocks slug prev formData entry p :
  postOf generatedPosts slug = Some entry →
  fm_access (Generated.frontmatter entry) = protected →
  password (Generated.frontmatter entry) = Some "" →
  Actions.loadProtectedPost h generatedPosts slug p
  = (Js.Return (refused Actions.passwordNotConfigured), p)
  ∧ Actions.verifyProtectedPostPassword h generatedPosts slug prev formData p
    = (Js.Return (refused Actions.passwordNotConfigured), p).
Proof.
  intros Hfind Haccess Hpw.
  unfold Actions.loadProtectedPost, Actions.verifyProtectedPostPassword, bind.
  rewrite (getPostBySlug_found _ _ _ Hfind). simpl.
  rewrite Haccess, Hpw. split; reflexivity.
Qed.

(** After the password was verified, the post is read without another
    prompt. *)
Lemma load_after_verify slug entry pw p :
  postOf generatedPosts slug = Some entry →
  fm_access (Generated.frontmatter entry) = protected →
  password (Generated.frontmatter entry) = Some pw →
  pw ≠ "" →
  Actions.loadProtectedPost h generatedPosts slug
    (withCookie p (Actions.protectedCookieName slug) (credential h pw))
  = (Js.Return (granted (Generated.content entry)),
     withCookie p (Actions.protectedCookieName slug) (credential h pw)).
Proof.
  intros Hfind Haccess Hpw Hne.
  unfold Actions.loadProtectedPost, bind.
  rewrite (getPostBySlug_found _ _ _ Hfind). simpl.
  rewrite Haccess, Hpw. simpl. rewrite (proj2 (String.eqb_neq _ _) Hne).
  unfold Actions.hasProtectedAccess, cookieGet, bind, ret. simpl.
  rewrite lookup_insert_eq. simpl.
  rewrite bool_decide_eq_true_2 by reflexivity. reflexivity.
Qed.

End Gate.

(** The gate on the sample snapshot. *)

Lemma verifyProtectedPostPassword_witness :
  Actions.verifyProtectedPostPassword Sample.buildHost Sample.generatedPosts "secret" None
    [("password", Actions.FormString "hunter2")] Sample.start
  = (Js.Return (granted "# Hidden"),
     withCookie Sample.start "protected-post-secret" (credential Sample.buildHost "hunter2")).
Proof.
  apply (proj1 (proj1 (verifyProtectedPostPassword_spec Sample.buildHost
                         Sample.generatedPosts "secret" None
                         [("password", Actions.FormString "hunter2")] Sample.secretPost
                         "hunter2" Sample.start eq_refl eq_refl eq_refl
                         ltac:(discriminate)) eq_refl)).
  exists "hunter2". split; [|split; [discriminate|reflexivity]].
  exists [], []. split; [reflexivity | constructor].
Defined.

(** C1.  The claim fails on the code for a post whose slug cannot stand in
    the name of a cookie.  The protected post [日本語] of the snapshot has
    the password [hunter2]; the form submits [hunter2], so that the digests
    are equal; and [verifyProtectedPostPassword] returns neither the
    content nor an error state: the TypeError of [cookies().set] leaves the
    action, and no cookie is set. *)
Lemma verifyProtectedPostPassword_wide_slug :
  postOf [Sample.widePost] "日本語" = Some Sample.widePost
  ∧ fm_access (Generated.frontmatter Sample.widePost) = protected
  ∧ password (Generated.frontmatter Sample.widePost) = Some "hunter2"
  ∧ submits [("password", Actions.FormString "hunter2")] "password"
      (Actions.FormString "hunter2")
  ∧ ∃ message,
      Actions.verifyProtectedPostPassword Sample.buildHost [Sample.widePost] "日本語" None
        [("password", Actions.FormString "hunter2")] Sample.start
      = (Js.Throw (Js.Error message), Sample.start).
Proof.
  split; [reflexivity|]. split; [reflexivity|]. split; [reflexivity|]. split.
  - exists [], []. split; [reflexivity | constructor].
  - eexists. vm_compute. reflexivity.
Qed.

(** C2 as stated fails: the request carries a cookie whose value is the
    SHA-256 digest of the password of the post [secret], under the name of
    the cookie of another post, and [loadProtectedPost] answers with the
    unauthenticated state. *)
Lemma loadProtectedPost_other_cookie :
  password (Generated.frontmatter Sample.secretPost) = Some "hunter2"
  ∧ value <$> cookieStore Sample.twinRequest !! "protected-post-twin"
    = Some (Crypto.sha256 "hunter2")
  ∧ Actions.loadProtectedPost Sample.buildHost Sample.twins "secret" Sample.twinRequest
    = (Js.Return unauthenticated, Sample.twinRequest).
Proof.
  split; [reflexivity|]. split; [reflexivity|]. vm_compute. reflexivity.
Qed.

Lemma loadProtectedPost_witness :
  Actions.loadProtectedPost Sample.buildHost Sample.generatedPosts "secret" Sample.start
  = (Js.Return unauthenticated, Sample.start).
Proof.
  apply (proj1 (proj1 (proj2 (proj2 (loadProtectedPost_spec Sample.buildHost
                                       Sample.generatedPosts "secret" Sample.secretPost
                                       Sample.start eq_refl)))
                 "hunter2" eq_refl eq_refl ltac:(discriminate))).
  discriminate.
Defined.

Lemma empty_password_never_unlocks_witness :
  Actions.loadProtectedPost Sample.buildHost [Sample.lockedPost] "locked" Sample.start
  = (Js.Return (refused Actions.passwordNotConfigured), Sample.start)
  ∧ Actions.verifyProtectedPostPassword Sample.buildHost [Sample.lockedPost] "locked" None
      [("password", Actions.FormString "")] Sample.start
    = (Js.Return (refused Actions.passwordNotConfigured), Sample.start).
Proof.
  exact (empty_password_never_unlocks Sample.buildHost [Sample.lockedPost] "locked" None
           [("password", Actions.FormString "")] Sample.lockedPost Sample.start
           eq_refl eq_refl eq_refl).
Defined.

(** The credential of the sample post, and the gate after it was set. *)
Example credential_sample :
  value (credential Sample.buildHost "hunter2")
  = "f52fbd32b2b3b86ff88ef6c490628285f482af15ddcb29541f94bcf526a3f6c7".
Proof. vm_compute. reflexivity. Qed.

(** ** Strings and paths *)

Section Strings.

Lemma app_nil_l_string (s : string) : "" +:+ s = s.
Proof. reflexivity. Qed.

Lemma app_cons_string (c : ascii) (a b : string) : String c a +:+ b = String c (a +:+ b).
Proof. reflexivity. Qed.

Lemma app_nil_r_string (s : string) : s +:+ "" = s.
Proof.
  induction s as [|c s IH]; [reflexivity|].
  rewrite app_cons_string, IH. reflexivity.
Qed.

Lemma app_assoc_string (a b c : string) : (a +:+ b) +:+ c = a +:+ (b +:+ c).
Proof.
  induction a as [|x a IH]; [reflexivity|].
  rewrite !app_cons_string, IH. reflexivity.
Qed.

Lemma app_eq_nil_string (a b : string) : a +:+ b = "" → a = "" ∧ b = "".
Proof.
  destruct a; [intros H; split; [reflexivity | exact H] | discriminate].
Qed.

Lemma prefix_nil (s : string) : String.prefix "" s = true.
Proof. destruct s; reflexivity. Qed.

Lemma prefix_app (a b : string) : String.prefix a (a +:+ b) = true.
Proof.
  induction a as [|c a IH]; [apply prefix_nil|].
  rewrite app_cons_string. simpl.
  destruct (ascii_dec c c) as [_|Hne]; [exact IH | contradiction].
Qed.

Lemma prefix_cons (c d : ascii) (a b : string) :
  String.prefix (String c a) (String d b) = Ascii.eqb c d && String.prefix a b.
Proof.
  simpl. destruct (ascii_dec c d) as [->|Hne].
  - rewrite Ascii.eqb_refl. reflexivity.
  - rewrite (proj2 (Ascii.eqb_neq c d) Hne). reflexivity.
Qed.

Lemma includes_cons (c : ascii) (r p : string) :
  Js.includes (String c r) p = String.prefix p (String c r) || Js.includes r p.
Proof. reflexivity. Qed.

(** A string without [c] does not start with it. *)
Lemma includes_char_cons (c d : ascii) (r : string) :
  Js.includes (String d r) (String c "") = Ascii.eqb c d || Js.includes r (String c "").
Proof.
  rewrite includes_cons, prefix_cons, prefix_nil, andb_true_r. reflexivity.
Qed.

Lemma split_nonempty (sep : ascii) (s : string) : Js.split sep s ≠ [].
Proof.
  destruct s as [|c r]; simpl; [discriminate|].
  destruct (Ascii.eqb c sep); [discriminate|].
  destruct (Js.split sep r); discriminate.
Qed.

Lemma split_app (sep : ascii) (a b : string) :
  Js.split sep (a +:+ String sep b) = Js.split sep a ++ Js.split sep b.
Proof.
  induction a as [|c a IH].
  - rewrite app_nil_l_string. simpl. rewrite Ascii.eqb_refl. reflexivity.
  - rewrite app_cons_string. simpl. rewrite IH.
    destruct (Ascii.eqb c sep); [reflexivity|].
    pose proof (split_nonempty sep a) as Hne.
    destruct (Js.split sep a); [contradiction | reflexivity].
Qed.

Lemma split_without (sep : ascii) (s : string) :
  Js.includes s (String sep "") = false → Js.split sep s = [s].
Proof.
  induction s as [|c r IH]; [reflexivity|].
  rewrite includes_char_cons. intros [Hc Hr]%orb_false_elim.
  simpl. rewrite Ascii.eqb_sym, Hc, (IH Hr). reflexivity.
Qed.

Lemma join_snoc (sep : string) (l : list string) (a : string) :
  Js.join sep (l ++ [a])
  = match l with [] => a | _ => Js.join sep l +:+ sep +:+ a end.
Proof.
  unfold Js.join. induction l as [|x l IH]; [reflexivity|].
  destruct l as [|y l]; [reflexivity|].
  change (String.concat sep ((x :: y :: l) ++ [a]))
    with (x +:+ sep +:+ String.concat sep ((y :: l) ++ [a])).
  rewrite IH.
  change (String.concat sep (x :: y :: l)) with (x +:+ sep +:+ String.concat sep (y :: l)).
  rewrite !app_assoc_string. reflexivity.
Qed.

Lemma join_nonempty (sep : string) (l : list string) :
  l ≠ [] → Forall (fun s => s ≠ "") l → Js.join sep l ≠ "".
Proof.
  unfold Js.join. intros Hl Hall. destruct l as [|x l]; [contradiction|].
  apply Forall_cons in Hall as [Hx _].
  destruct l as [|y l]; [exact Hx|].
  change (String.concat sep (x :: y :: l)) with (x +:+ sep +:+ String.concat sep (y :: l)).
  intros [Hnil _]%app_eq_nil_string. contradiction.
Qed.

End Strings.

Section Paths.

Lemma step_proper allow kept seg : proper seg → Path.step allow kept seg = seg :: kept.
Proof.
  intros (H0 & H1 & H2). unfold Path.step.
  destruct (decide (seg = "" ∨ seg = ".")) as [[?|?]|_]; [contradiction..|].
  destruct (decide (seg = "..")); [contradiction | reflexivity].
Qed.

Lemma step_empty allow kept : Path.step allow kept "" = kept.
Proof.
  unfold Path.step. destruct (decide ("" = "" ∨ "" = ".")) as [_|Hn]; [reflexivity|].
  exfalso. apply Hn. left. reflexivity.
Qed.

(** [normalizeString] keeps no empty segment. *)
Lemma step_keeps_nonempty allow kept seg :
  Forall (fun s => s ≠ "") kept → Forall (fun s => s ≠ "") (Path.step allow kept seg).
Proof.
  intros Hkept. unfold Path.step.
  destruct (decide (seg = "" ∨ seg = ".")) as [_|Hn]; [exact Hkept|].
  assert (seg ≠ "") as Hseg by (intros Heq; apply Hn; left; exact Heq).
  destruct (decide (seg = "..")).
  - destruct kept as [|last before]; [destruct allow; repeat constructor; exact Hseg|].
    destruct (decide (last = "..")).
    + destruct allow; [constructor; assumption | exact Hkept].
    + apply Forall_cons in Hkept as [_ Hbefore]. exact Hbefore.
  - constructor; assumption.
Qed.

Lemma segments_nonempty allow path : Forall (fun s => s ≠ "") (Path.segments allow path).
Proof.
  unfold Path.segments.
  assert (∀ l kept, Forall (fun s => s ≠ "") kept →
                    Forall (fun s => s ≠ "") (fold_left (Path.step allow) l kept)) as Hfold.
  { induction l as [|seg l IH]; intros kept Hkept; [exact Hkept|].
    simpl. apply IH, step_keeps_nonempty, Hkept. }
  apply Hfold. constructor.
Qed.

(** The segments of a path under a directory prefix that is empty or ends
    with a separator. *)
Lemma segments_below allow dirs name :
  dirs = "" ∨ (∃ d, dirs = d +:+ "/") →
  Js.includes name "/" = false → proper name →
  Path.segments allow (dirs +:+ (name +:+ "/" +:+ ("index.md" +:+ "/" +:+ "")))
  = "index.md" :: name :: Path.segments allow dirs.
Proof.
  intros Hdirs Hname Hproper. unfold Path.segments.
  assert (Js.split "/" (name +:+ "/" +:+ ("index.md" +:+ "/" +:+ ""))
          = [name; "index.md"; ""]) as Htail.
  { change (name +:+ "/" +:+ ("index.md" +:+ "/" +:+ ""))
      with (name +:+ String "/" ("index.md" +:+ String "/" "")).
    rewrite split_app, split_app, (split_without "/" name Hname). reflexivity. }
  assert (∀ kept, fold_left (Path.step allow) [name; "index.md"; ""] kept
                  = "index.md" :: name :: kept) as Hfold.
  { intros kept. simpl. rewrite (step_proper _ _ name Hproper).
    rewrite (step_proper _ _ "index.md") by (repeat split; discriminate).
    apply step_empty. }
  destruct Hdirs as [-> | [d ->]].
  - rewrite app_nil_l_string, Htail. apply Hfold.
  - rewrite app_assoc_string.
    change (d +:+ "/" +:+ (name +:+ "/" +:+ ("index.md" +:+ "/" +:+ "")))
      with (d +:+ String "/" (name +:+ "/" +:+ ("index.md" +:+ "/" +:+ ""))).
    change (d +:+ "/") with (d +:+ String "/" "").
    rewrite !split_app, Htail, !fold_left_app, Hfold. simpl.
    rewrite step_empty. reflexivity.
Qed.

Lemma resolveLoop_acc paths acc :
  Path.resolveLoop paths acc
  = ((Path.resolveLoop paths "").1 +:+ acc, (Path.resolveLoop paths "").2).
Proof.
  revert acc. induction paths as [|path earlier IH]; intros acc; [reflexivity|].
  simpl. destruct (decide (path = "")); [apply IH|].
  destruct (Js.startsWith path "/").
  - simpl. rewrite !app_assoc_string. reflexivity.
  - rewrite IH. rewrite (IH (path +:+ "/" +:+ "")). simpl.
    rewrite !app_assoc_string. reflexivity.
Qed.

Lemma resolveLoop_shape paths :
  (Path.resolveLoop paths "").1 = "" ∨ ∃ d, (Path.resolveLoop paths "").1 = d +:+ "/".
Proof.
  induction paths as [|path earlier IH]; [left; reflexivity|].
  simpl. destruct (decide (path = "")); [exact IH|].
  right. destruct (Js.startsWith path "/").
  - exists path. reflexivity.
  - rewrite resolveLoop_acc. simpl.
    exists ((Path.resolveLoop earlier "").1 +:+ path).
    rewrite !app_assoc_string. reflexivity.
Qed.

End Paths.

(** ** Slugs and the path of a post *)

Section Slugs.

Lemma refusedSlug_test cleaned :
  (String.length cleaned =? 0)%nat || String.eqb cleaned "." || String.eqb cleaned ".."
  || Js.includes cleaned "/" || Js.includes cleaned Js.backslash = true
  ↔ refusedSlug cleaned.
Proof.
  unfold refusedSlug.
  rewrite !orb_true_iff, length_zero_iff, !String.eqb_eq. tauto.
Qed.

(** [normalizeSlug] throws on exactly the slugs whose trimmed form is
    refused, and returns the trimmed form of the others. *)
Lemma normalizeSlug_refuses slug :
  refusedSlug (Js.trim slug) →
  Discovery.normalizeSlug slug = Js.Throw (Js.Error ("Invalid slug: " +:+ slug)).
Proof.
  intros H%refusedSlug_test. unfold Discovery.normalizeSlug. rewrite H. reflexivity.
Qed.

Lemma normalizeSlug_accepts slug :
  ¬ refusedSlug (Js.trim slug) → Discovery.normalizeSlug slug = Js.Return (Js.trim slug).
Proof.
  intros H. unfold Discovery.normalizeSlug.
  destruct (_ || _) eqn:Htest; [|reflexivity].
  apply refusedSlug_test in Htest. contradiction.
Qed.

Lemma normalizeSlug_returns slug cleaned :
  Discovery.normalizeSlug slug = Js.Return cleaned →
  cleaned = Js.trim slug ∧ ¬ refusedSlug cleaned.
Proof.
  unfold Discovery.normalizeSlug. destruct (_ || _) eqn:Htest; [discriminate|].
  intros [= <-]. split; [reflexivity|].
  intros H%refusedSlug_test. congruence.
Qed.

Lemma accepted_proper cleaned :
  ¬ refusedSlug cleaned →
  proper cleaned ∧ Js.includes cleaned "/" = false.
Proof.
  unfold refusedSlug, proper. intros H.
  destruct (Js.includes cleaned "/") eqn:Hslash; [exfalso; tauto|].
  repeat split; try reflexivity; intros ->; apply H; tauto.
Qed.

Lemma startsWith_slash_without name :
  Js.includes name "/" = false → Js.startsWith name "/" = false.
Proof.
  destruct name as [|c r]; [reflexivity|].
  rewrite includes_cons. intros [H _]%orb_false_elim. exact H.
Qed.

Lemma resolveLoop_cons path earlier acc :
  Path.resolveLoop (path :: earlier) acc
  = if decide (path = "") then Path.resolveLoop earlier acc
    else if Js.startsWith path "/" then (path +:+ "/" +:+ acc, true)
         else Path.resolveLoop earlier (path +:+ "/" +:+ acc).
Proof. reflexivity. Qed.

Lemma resolveLoop_child cwd root name :
  name ≠ "" → Js.includes name "/" = false →
  Path.resolveLoop (rev [root; name; "index.md"] ++ [cwd]) ""
  = ((Path.resolveLoop [root; cwd] "").1 +:+ (name +:+ "/" +:+ ("index.md" +:+ "/" +:+ "")),
     (Path.resolveLoop [root; cwd] "").2).
Proof.
  intros Hne Hslash.
  change (rev [root; name; "index.md"] ++ [cwd]) with ["index.md"; name; root; cwd].
  rewrite resolveLoop_cons.
  destruct (decide ("index.md" = "")) as [Habs|_]; [discriminate|].
  change (Js.startsWith "index.md" "/") with false. cbv iota.
  rewrite resolveLoop_cons.
  destruct (decide (name = "")) as [?|_]; [contradiction|].
  rewrite (startsWith_slash_without name Hslash).
  apply resolveLoop_acc.
Qed.

Lemma join_snoc_ne (sep : string) (l : list string) (a : string) :
  l ≠ [] → Js.join sep (l ++ [a]) = Js.join sep l +:+ sep +:+ a.
Proof.
  intros Hl. rewrite join_snoc. destruct l; [contradiction | reflexivity].
Qed.

(** Under the root directory itself ("/", or "." for a relative working
    directory) the test of [resolvePostFilePath] fails: the candidate does
    not start with the root followed by a separator. *)
Lemma outside_absolute_root name :
  proper name → Js.includes name "/" = false →
  negb (Js.startsWith ("/" +:+ (name +:+ "/" +:+ "index.md")) (("/" +:+ "") +:+ "/"))
  && negb (String.eqb ("/" +:+ (name +:+ "/" +:+ "index.md")) ("/" +:+ "")) = true.
Proof.
  intros (Hne & _ & _) Hslash. destruct name as [|c r]; [contradiction|].
  rewrite includes_char_cons in Hslash. apply orb_false_elim in Hslash as [Hc _].
  unfold Js.startsWith.
  change (("/" +:+ "") +:+ "/") with (String "/" (String "/" "")).
  change ("/" +:+ (String c r +:+ "/" +:+ "index.md"))
    with (String "/" (String c (r +:+ "/" +:+ "index.md"))).
  rewrite !prefix_cons, Hc. reflexivity.
Qed.

Lemma outside_relative_root name :
  proper name → Js.includes name "/" = false →
  negb (Js.startsWith (name +:+ "/" +:+ "index.md") ("." +:+ "/"))
  && negb (String.eqb (name +:+ "/" +:+ "index.md") ".") = true.
Proof.
  intros (Hne & Hdot & _) Hslash. destruct name as [|c r]; [contradiction|].
  rewrite includes_char_cons in Hslash. apply orb_false_elim in Hslash as [_ Hr].
  unfold Js.startsWith.
  change ("." +:+ "/") with (String "." (String "/" "")).
  change (String c r +:+ "/" +:+ "index.md") with (String c (r +:+ "/" +:+ "index.md")).
  destruct r as [|d r].
  - destruct (Ascii.eqb_spec c ".") as [->|Hc]; [contradiction|].
    rewrite prefix_cons, Ascii.eqb_sym, (proj2 (Ascii.eqb_neq c ".") Hc).
    cbn [String.eqb]. rewrite (proj2 (Ascii.eqb_neq c ".") Hc). reflexivity.
  - rewrite includes_char_cons in Hr. apply orb_false_elim in Hr as [Hd _].
    change (String d r +:+ "/" +:+ "index.md") with (String d (r +:+ "/" +:+ "index.md")).
    rewrite !prefix_cons, Hd. simpl. rewrite andb_false_r.
    destruct (c =? ".")%char; reflexivity.
Qed.

(** [path.resolve(root, name, "index.md")], when it passes the test of
    [resolvePostFilePath], is the entry file of [name] right under
    [path.resolve(root)]. *)
Lemma resolve_child cwd root name :
  proper name → Js.includes name "/" = false →
  let candidate := Path.resolve cwd [root; name; "index.md"] in
  let parent := Path.resolve cwd [root] in
  negb (Js.startsWith candidate (parent +:+ Path.sep))
  && negb (String.eqb candidate parent) = false →
  candidate = parent +:+ "/" +:+ name +:+ "/" +:+ "index.md".
Proof.
  intros Hproper Hslash candidate parent.
  subst candidate parent. unfold Path.resolve, Path.normalizeString, Path.sep.
  rewrite (resolveLoop_child cwd root name (proj1 Hproper) Hslash).
  change (rev [root] ++ [cwd]) with [root; cwd].
  pose proof (resolveLoop_shape [root; cwd]) as Hshape.
  destruct (Path.resolveLoop [root; cwd] "") as [dirs absolute]. simpl fst in *. simpl snd.
  rewrite (segments_below _ dirs name Hshape Hslash Hproper).
  pose proof (segments_nonempty (negb absolute) dirs) as Hsegs.
  apply Forall_rev in Hsegs.
  change (rev ("index.md" :: name :: Path.segments (negb absolute) dirs))
    with ((rev (Path.segments (negb absolute) dirs) ++ [name]) ++ ["index.md"]).
  rewrite join_snoc_ne by (intros [_ ?]%app_eq_nil; discriminate).
  rewrite join_snoc.
  destruct (rev (Path.segments (negb absolute) dirs)) as [|x l] eqn:Hrev.
  - change (Js.join "/" []) with "". destruct absolute.
    + rewrite (outside_absolute_root name Hproper Hslash). discriminate.
    + destruct (decide ("" = "")) as [_|?]; [|contradiction].
      destruct (decide (name +:+ "/" +:+ "index.md" = "")) as [Hnil|_].
      { apply app_eq_nil_string in Hnil as [Hnil _]. destruct Hproper. contradiction. }
      rewrite (outside_relative_root name Hproper Hslash). discriminate.
  - intros _.
    assert (Js.join "/" (x :: l) ≠ "") as Hbody
      by (apply join_nonempty; [discriminate | exact Hsegs]).
    destruct absolute.
    + rewrite !app_assoc_string. reflexivity.
    + destruct (decide (Js.join "/" (x :: l) = "")) as [?|_]; [contradiction|].
      destruct (decide (_ = "")) as [Hnil|_].
      { apply app_eq_nil_string in Hnil as [Hnil _].
        apply app_eq_nil_string in Hnil as [Hnil _]. contradiction. }
      rewrite !app_assoc_string. reflexivity.
Qed.

End Slugs.

(** C3, as the code has it.  [resolvePostFilePath] removes one leading
    slash before it normalizes the slug.  It throws the invalid-slug error
    for every slug that, after this and after trimming, is empty, ".",
    ".." or contains a slash or a backslash; and every path it returns is
    the file [index.md] of the directory named by the trimmed slug right
    under the resolved posts root, so that it lies within the root. *)
Theorem resolvePostFilePath_spec (h : Host) (postsRoot : string) :
  (∀ slug, refusedSlug (Js.trim (Js.stripLeadingSlash slug)) →
     Discovery.resolvePostFilePath h postsRoot slug
     = Js.Throw (Js.Error ("Invalid slug: " +:+ Js.stripLeadingSlash slug)))
  ∧ (∀ slug p, Discovery.resolvePostFilePath h postsRoot slug = Js.Return p →
       liesWithin (Path.resolve (cwd h) [postsRoot]) p
       ∧ p = Path.resolve (cwd h) [postsRoot] +:+ "/"
             +:+ Js.trim (Js.stripLeadingSlash slug) +:+ "/" +:+ "index.md").
Proof.
  split.
  - intros slug Hrefused. unfold Discovery.resolvePostFilePath.
    rewrite (normalizeSlug_refuses _ Hrefused). reflexivity.
  - intros slug p. unfold Discovery.resolvePostFilePath.
    destruct (Discovery.normalizeSlug (Js.stripLeadingSlash slug)) as [safeSlug|e] eqn:Hslug;
      [|discriminate].
    apply normalizeSlug_returns in Hslug as [-> Haccepted].
    apply accepted_proper in Haccepted as [Hproper Hslash].
    destruct (negb _ && negb _) eqn:Hguard; [discriminate|].
    intros [= <-].
    pose proof (resolve_child (cwd h) postsRoot _ Hproper Hslash Hguard) as Hchild.
    unfold Discovery.POST_ENTRY_FILENAME in *. split; [|exact Hchild].
    exists (Js.trim (Js.stripLeadingSlash slug) +:+ "/" +:+ "index.md").
    split; [exact Hchild|].
    change (Js.trim (Js.stripLeadingSlash slug) +:+ "/" +:+ "index.md")
      with (Js.trim (Js.stripLeadingSlash slug) +:+ String "/" "index.md").
    rewrite split_app, (split_without "/" _ Hslash). simpl.
    constructor; [exact Hproper|]. constructor; [|constructor].
    repeat split; discriminate.
Qed.

(** The slugs of the specification's example are refused. *)
Lemma resolvePostFilePath_witness :
  Discovery.resolvePostFilePath Sample.liveHost "/app/external-posts" "../../etc/passwd"
  = Js.Throw (Js.Error "Invalid slug: ../../etc/passwd")
  ∧ Discovery.resolvePostFilePath Sample.liveHost "/app/external-posts" "a/../../b"
    = Js.Throw (Js.Error "Invalid slug: a/../../b").
Proof.
  split.
  - apply (proj1 (resolvePostFilePath_spec Sample.liveHost "/app/external-posts")
             "../../etc/passwd").
    right. right. right. left. reflexivity.
  - apply (proj1 (resolvePostFilePath_spec Sample.liveHost "/app/external-posts")
             "a/../../b").
    right. right. right. left. reflexivity.
Defined.

(** C3 as stated fails: a slug with one leading slash contains a slash
    after trimming, and is resolved all the same. *)
Lemma resolvePostFilePath_leading_slash :
  Js.includes (Js.trim "/a") "/" = true
  ∧ Discovery.resolvePostFilePath Sample.liveHost "/app/external-posts" "/a"
    = Js.Return "/app/external-posts/a/index.md".
Proof. split; reflexivity. Qed.

(** ** [Array.prototype.sort] *)

Section Sorting.
Context {A : Type} (comparefn : A → A → option Z).

Lemma insert_Permutation x l : Js.insert comparefn x l ≡ₚ x :: l.
Proof.
  induction l as [|y l IH]; [reflexivity|].
  simpl. destruct (Js.SortCompare comparefn x y <? 0); [reflexivity|].
  rewrite IH. apply Permutation_swap.
Qed.

Lemma sort_from_Permutation l sorted :
  fold_left (fun sorted x => Js.insert comparefn x sorted) l sorted ≡ₚ sorted ++ l.
Proof.
  revert sorted. induction l as [|x l IH]; intros sorted.
  - rewrite app_nil_r. reflexivity.
  - simpl. rewrite IH, insert_Permutation.
    rewrite (Permutation_middle sorted l x). reflexivity.
Qed.

(** [sort] returns the elements it was given. *)
Lemma sort_Permutation l : Js.sort comparefn l ≡ₚ l.
Proof. unfold Js.sort. rewrite sort_from_Permutation. reflexivity. Qed.

Context (Hconsistent : consistentComparator comparefn).

Lemma insert_sorted x l :
  StronglySorted (notAfter comparefn) l →
  StronglySorted (notAfter comparefn) (Js.insert comparefn x l).
Proof.
  destruct Hconsistent as [Hanti Htrans].
  induction l as [|y l IH]; intros Hsorted.
  - repeat constructor.
  - simpl. apply StronglySorted_cons in Hsorted as [Hy Hl].
    destruct (Js.SortCompare comparefn x y <? 0) eqn:Hxy.
    + apply Z.ltb_lt in Hxy.
      assert (notAfter comparefn x y) as Hle by (unfold notAfter; lia).
      apply StronglySorted_cons. split.
      * constructor; [exact Hle|].
        eapply Forall_impl; [exact Hy|]. intros z Hz. exact (Htrans _ _ _ Hle Hz).
      * apply StronglySorted_cons. split; assumption.
    + apply Z.ltb_ge in Hxy.
      apply StronglySorted_cons. split; [|exact (IH Hl)].
      rewrite insert_Permutation. constructor; [|exact Hy].
      apply Hanti. exact Hxy.
Qed.

(** With a consistent comparator the result of [sort] is in order. *)
Lemma sort_sorted l : StronglySorted (notAfter comparefn) (Js.sort comparefn l).
Proof.
  unfold Js.sort.
  assert (∀ sorted, StronglySorted (notAfter comparefn) sorted →
            StronglySorted (notAfter comparefn)
              (fold_left (fun sorted x => Js.insert comparefn x sorted) l sorted)) as Hfold.
  { induction l as [|x l IH]; intros sorted Hsorted; [exact Hsorted|].
    simpl. apply IH, insert_sorted, Hsorted. }
  apply Hfold. constructor.
Qed.


(** The same, when the comparator tells apart the elements at hand. *)
Lemma sort_order_independent_on l1 l2 :
  (∀ a b, a ∈ l1 → b ∈ l1 → notAfter comparefn a b → notAfter comparefn b a → a = b) →
  l1 ≡ₚ l2 → Js.sort comparefn l1 = Js.sort comparefn l2.
Proof.
  intros Hdistinct Hperm.
  apply (StronglySorted_unique_strong (notAfter comparefn)).
  - intros a b Ha Hb. rewrite sort_Permutation in Ha.
    rewrite sort_Permutation, <- Hperm in Hb. exact (Hdistinct a b Ha Hb).
  - apply sort_sorted.
  - apply sort_sorted.
  - rewrite !sort_Permutation. exact Hperm.
Qed.

End Sorting.


(** ** Discovery of the slugs *)

Section DiscoveryFacts.
Context (h : Host) (layout : string).

Lemma logged_nil p : logged p [] = p.
Proof. destruct p. unfold logged. simpl. rewrite app_nil_r. reflexivity. Qed.

Lemma logged_logged p l1 l2 : logged (logged p l1) l2 = logged p (l1 ++ l2).
Proof. unfold logged. simpl. rewrite app_assoc. reflexivity. Qed.

Lemma log_logged l t fs p :
  log l t fs p = (Js.Return tt, logged p [{| level := l; text := t; fields := fs |}]).
Proof. reflexivity. Qed.

Lemma mapThrowing_returns {X Y} (f : X → Js.Completion Y) (g : X → Y) xs :
  (∀ x, x ∈ xs → f x = Js.Return (g x)) →
  Discovery.mapThrowing f xs = Js.Return (g <$> xs).
Proof.
  induction xs as [|x xs IH]; intros Hall; [reflexivity|].
  simpl. rewrite (Hall x) by left. rewrite IH; [reflexivity|].
  intros y Hy. apply Hall. right. exact Hy.
Qed.

(** One throw among the calls and [map] throws: the first of them. *)
Lemma mapThrowing_throws {X Y} (f : X → Js.Completion Y) xs x e :
  x ∈ xs → f x = Js.Throw e →
  ∃ x' e', x' ∈ xs ∧ f x' = Js.Throw e' ∧ Discovery.mapThrowing f xs = Js.Throw e'.
Proof.
  induction xs as [|y xs IH]; intros Hin Hthrow; [inversion Hin|].
  simpl. destruct (f y) as [v|e'] eqn:Hy.
  - apply elem_of_cons in Hin as [->|Hin]; [congruence|].
    destruct (IH Hin Hthrow) as (x' & e'' & Hx' & Hfx' & Hmap).
    exists x', e''. rewrite Hmap. repeat split; [right|..]; assumption.
  - exists y, e'. repeat split; [left|assumption].
Qed.








(** C9.  When one of the kept directories has a name that is not empty and
    trims to the empty string, [listPostSlugs] throws an invalid-slug
    error: the error of the first kept directory that [normalizeSlug]
    refuses.  No directory is probed and nothing is logged. *)
Theorem listPostSlugs_blank_directory postsRoot entries entry p :
  readdir (fs h) postsRoot = Js.Return entries →
  entry ∈ entries →
  isDirectory entry = true →
  Js.startsWith (name entry) "." = false →
  name entry ≠ "" →
  Js.trim (name entry) = "" →
  ∃ refusedEntry,
    refusedEntry ∈ entries
    ∧ Discovery.visibleDirectory refusedEntry = true
    ∧ refusedSlug (Js.trim (name refusedEntry))
    ∧ Discovery.listPostSlugs h layout postsRoot p
      = (Js.Throw (Js.Error ("Invalid slug: " +:+ name refusedEntry)), p).
Proof.
  intros Hreaddir Hin Hdir Hvisible _ Hblank.
  assert (entry ∈ List.filter Discovery.visibleDirectory entries) as Hkept.
  { apply list_elem_of_In, filter_In. split; [apply list_elem_of_In, Hin|].
    unfold Discovery.visibleDirectory. rewrite Hdir, Hvisible. reflexivity. }
  assert (refusedSlug (Js.trim (name entry))) as Hrefused by (left; exact Hblank).
  destruct (mapThrowing_throws (fun entry => Discovery.normalizeSlug (name entry)) _ _ _
              Hkept (normalizeSlug_refuses _ Hrefused))
    as (refusedEntry & e & [Hin' Hvisible']%list_elem_of_In%filter_In & Hthrow & Hmap).
  exists refusedEntry.
  destruct (Discovery.normalizeSlug (name refusedEntry)) as [cleaned|e'] eqn:Hslug;
    [discriminate|].
  assert (refusedSlug (Js.trim (name refusedEntry))) as Hrefused'.
  { destruct (decide (refusedSlug (Js.trim (name refusedEntry)))) as [?|Hn]; [assumption|].
    rewrite (normalizeSlug_accepts _ Hn) in Hslug. discriminate. }
  rewrite (normalizeSlug_refuses _ Hrefused') in Hslug.
  split; [apply list_elem_of_In, Hin'|]. split; [exact Hvisible'|]. split; [exact Hrefused'|].
  unfold Discovery.listPostSlugs, bind, lift. rewrite Hreaddir, Hmap.
  congruence.
Qed.

End DiscoveryFacts.

(** Discovery on the sample repositories. *)

Lemma fileSystem_rejectsWithErrors dirs files :
  rejectsWithErrors (Sample.fileSystem dirs files).
Proof.
  intros p e. simpl.
  destruct (Sample.lookupPath dirs p); [discriminate|].
  destruct (Sample.lookupPath files p); [discriminate|].
  intros [= <-]. reflexivity.
Qed.

Lemma byteCompare_le a b : Sample.byteCompare a b ≤ 0 ↔ String.le a b.
Proof.
  unfold String.le, String.leb, Sample.byteCompare.
  destruct (String.compare a b); simpl; split; intros H; try exact I; try lia.
Qed.

Lemma byteCompare_consistent files :
  consistentComparator (collation (Sample.hostOn files)).
Proof.
  split.
  - intros a b. unfold Js.SortCompare, collation. simpl.
    unfold Sample.byteCompare. rewrite (String.compare_antisym a b).
    destruct (String.compare b a); simpl; lia.
  - intros a b c. unfold Js.SortCompare, collation. simpl.
    rewrite !byteCompare_le. intros Hab Hbc. transitivity b; assumption.
Qed.




Section DiscoveryOrder.
Context (h : Host) (layout : string).



End DiscoveryOrder.




(** The list of the specification's example: [a] and [b] of
    [b, a, .git, c-no-index] come first, in this order. *)
Example listPostSlugs_sample :
  (Discovery.listPostSlugs Sample.liveHost Sample.liveLayout "/app/external-posts"
     Sample.start).1
  = Js.Return ["a"; "b"; "broken"; "draft"; "secret"; "undated"].
Proof. vm_compute. reflexivity. Qed.

Lemma listPostSlugs_blank_directory_witness :
  ∃ refusedEntry,
    refusedEntry ∈ [Sample.dir "a"; Sample.dir "   "]
    ∧ Discovery.visibleDirectory refusedEntry = true
    ∧ refusedSlug (Js.trim (name refusedEntry))
    ∧ Discovery.listPostSlugs (Sample.hostOn Sample.blankRepository) Sample.liveLayout
        "/app/external-posts" Sample.start
      = (Js.Throw (Js.Error ("Invalid slug: " +:+ name refusedEntry)), Sample.start).
Proof.
  apply (listPostSlugs_blank_directory (Sample.hostOn Sample.blankRepository)
           Sample.liveLayout "/app/external-posts" [Sample.dir "a"; Sample.dir "   "]
           (Sample.dir "   ") Sample.start eq_refl).
  - right. left.
  - reflexivity.
  - reflexivity.
  - discriminate.
  - reflexivity.
Defined.


(** ** The public listing *)

Section Listing.

(** An undated post goes behind every other post. *)
Lemma insert_undated x l :
  undated x → Js.insert byDateDescending x l = l ++ [x].
Proof.
  intros Hx. induction l as [|y l IH]; [reflexivity|].
  simpl. unfold Js.SortCompare, byDateDescending at 1. rewrite Hx. simpl.
  rewrite IH. reflexivity.
Qed.

Lemma compare_dated x y tx ty :
  timeOf x = Some tx → timeOf y = Some ty →
  Js.SortCompare byDateDescending x y = ty - tx.
Proof.
  unfold timeOf, Js.SortCompare, byDateDescending.
  destruct (date (frontmatter x)) as [dx|]; [|discriminate].
  destruct (date (frontmatter y)) as [dy|]; [|discriminate].
  simpl. intros -> ->. reflexivity.
Qed.

Lemma compare_dated_undated x y tx :
  timeOf x = Some tx → undated y → Js.SortCompare byDateDescending x y = -1.
Proof.
  unfold timeOf, undated, Js.SortCompare, byDateDescending.
  destruct (date (frontmatter x)) as [dx|]; [|discriminate].
  intros _ ->. reflexivity.
Qed.

(** A post with a valid date goes among the dated posts, before the first
    one that is older. *)
Lemma insert_dated x dated others :
  is_Some (timeOf x) →
  Forall (fun post => is_Some (timeOf post)) dated →
  StronglySorted newerOrSame dated →
  Forall undated others →
  ∃ dated', Js.insert byDateDescending x (dated ++ others) = dated' ++ others
            ∧ dated' ≡ₚ x :: dated
            ∧ StronglySorted newerOrSame dated'.
Proof.
  intros [tx Hx] Htimes Hsorted Hothers.
  induction dated as [|y dated IH].
  - exists [x]. split; [|split; [reflexivity | repeat constructor]].
    destruct others as [|z others]; [reflexivity|].
    apply Forall_cons in Hothers as [Hz _].
    simpl. rewrite (compare_dated_undated x z tx Hx Hz). reflexivity.
  - apply Forall_cons in Htimes as [[ty Hy] Htimes].
    apply StronglySorted_cons in Hsorted as [Hyrest Hsorted].
    change ((y :: dated) ++ others) with (y :: dated ++ others).
    cbn [Js.insert]. rewrite (compare_dated x y tx ty Hx Hy).
    destruct (ty - tx <? 0) eqn:Holder.
    + apply Z.ltb_lt in Holder.
      exists (x :: y :: dated). split; [reflexivity|]. split; [reflexivity|].
      assert (newerOrSame x y) as Hxy by (exists tx, ty; repeat split; try assumption; lia).
      apply StronglySorted_cons. split.
      * constructor; [exact Hxy|].
        eapply Forall_impl; [exact Hyrest|].
        intros z (ty' & tz & Hy' & Hz & Hle). exists tx, tz.
        rewrite Hy in Hy'. injection Hy' as <-. repeat split; try assumption. lia.
      * apply StronglySorted_cons. split; assumption.
    + apply Z.ltb_ge in Holder.
      destruct (IH Htimes Hsorted) as (dated' & Heq & Hperm & Hsorted').
      exists (y :: dated'). rewrite Heq. split; [reflexivity|]. split.
      * rewrite Hperm. apply Permutation_swap.
      * apply StronglySorted_cons. split; [|exact Hsorted'].
        rewrite Hperm. constructor; [|exact Hyrest].
        exists ty, tx. repeat split; try assumption. lia.
Qed.

Lemma insert_newestFirst x l :
  undated x ∨ is_Some (timeOf x) → newestFirst l →
  newestFirst (Js.insert byDateDescending x l).
Proof.
  intros Hx (dated & others & -> & Htimes & Hsorted & Hothers).
  destruct Hx as [Hx|Hx].
  - rewrite (insert_undated _ _ Hx), <- app_assoc.
    exists dated, (others ++ [x]). repeat split; try assumption.
    apply Forall_app. split; [assumption | repeat constructor; assumption].
  - destruct (insert_dated x dated others Hx Htimes Hsorted Hothers)
      as (dated' & -> & Hperm & Hsorted').
    exists dated', others. repeat split; try assumption.
    rewrite Hperm. constructor; assumption.
Qed.

Lemma datesValid_cases posts post :
  datesValid posts → post ∈ posts → undated post ∨ is_Some (timeOf post).
Proof.
  intros Hvalid Hin. unfold undated, timeOf.
  destruct (date (frontmatter post)) as [d|] eqn:Hd; [right|left; reflexivity].
  simpl. exact (Hvalid post d Hin Hd).
Qed.

(** Sorting posts whose dates are valid puts the newest first and the
    undated last. *)
Lemma sort_newestFirst posts :
  datesValid posts → newestFirst (Js.sort byDateDescending posts).
Proof.
  intros Hvalid. unfold Js.sort.
  assert (∀ l sorted, (∀ post, post ∈ l → post ∈ posts) → newestFirst sorted →
            newestFirst (fold_left (fun sorted x => Js.insert byDateDescending x sorted)
                           l sorted)) as Hfold.
  { induction l as [|x l IH]; intros sorted Hsub Hsorted; [exact Hsorted|].
    simpl. apply IH; [intros post Hpost; apply Hsub; right; exact Hpost|].
    apply insert_newestFirst; [|exact Hsorted].
    apply (datesValid_cases posts); [exact Hvalid | apply Hsub; left]. }
  apply Hfold; [auto|].
  exists [], []. repeat split; constructor.
Qed.

(** Whatever the engine does: a listing of posts with valid dates in which
    no post stands before another against the comparator is newest
    first. *)
Lemma agreeing_newestFirst listing :
  datesValid listing → StronglySorted agrees listing → newestFirst listing.
Proof.
  induction listing as [|x l IH]; intros Hvalid Hsorted.
  - exists [], []. repeat split; constructor.
  - apply StronglySorted_cons in Hsorted as [Hx Hsorted].
    assert (datesValid l) as Hvalid'
      by (intros post d Hin; apply Hvalid; right; exact Hin).
    destruct (IH Hvalid' Hsorted) as (dated & others & -> & Htimes & Hdated & Hothers).
    destruct (datesValid_cases _ x Hvalid) as [Hundated|[tx Htx]]; [left|..].
    + destruct dated as [|y dated].
      * exists [], (x :: others). repeat split; constructor; assumption.
      * exfalso. apply Forall_cons in Htimes as [[ty Hy] _].
        apply Forall_cons in Hx as [[Hxy|Hyx] _].
        -- unfold Js.SortCompare, byDateDescending in Hxy. rewrite Hundated in Hxy.
           simpl in Hxy. lia.
        -- rewrite (compare_dated_undated y x ty Hy Hundated) in Hyx. lia.
    + exists (x :: dated), others. repeat split; try assumption.
      * constructor; [eauto | assumption].
      * apply StronglySorted_cons. split; [|assumption].
        apply Forall_app in Hx as [Hx _].
        apply Forall_forall. intros y Hy.
        pose proof (proj1 (Forall_forall _ _) Htimes y Hy) as [ty Hty].
        pose proof (proj1 (Forall_forall _ _) Hx y Hy) as Hagree.
        unfold agrees in Hagree.
        rewrite (compare_dated x y tx ty Htx Hty), (compare_dated y x ty tx Hty Htx) in Hagree.
        exists tx, ty. repeat split; try assumption. lia.
Qed.

End Listing.

(** The filter of [listPublicPosts] keeps the public posts, and these
    only. *)
Lemma filter_isPublic posts : List.filter isPublic posts = publicPosts posts.
Proof.
  unfold publicPosts. induction posts as [|post posts IH]; [reflexivity|].
  rewrite filter_cons. cbn [List.filter]. unfold isPublic at 1.
  destruct (decide (fm_access (frontmatter post) = public)) as [Hpublic|Hother].
  - rewrite bool_decide_eq_true_2 by exact Hpublic. rewrite IH. reflexivity.
  - rewrite bool_decide_eq_false_2 by exact Hother. exact IH.
Qed.

(** C4.  Whenever [listPosts()] returns a list whose public posts have
    valid dates, [listPublicPosts()] returns the posts of that list whose
    access is "public", each as often as it occurs there and no other; the
    dated ones come first, from the newest to the oldest, and the undated
    ones after all of them (in an order the statement leaves open).  This
    holds for the [posts.ts] that reads the snapshot and for the one that
    reads the file system. *)
Theorem listPublicPosts_spec (h : Host) (generatedPosts : list SerializedPostEntry)
    (allPosts : list PostEntry) :
  datesValid (publicPosts allPosts) →
  (∀ p p', Posts.listPosts h generatedPosts p = (Js.Return allPosts, p') →
     ∃ listing, Posts.listPublicPosts h generatedPosts p = (Js.Return listing, p')
                ∧ listing ≡ₚ publicPosts allPosts
                ∧ (∀ post, post ∈ listing ↔
                           post ∈ allPosts ∧ fm_access (frontmatter post) = public)
                ∧ newestFirst listing)
  ∧ (∀ p p', LivePosts.listPosts h p = (Js.Return allPosts, p') →
     ∃ listing, LivePosts.listPublicPosts h p = (Js.Return listing, p')
                ∧ listing ≡ₚ publicPosts allPosts
                ∧ (∀ post, post ∈ listing ↔
                           post ∈ allPosts ∧ fm_access (frontmatter post) = public)
                ∧ newestFirst listing).
Proof.
  intros Hvalid.
  assert (Hlisting : publicNewestFirst allPosts ≡ₚ publicPosts allPosts).
  { unfold publicNewestFirst. rewrite sort_Permutation, filter_isPublic. reflexivity. }
  assert (Hmembers : ∀ post, post ∈ publicNewestFirst allPosts ↔
                             post ∈ allPosts ∧ fm_access (frontmatter post) = public).
  { intros post. rewrite Hlisting. unfold publicPosts. rewrite list_elem_of_filter. tauto. }
  assert (Hsorted : newestFirst (publicNewestFirst allPosts)).
  { apply sort_newestFirst. rewrite filter_isPublic. exact Hvalid. }
  split; intros p p' Hall; exists (publicNewestFirst allPosts);
    (split; [|split; [exact Hlisting | split; [exact Hmembers | exact Hsorted]]]).
  - unfold Posts.listPublicPosts, bind. rewrite Hall. reflexivity.
  - unfold LivePosts.listPublicPosts, bind. rewrite Hall. reflexivity.
Qed.

Lemma generatedPosts_datesValid :
  datesValid (publicPosts (Posts.restoreEntry Sample.buildHost <$> Sample.generatedPosts)).
Proof.
  rewrite <- filter_isPublic.
  intros post d Hin Hd. vm_compute in Hin.
  repeat (apply elem_of_cons in Hin as [->|Hin]); [..|inversion Hin];
    vm_compute in Hd; try discriminate Hd; injection Hd as <-; vm_compute; eauto.
Qed.

Lemma listPublicPosts_witness :
  ∃ listing,
    Posts.listPublicPosts Sample.buildHost Sample.generatedPosts Sample.start
    = (Js.Return listing, Sample.start)
    ∧ listing ≡ₚ publicPosts (Posts.restoreEntry Sample.buildHost <$> Sample.generatedPosts)
    ∧ (∀ post, post ∈ listing ↔
               post ∈ Posts.restoreEntry Sample.buildHost <$> Sample.generatedPosts
               ∧ fm_access (frontmatter post) = public)
    ∧ newestFirst listing.
Proof.
  apply (proj1 (listPublicPosts_spec Sample.buildHost Sample.generatedPosts
                  (Posts.restoreEntry Sample.buildHost <$> Sample.generatedPosts)
                  generatedPosts_datesValid)
           Sample.start Sample.start eq_refl).
Defined.

(** The listing of the specification's example: 2024-06-01, 2024-01-01,
    then the undated post; the private post of 2024-12-01 and the
    protected post are left out. *)
Example listPublicPosts_sample :
  match (Posts.listPublicPosts Sample.buildHost Sample.generatedPosts Sample.start).1 with
  | Js.Return listing => List.map entrySlug listing
  | Js.Throw _ => []
  end = ["b"; "a"; "undated"].
Proof. vm_compute. reflexivity. Qed.

(** ** The batch over the discovered slugs *)

Section Batch.
Context (h : Host).

Lemma allSettled_pure {X Y} (f : X → M Y) (g : X → Js.Completion Y) xs p :
  (∀ x q, f x q = (g x, q)) →
  allSettled f xs p = (Js.Return (g <$> xs), p).
Proof.
  intros Hpure. revert p. induction xs as [|x xs IH]; intros p; [reflexivity|].
  cbn [allSettled]. rewrite Hpure. unfold bind. rewrite IH. reflexivity.
Qed.

(** The task of a slug reads and never writes: the process is as
    before. *)
Lemma live_readEntry_pure postsRoot slug p :
  LivePosts.readEntry h postsRoot slug p
  = (settled (LivePosts.readEntry h postsRoot slug), p).
Proof.
  unfold settled, LivePosts.readEntry, bind, lift, ret.
  destruct (LivePosts.resolvePostFilePath h postsRoot slug) as [absolutePath|e];
    [|reflexivity].
  destruct (readFile (fs h) absolutePath) as [raw|e]; [|reflexivity].
  destruct (parsePost h raw) as [parsed|e]; reflexivity.
Qed.

Lemma build_readEntry_pure postsRoot slug p :
  GenerateContent.readEntry h postsRoot slug p
  = (settled (GenerateContent.readEntry h postsRoot slug), p).
Proof.
  unfold settled, GenerateContent.readEntry, bind, lift, ret.
  destruct (GenerateContent.resolvePostFilePath h postsRoot slug) as [absolutePath|e];
    [|reflexivity].
  destruct (readFile (fs h) absolutePath) as [raw|e]; [|reflexivity].
  destruct (parsePost h raw) as [parsed|e]; [|reflexivity].
  destruct (GenerateContent.serializeFrontmatter parsed.1); reflexivity.
Qed.

Lemma skipWarning_logged slug reason p :
  Discovery.skipWarning slug reason p = (Js.Return tt, logged p [skippedPost slug reason]).
Proof. destruct reason; reflexivity. Qed.

(** [forEach] over the outcomes of the slugs [later], reached at the
    index where they start in the list of slugs. *)
Lemma collect_spec {E} (outcome : string → Js.Completion E) earlier later entries p :
  Discovery.collect (earlier ++ later) (length earlier) (outcome <$> later) entries p
  = (Js.Return (entries ++ omap (fun slug => fulfilled (outcome slug)) later),
     logged p (omap (fun slug => rejected slug (outcome slug)) later)).
Proof.
  revert earlier entries p. induction later as [|slug later IH]; intros earlier entries p.
  - simpl. rewrite app_nil_r, logged_nil. reflexivity.
  - rewrite fmap_cons. cbn [Discovery.collect omap list_omap].
    assert ((earlier ++ slug :: later) !! length earlier = Some slug) as Hslug.
    { rewrite lookup_app_r by lia. rewrite Nat.sub_diag. reflexivity. }
    pose proof (IH (earlier ++ [slug])) as IH'.
    rewrite <- app_assoc, length_app in IH'. cbn [app length] in IH'.
    rewrite Nat.add_1_r in IH'.
    destruct (outcome slug) as [value|reason]; cbn [fulfilled rejected].
    + rewrite IH', <- app_assoc. reflexivity.
    + unfold bind. rewrite Hslug. cbn [default from_option id].
      rewrite skipWarning_logged, IH', logged_logged. reflexivity.
Qed.

Lemma assertPostsRootExists_found contentDir postsRoot p :
  access (fs h) postsRoot = Js.Return tt →
  Discovery.assertPostsRootExists h contentDir postsRoot p = (Js.Return tt, p).
Proof.
  intros Hroot. unfold Discovery.assertPostsRootExists, tryCatch, lift.
  rewrite Hroot. reflexivity.
Qed.

Lemma live_entrySlug postsRoot slug entry :
  fulfilled (settled (LivePosts.readEntry h postsRoot slug)) = Some entry →
  entrySlug entry = slug.
Proof.
  unfold settled, LivePosts.readEntry, bind, lift, ret.
  destruct (LivePosts.resolvePostFilePath h postsRoot slug) as [absolutePath|e];
    [|discriminate].
  destruct (readFile (fs h) absolutePath) as [raw|e]; [|discriminate].
  destruct (parsePost h raw) as [parsed|e]; [|discriminate].
  intros [= <-]. reflexivity.
Qed.

Lemma build_entrySlug postsRoot slug entry :
  fulfilled (settled (GenerateContent.readEntry h postsRoot slug)) = Some entry →
  Generated.slug entry = slug.
Proof.
  unfold settled, GenerateContent.readEntry, bind, lift, ret.
  destruct (GenerateContent.resolvePostFilePath h postsRoot slug) as [absolutePath|e];
    [|discriminate].
  destruct (readFile (fs h) absolutePath) as [raw|e]; [|discriminate].
  destruct (parsePost h raw) as [parsed|e]; [|discriminate].
  destruct (GenerateContent.serializeFrontmatter parsed.1); [|discriminate].
  intros [= <-]. reflexivity.
Qed.

(** The slugs of the entries are the slugs whose task was fulfilled, in
    the order of the slugs. *)
Lemma fulfilled_in_order {E} (outcome : string → Js.Completion E) (slugOf : E → string) slugs :
  (∀ slug entry, fulfilled (outcome slug) = Some entry → slugOf entry = slug) →
  slugOf <$> omap (fun slug => fulfilled (outcome slug)) slugs
  = List.filter (fun slug => bool_decide (is_Some (fulfilled (outcome slug)))) slugs.
Proof.
  intros Hslug. induction slugs as [|slug slugs IH]; [reflexivity|].
  cbn [omap list_omap List.filter].
  destruct (fulfilled (outcome slug)) as [entry|] eqn:Hentry.
  - rewrite bool_decide_eq_true_2 by eauto.
    rewrite fmap_cons, IH, (Hslug _ _ Hentry). reflexivity.
  - rewrite bool_decide_eq_false_2 by (intros [? ?]; discriminate). exact IH.
Qed.

(** C5.  Once the posts root exists and discovery has returned [slugs],
    the batch handles every slug by itself: the outcome of a slug is the
    outcome of its own task, whatever the outcomes of the others.  The
    tasks that were fulfilled give the entries, in the order of [slugs];
    the tasks that were rejected (invalid frontmatter, an error of the file
    system, any other exception) each add one warning and no entry.  So it
    is for [listPostsCached] of the live [posts.ts], which returns the
    entries, and for [buildPosts], which returns them unless there is
    none. *)
Theorem batch_partial_success (slugs : list string) (p p1 : Process) :
  (access (fs h) (LivePosts.resolvePostsRoot h) = Js.Return tt →
   LivePosts.listPostSlugs h (LivePosts.resolvePostsRoot h) p = (Js.Return slugs, p1) →
   let outcome slug := settled (LivePosts.readEntry h (LivePosts.resolvePostsRoot h) slug) in
   let entries := omap (fun slug => fulfilled (outcome slug)) slugs in
   LivePosts.listPostsCached h p
   = (Js.Return entries,
      logged p1 (omap (fun slug => rejected slug (outcome slug)) slugs))
   ∧ entrySlug <$> entries
     = List.filter (fun slug => bool_decide (is_Some (fulfilled (outcome slug)))) slugs)
  ∧ (access (fs h) (GenerateContent.resolvePostsRoot h) = Js.Return tt →
     GenerateContent.listPostSlugs h (GenerateContent.resolvePostsRoot h) p
     = (Js.Return slugs, p1) →
     let outcome slug :=
       settled (GenerateContent.readEntry h (GenerateContent.resolvePostsRoot h) slug) in
     let entries := omap (fun slug => fulfilled (outcome slug)) slugs in
     GenerateContent.buildPosts h p
     = (match entries with
        | [] => Js.Throw (Js.Error "No valid posts generated. Check content and frontmatter.")
        | _ => Js.Return entries
        end,
        logged p1 (omap (fun slug => rejected slug (outcome slug)) slugs))
     ∧ Generated.slug <$> entries
       = List.filter (fun slug => bool_decide (is_Some (fulfilled (outcome slug)))) slugs).
Proof.
  split; intros Hroot Hslugs outcome entries.
  - split; [|apply fulfilled_in_order, live_entrySlug].
    unfold LivePosts.listPostsCached, LivePosts.assertPostsRootExists, bind.
    rewrite (assertPostsRootExists_found _ _ _ Hroot), Hslugs.
    rewrite (allSettled_pure _ outcome) by (intros; apply live_readEntry_pure).
    apply (collect_spec outcome [] slugs []).
  - split; [|apply fulfilled_in_order, build_entrySlug].
    unfold GenerateContent.buildPosts, GenerateContent.assertPostsRootExists, bind.
    rewrite (assertPostsRootExists_found _ _ _ Hroot), Hslugs.
    rewrite (allSettled_pure _ outcome) by (intros; apply build_readEntry_pure).
    rewrite (collect_spec outcome [] slugs []). cbn [app]. fold entries.
    destruct entries; reflexivity.
Qed.

End Batch.

(** The batch on the sample repository: the post without title is skipped
    with a warning, the five others are returned in the order of the
    slugs. *)
Lemma batch_partial_success_witness :
  LivePosts.listPostsCached Sample.liveHost Sample.start
  = (Js.Return
       (omap (fun slug =>
                fulfilled (settled (LivePosts.readEntry Sample.liveHost
                                      (LivePosts.resolvePostsRoot Sample.liveHost) slug)))
          Sample.discovered),
     logged (Sample.afterDiscovery "/app/external-posts")
       (omap (fun slug =>
                rejected slug (settled (LivePosts.readEntry Sample.liveHost
                                          (LivePosts.resolvePostsRoot Sample.liveHost) slug)))
          Sample.discovered)).
Proof.
  apply (proj1 (batch_partial_success Sample.liveHost Sample.discovered Sample.start
                  (Sample.afterDiscovery "/app/external-posts"))).
  - reflexivity.
  - vm_compute. reflexivity.
Defined.

Example listPostsCached_sample :
  match (LivePosts.listPostsCached Sample.liveHost Sample.start).1 with
  | Js.Return entries => List.map entrySlug entries
  | Js.Throw _ => []
  end = ["a"; "b"; "draft"; "secret"; "undated"]
  ∧ console (LivePosts.listPostsCached Sample.liveHost Sample.start).2
    = [skippedDirectory "/app/external-posts" "c-no-index";
       skippedPost "broken" (Js.FrontmatterValidationError "Invalid frontmatter"
                               [("title", "is required")])].
Proof. split; vm_compute; reflexivity. Qed.

(** C6 on the live [posts.ts]: when the only post fails validation,
    [listPostsCached] returns the empty list, and so does [listPosts];
    nothing is thrown. *)
Lemma listPostsCached_returns_empty :
  LivePosts.listPostsCached (Sample.hostOn Sample.brokenRepository) Sample.start
  = (Js.Return [],
     logged Sample.start
       [skippedPost "broken" (Js.FrontmatterValidationError "Invalid frontmatter"
                                [("title", "is required")])])
  ∧ (LivePosts.listPosts (Sample.hostOn Sample.brokenRepository) Sample.start).1
    = Js.Return [].
Proof. split; vm_compute; reflexivity. Qed.

(** On the same repository [buildPosts] fails. *)
Example buildPosts_fails_without_posts :
  (GenerateContent.buildPosts
     (Sample.hostOn
        (Sample.fileSystem
           [("/app/my-blog-contents/external-posts", [Sample.dir "broken"])]
           [("/app/my-blog-contents/external-posts/broken/index.md",
              Sample.post ["access: public"] "# Broken")]))
     Sample.start).1
  = Js.Throw (Js.Error "No valid posts generated. Check content and frontmatter.").
Proof. vm_compute. reflexivity. Qed.

(** ** The validator of the frontmatter *)

Section Validator.
Import FrontmatterSchema.
Context (parseIso : string → option Z).

Lemma reported_app field (a b : list Issue) :
  reported field (a ++ b) ↔ reported field a ∨ reported field b.
Proof. unfold reported. rewrite fmap_app, elem_of_app. reflexivity. Qed.

Lemma reported_here field reason : reported field [(field, reason)].
Proof. unfold reported. simpl. left. Qed.

(** Each rule is silent on exactly the values it accepts, and names its
    field otherwise. *)
Lemma titleIssues_spec raw :
  (titleIssues (raw !! "title") = [] ↔ titleValid raw)
  ∧ (titleIssues (raw !! "title") = [] ∨ reported "title" (titleIssues (raw !! "title"))).
Proof.
  unfold titleValid. destruct (raw !! "title") as [[s| | | | |]|]; simpl;
    try (split; [split; [discriminate | intros (? & [=] & _)] | right; apply reported_here]).
  - destruct (String.eqb_spec s "") as [->|Hne].
    + split; [split; [discriminate | intros (? & [= <-] & Hne); contradiction]
             | right; apply reported_here].
    + split; [split; [eauto | reflexivity] | left; reflexivity].
Qed.

Lemma accessIssues_spec raw :
  (accessIssues (raw !! "access") = [] ↔ accessValid raw)
  ∧ (accessIssues (raw !! "access") = [] ∨ reported "access" (accessIssues (raw !! "access"))).
Proof.
  unfold accessValid. destruct (raw !! "access") as [[s| | | | |]|]; simpl;
    try (split; [split; [discriminate | intros H; destruct (H _ eq_refl) as (? & ? & [=] & _)]
                | right; apply reported_here]).
  - destruct (accessOfLiteral s) as [a|] eqn:Ha.
    + split; [split; [intros _ v [= <-]; eauto | reflexivity] | left; reflexivity].
    + split; [split; [discriminate
                     | intros H; destruct (H _ eq_refl) as (? & ? & [= <-] & Hb); congruence]
             | right; apply reported_here].
  - split; [split; [intros _ v [=] | reflexivity] | left; reflexivity].
Qed.

Lemma dateIssues_spec raw :
  (dateIssues parseIso (raw !! "date") = [] ↔ dateValid parseIso raw)
  ∧ (dateIssues parseIso (raw !! "date") = []
     ∨ reported "date" (dateIssues parseIso (raw !! "date"))).
Proof.
  unfold dateValid. destruct (raw !! "date") as [[s| | | | |]|]; simpl;
    try (split; [split; [discriminate | intros H; destruct (H _ eq_refl) as (? & ? & [=] & _)]
                | right; apply reported_here]).
  - destruct (parseIso s) as [t|] eqn:Ht.
    + split; [split; [intros _ v [= <-]; eauto | reflexivity] | left; reflexivity].
    + split; [split; [discriminate
                     | intros H; destruct (H _ eq_refl) as (? & ? & [= <-] & Hb); congruence]
             | right; apply reported_here].
  - split; [split; [intros _ v [=] | reflexivity] | left; reflexivity].
Qed.

Lemma topicsIssues_spec raw :
  (topicsIssues (raw !! "topics") = [] ↔ topicsValid raw)
  ∧ (topicsIssues (raw !! "topics") = []
     ∨ reported "topics" (topicsIssues (raw !! "topics"))).
Proof.
  unfold topicsValid. destruct (raw !! "topics") as [[s| | | |items|]|]; simpl;
    try (split; [split; [discriminate | intros H; destruct (H _ eq_refl) as (? & ? & [=] & _)]
                | right; apply reported_here]).
  - destruct (stringsOf items) as [l|] eqn:Hl.
    + split; [split; [intros _ v [= <-]; eauto | reflexivity] | left; reflexivity].
    + split; [split; [discriminate
                     | intros H; destruct (H _ eq_refl) as (? & ? & [= <-] & Hb); congruence]
             | right; apply reported_here].
  - split; [split; [intros _ v [=] | reflexivity] | left; reflexivity].
Qed.

Lemma passwordIssues_spec raw :
  (passwordIssues (raw !! "password") = [] ↔ passwordValid raw)
  ∧ (passwordIssues (raw !! "password") = []
     ∨ reported "password" (passwordIssues (raw !! "password"))).
Proof.
  unfold passwordValid. destruct (raw !! "password") as [[s| | | | |]|]; simpl;
    try (split; [split; [discriminate | intros H; destruct (H _ eq_refl) as (? & [=] & _)]
                | right; apply reported_here]).
  - destruct (String.eqb_spec s "") as [->|Hne].
    + split; [split; [discriminate
                     | intros H; destruct (H _ eq_refl) as (? & [= <-] & Hne); contradiction]
             | right; apply reported_here].
    + split; [split; [intros _ v [= <-]; eauto | reflexivity] | left; reflexivity].
  - split; [split; [intros _ v [=] | reflexivity] | left; reflexivity].
Qed.

Lemma accessOfLiteral_protected s : accessOfLiteral s = Some protected ↔ s = "protected".
Proof.
  unfold accessOfLiteral.
  destruct (String.eqb_spec s "public") as [->|?]; [split; discriminate|].
  destruct (String.eqb_spec s "unlisted") as [->|?]; [split; discriminate|].
  destruct (String.eqb_spec s "private") as [->|?]; [split; discriminate|].
  destruct (String.eqb_spec s "protected") as [->|?]; [split; reflexivity|].
  split; [discriminate | contradiction].
Qed.

Lemma accessOf_protected (raw : gmap string Yaml) :
  accessOf (raw !! "access") = protected ↔ raw !! "access" = Some (YString "protected").
Proof.
  destruct (raw !! "access") as [[s| | | | |]|]; simpl; try (split; discriminate).
  destruct (accessOfLiteral s) as [a|] eqn:Ha; simpl.
  - split.
    + intros ->. apply accessOfLiteral_protected in Ha. congruence.
    + intros [= ->]. vm_compute in Ha. congruence.
  - split; [discriminate|].
    intros [= ->]. vm_compute in Ha. discriminate.
Qed.

Lemma crossIssues_spec raw :
  (crossIssues raw = [] ↔ passwordPresentIfProtected raw)
  ∧ (crossIssues raw = [] ∨ reported "password" (crossIssues raw)).
Proof.
  unfold crossIssues, passwordPresentIfProtected.
  destruct (bool_decide (accessOf (raw !! "access") = protected)) eqn:Hp.
  - apply bool_decide_eq_true_1, accessOf_protected in Hp.
    destruct (raw !! "password") as [v|]; simpl.
    + split; [split; [eauto | reflexivity] | left; reflexivity].
    + split; [split; [discriminate | intros H; destruct (H Hp) as [? [=]]]
             | right; apply reported_here].
  - apply bool_decide_eq_false_1 in Hp. rewrite accessOf_protected in Hp. simpl.
    split; [split; [intros _ ?; contradiction | reflexivity] | left; reflexivity].
Qed.

Lemma validate_issues (raw : gmap string Yaml) :
  let issues :=
    titleIssues (raw !! "title") ++ accessIssues (raw !! "access")
    ++ dateIssues parseIso (raw !! "date") ++ topicsIssues (raw !! "topics")
    ++ passwordIssues (raw !! "password") ++ crossIssues raw in
  (issues = [] ∧ ∃ f, validate parseIso raw = inr f)
  ∨ (issues ≠ [] ∧ validate parseIso raw = inl issues).
Proof.
  intros issues. unfold validate. fold issues.
  destruct issues as [|issue issues']; [left | right]; split; eauto; discriminate.
Qed.

(** C8, as section 4.1 has it.  The Validator succeeds exactly when [title]
    is a non-empty string, [access], [date] and [topics], when present,
    are one of the four literals, a string that parses as ISO 8601, and a
    sequence of strings, [password], when present, is a non-empty string,
    and [password] is present when [access] is "protected".  When it
    fails, its issues name every field whose condition is violated. *)
Theorem validate_spec (raw : gmap string Yaml) :
  ((∃ f, validate parseIso raw = inr f)
   ↔ titleValid raw ∧ accessValid raw ∧ dateValid parseIso raw ∧ topicsValid raw
     ∧ passwordValid raw ∧ passwordPresentIfProtected raw)
  ∧ (∀ issues, validate parseIso raw = inl issues →
       (¬ titleValid raw → reported "title" issues)
       ∧ (¬ accessValid raw → reported "access" issues)
       ∧ (¬ dateValid parseIso raw → reported "date" issues)
       ∧ (¬ topicsValid raw → reported "topics" issues)
       ∧ (¬ passwordValid raw ∨ ¬ passwordPresentIfProtected raw →
          reported "password" issues)).
Proof.
  destruct (titleIssues_spec raw) as [Ht Ht'].
  destruct (accessIssues_spec raw) as [Ha Ha'].
  destruct (dateIssues_spec raw) as [Hd Hd'].
  destruct (topicsIssues_spec raw) as [Hs Hs'].
  destruct (passwordIssues_spec raw) as [Hp Hp'].
  destruct (crossIssues_spec raw) as [Hc Hc'].
  rewrite <- Ht, <- Ha, <- Hd, <- Hs, <- Hp, <- Hc.
  destruct (validate_issues raw) as [[Hnil [f Hf]] | [Hsome Hissues]].
  - apply app_eq_nil in Hnil as [H1 Hnil]. apply app_eq_nil in Hnil as [H2 Hnil].
    apply app_eq_nil in Hnil as [H3 Hnil]. apply app_eq_nil in Hnil as [H4 Hnil].
    apply app_eq_nil in Hnil as [H5 H6].
    split; [split; [tauto | eauto]|].
    intros issues. rewrite Hf. discriminate.
  - split.
    + split; [intros [f Hf]; congruence|].
      intros (H1 & H2 & H3 & H4 & H5 & H6). exfalso. apply Hsome.
      rewrite H1, H2, H3, H4, H5, H6. reflexivity.
    + intros issues. rewrite Hissues. intros [= <-].
      rewrite !reported_app. tauto.
Qed.

End Validator.

(** C8 as stated fails on section 4.1: a post that is not protected and
    whose password is the empty string meets every condition of the claim
    and is refused. *)
Lemma validate_empty_password :
  (FrontmatterSchema.titleValid Sample.emptyPassword
   ∧ FrontmatterSchema.accessValid Sample.emptyPassword
   ∧ FrontmatterSchema.dateValid IsoDate.parse Sample.emptyPassword
   ∧ FrontmatterSchema.topicsValid Sample.emptyPassword
   ∧ FrontmatterSchema.passwordPresentIfProtected Sample.emptyPassword)
  ∧ FrontmatterSchema.validate IsoDate.parse Sample.emptyPassword
    = inl [("password", "must not be empty")].
Proof.
  split; [|vm_compute; reflexivity].
  split; [exists "Hello"; split; [vm_compute; reflexivity | discriminate]|].
  repeat split;
    [intros v Hv; vm_compute in Hv; discriminate Hv ..
    | intros Hv; vm_compute in Hv; discriminate Hv].
Qed.

Example validate_sample :
  FrontmatterSchema.validate IsoDate.parse Sample.invalid = inl Sample.issuesOfInvalid.
Proof. vm_compute. reflexivity. Qed.

Lemma validate_spec_witness :
  FrontmatterSchema.reported "date" Sample.issuesOfInvalid
  ∧ FrontmatterSchema.reported "topics" Sample.issuesOfInvalid
  ∧ FrontmatterSchema.reported "password" Sample.issuesOfInvalid.
Proof.
  pose proof (proj2 (validate_spec IsoDate.parse Sample.invalid) Sample.issuesOfInvalid
                ltac:(vm_compute; reflexivity)) as (_ & _ & Hdate & Htopics & Hpassword).
  split; [|split].
  - apply Hdate. intros Hvalid.
    destruct (Hvalid (FrontmatterSchema.YString "not a date") ltac:(vm_compute; reflexivity))
      as (s & t & [= <-] & Hparse).
    vm_compute in Hparse. discriminate Hparse.
  - apply Htopics. intros Hvalid.
    destruct (Hvalid (FrontmatterSchema.YString "blog") ltac:(vm_compute; reflexivity))
      as (items & l & Hseq & _).
    discriminate Hseq.
  - apply Hpassword. right. intros Hpresent.
    destruct (Hpresent ltac:(vm_compute; reflexivity)) as [v Hv].
    vm_compute in Hv. discriminate Hv.
Defined.

(** A request that carries the credential of the sample post is served;
    one that carries another value is not. *)
Example loadProtectedPost_sample :
  (Actions.loadProtectedPost Sample.buildHost Sample.generatedPosts "secret"
     {| console := [];
        cookieStore :=
          {[ "protected-post-secret" :=
               requestCookie "f52fbd32b2b3b86ff88ef6c490628285f482af15ddcb29541f94bcf526a3f6c7" ]} |}).1
  = Js.Return (granted "# Hidden")
  ∧ (Actions.loadProtectedPost Sample.buildHost Sample.generatedPosts "secret"
       {| console := [];
          cookieStore := {[ "protected-post-secret" := requestCookie "hunter2" ]} |}).1
    = Js.Return unauthenticated
  ∧ (Actions.loadProtectedPost Sample.buildHost Sample.generatedPosts "missing"
       Sample.start).1
    = Js.Throw Js.NotFound.
Proof. repeat split; vm_compute; reflexivity. Qed.

(** [posts.ts] on an empty snapshot fails as well. *)
Example listPosts_fails_on_empty_snapshot :
  (Posts.listPosts Sample.buildHost [] Sample.start).1
  = Js.Throw (Js.Error ("No posts found in generated data. Run " +:+ Js.dquote
                        +:+ "bun run generate:content" +:+ Js.dquote
                        +:+ " before building.")).
Proof. reflexivity. Qed.

(** * Further properties of the code *)

(** ** The gate, from one request to the next *)

Section GateFacts.
Context (h : Host) (generatedPosts : list SerializedPostEntry).

Lemma getPostBySlug_absent slug p :
  postOf generatedPosts slug = None →
  Posts.getPostBySlug h generatedPosts slug p
  = (Js.Throw Js.NotFound, logged p [fetchFailure h slug]).
Proof.
  unfold postOf. intros Hfind.
  unfold Posts.getPostBySlug, Posts.getPostBySlugCached, tryCatch, bind.
  rewrite Hfind. reflexivity.
Qed.

Lemma protectedCookieName_inj slug slug' :
  Actions.protectedCookieName slug = Actions.protectedCookieName slug' → slug = slug'.
Proof.
  unfold Actions.protectedCookieName. intros Heq.
  exact (String.app_inj _ _ _ Heq).
Qed.

(** What [verifyProtectedPostPassword] leaves behind: the process as it
    was, the process with the credential of the post, or, for a slug without
    post, the process with one more line on the console. *)
Lemma verifyProtectedPostPassword_process slug prev formData p :
  let outcome := Actions.verifyProtectedPostPassword h generatedPosts slug prev formData p in
  (outcome.2 = p
   ∧ (∃ entry, postOf generatedPosts slug = Some entry)
   ∧ ((∃ state, outcome.1 = Js.Return state)
      ∨ (Js.headerValue ("protected-post-" +:+ slug) = false
         ∧ ∃ message, outcome.1 = Js.Throw (Js.Error message)))
   ∧ ∀ state, outcome.1 = Js.Return state →
              Actions.success state = Some true →
              state = granted (default "" (Actions.content state))
              ∧ ∃ entry, postOf generatedPosts slug = Some entry
                         ∧ fm_access (Generated.frontmatter entry) ≠ protected
                         ∧ Actions.content state = Some (Generated.content entry))
  ∨ (∃ entry pw, postOf generatedPosts slug = Some entry
                 ∧ fm_access (Generated.frontmatter entry) = protected
                 ∧ password (Generated.frontmatter entry) = Some pw ∧ pw ≠ ""
                 ∧ outcome = (Js.Return (granted (Generated.content entry)),
                              withCookie p (Actions.protectedCookieName slug) (credential h pw)))
  ∨ (postOf generatedPosts slug = None
     ∧ outcome = (Js.Throw Js.NotFound, logged p [fetchFailure h slug])).
Proof.
  intros outcome. subst outcome.
  destruct (postOf generatedPosts slug) as [entry|] eqn:Hfind.
  - assert (Hreturns : ∀ state : Actions.ProtectedPostActionState,
              Actions.success state ≠ Some true →
              (Js.Return state, p).2 = p
              ∧ (∃ entry', Some entry = Some entry')
              ∧ ((∃ state', (Js.Return state, p).1 = Js.Return state')
                 ∨ (Js.headerValue ("protected-post-" +:+ slug) = false
                    ∧ ∃ message, (Js.Return state, p).1 = Js.Throw (Js.Error message)))
              ∧ ∀ state', (Js.Return state, p).1 = Js.Return state' →
                          Actions.success state' = Some true →
                          state' = granted (default "" (Actions.content state'))
                          ∧ ∃ entry', Some entry = Some entry'
                                      ∧ fm_access (Generated.frontmatter entry') ≠ protected
                                      ∧ Actions.content state'
                                        = Some (Generated.content entry')).
    { intros state Hno. split; [reflexivity|]. split; [eexists; reflexivity|].
      split; [left; eexists; reflexivity|].
      simpl. intros state' [= <-] Hyes. contradiction. }
    destruct (decide (fm_access (Generated.frontmatter entry) = protected)) as [Haccess|Haccess].
    + destruct (password (Generated.frontmatter entry)) as [pw|] eqn:Hpw.
      * destruct (decide (pw = "")) as [->|Hne].
        { left. unfold Actions.verifyProtectedPostPassword, bind.
          rewrite (getPostBySlug_found _ _ _ _ _ Hfind). simpl. rewrite Haccess, Hpw.
          apply Hreturns. discriminate. }
        rewrite (verifyProtectedPostPassword_run h generatedPosts slug prev formData entry pw p
                   Hfind Haccess Hpw Hne).
        destruct (Actions.formDataGet formData "password") as [[input|file]|];
          try (left; apply Hreturns; discriminate).
        destruct (String.length input =? 0)%nat; [left; apply Hreturns; discriminate|].
        destruct (negb _); [left; apply Hreturns; discriminate|].
        destruct (Js.headerValue ("protected-post-" +:+ slug)) eqn:Hsafe.
        -- right. left. exists entry, pw. repeat split; try assumption.
        -- left. split; [reflexivity|]. split; [eexists; reflexivity|].
           split; [right; split; [reflexivity | eexists; reflexivity]|].
           simpl. discriminate.
      * left. unfold Actions.verifyProtectedPostPassword, bind.
        rewrite (getPostBySlug_found _ _ _ _ _ Hfind). simpl. rewrite Haccess, Hpw.
        apply Hreturns. discriminate.
    + left. unfold Actions.verifyProtectedPostPassword, bind.
      rewrite (getPostBySlug_found _ _ _ _ _ Hfind). simpl.
      rewrite bool_decide_eq_false_2 by exact Haccess. simpl.
      split; [reflexivity|]. split; [eexists; reflexivity|].
      split; [left; eexists; reflexivity|].
      intros state [= <-] _. split; [reflexivity|].
      exists entry. repeat split; assumption.
  - right. right. split; [reflexivity|].
    unfold Actions.verifyProtectedPostPassword, bind.
    rewrite (getPostBySlug_absent _ _ Hfind). reflexivity.
Qed.

(** What [loadProtectedPost] answers depends on the request through the
    cookie of the post only. *)
Lemma loadProtectedPost_reads_one_cookie slug p q :
  cookieStore p !! Actions.protectedCookieName slug
  = cookieStore q !! Actions.protectedCookieName slug →
  (Actions.loadProtectedPost h generatedPosts slug p).1
  = (Actions.loadProtectedPost h generatedPosts slug q).1.
Proof.
  intros Hcookie.
  destruct (postOf generatedPosts slug) as [entry|] eqn:Hfind;
    unfold Actions.loadProtectedPost, bind.
  - rewrite !(getPostBySlug_found _ _ _ _ _ Hfind). simpl.
    destruct (negb (bool_decide (fm_access (Generated.frontmatter entry) = protected)));
      [reflexivity|].
    destruct (Actions.falsy (password (Generated.frontmatter entry))); [reflexivity|].
    unfold Actions.hasProtectedAccess, cookieGet, bind, ret. rewrite Hcookie.
    destruct (negb _); reflexivity.
  - rewrite !(getPostBySlug_absent _ _ Hfind). reflexivity.
Qed.

(** X1.  Whatever the post and the form: when
    [verifyProtectedPostPassword] answers with success, [loadProtectedPost]
    of the same slug, run on the process it left (the next request carries
    the cookie that was set), answers with the same state, the content
    included, and changes nothing. *)
Theorem load_after_unlock slug prev formData p state p' :
  Actions.verifyProtectedPostPassword h generatedPosts slug prev formData p
  = (Js.Return state, p') →
  Actions.success state = Some true →
  Actions.loadProtectedPost h generatedPosts slug p' = (Js.Return state, p').
Proof.
  intros Hverify Hsuccess.
  destruct (verifyProtectedPostPassword_process slug prev formData p)
    as [(Hsame & _ & _ & Hstate)
       | [(entry & pw & Hfind & Haccess & Hpw & Hne & Hrun) | [_ Hrun]]];
    rewrite Hverify in *; simpl in *.
  - subst p'. destruct (Hstate state eq_refl Hsuccess) as (_ & entry & Hfind & Haccess & Hcontent).
    unfold Actions.loadProtectedPost, bind.
    rewrite (getPostBySlug_found _ _ _ _ _ Hfind). simpl.
    rewrite bool_decide_eq_false_2 by exact Haccess. simpl.
    destruct state as [success error content]. simpl in *.
    destruct (Hstate _ eq_refl Hsuccess) as [Hshape _]. simpl in Hshape.
    rewrite Hshape, Hcontent. reflexivity.
  - injection Hrun as -> ->.
    exact (load_after_verify h generatedPosts slug entry pw p Hfind Haccess Hpw Hne).
  - discriminate Hrun.
Qed.

(** X2.  [verifyProtectedPostPassword] sets no cookie unless it answers
    with success, and it never touches a cookie but [protected-post-<slug>]:
    whatever the post, the form and the cookies of the request, the cookie
    store it leaves is the one it found, or the state it returned has
    [success: true]; and every cookie of another name is as it was. *)
Theorem verify_sets_only_its_cookie slug prev formData p :
  let outcome := Actions.verifyProtectedPostPassword h generatedPosts slug prev formData p in
  (cookieStore outcome.2 = cookieStore p
   ∨ ∃ content, outcome.1 = Js.Return (granted content))
  ∧ (∀ state, outcome.1 = Js.Return state → Actions.success state ≠ Some true →
       outcome.2 = p)
  ∧ (∀ name, name ≠ Actions.protectedCookieName slug →
       cookieStore outcome.2 !! name = cookieStore p !! name).
Proof.
  intros outcome.
  destruct (verifyProtectedPostPassword_process slug prev formData p)
    as [(Hsame & _ & _ & _)
       | [(entry & pw & Hfind & Haccess & Hpw & Hne & Hrun) | [_ Hrun]]];
    fold outcome in Hsame || fold outcome in Hrun.
  - rewrite Hsame. split; [left; reflexivity|]. split; [reflexivity|]. reflexivity.
  - rewrite Hrun. simpl. split; [right; eexists; reflexivity|]. split.
    + intros state [= <-] Hno. exfalso. apply Hno. reflexivity.
    + intros name Hname. apply lookup_insert_ne. congruence.
  - rewrite Hrun. simpl. split; [left; reflexivity|]. split; [discriminate|]. reflexivity.
Qed.

(** X3.  A credential is good for its post only: after
    [verifyProtectedPostPassword] for [slug], whatever it answered,
    [loadProtectedPost] of another slug answers what it answered before. *)
Theorem unlock_is_per_post slug slug' prev formData p :
  slug ≠ slug' →
  let p' := (Actions.verifyProtectedPostPassword h generatedPosts slug prev formData p).2 in
  (Actions.loadProtectedPost h generatedPosts slug' p').1
  = (Actions.loadProtectedPost h generatedPosts slug' p).1.
Proof.
  intros Hslug p'. apply loadProtectedPost_reads_one_cookie. subst p'.
  destruct (verifyProtectedPostPassword_process slug prev formData p)
    as [(Hsame & _ & _ & _)
       | [(entry & pw & Hfind & Haccess & Hpw & Hne & Hrun) | [_ Hrun]]].
  - rewrite Hsame. reflexivity.
  - rewrite Hrun. simpl. apply lookup_insert_ne.
    intros Heq. apply Hslug. exact (protectedCookieName_inj _ _ Heq).
  - rewrite Hrun. reflexivity.
Qed.

(** X4.  [notFound()] is the answer of the two actions for a slug without
    post in the snapshot, and for no other: it comes after one
    [console.error] that names the slug and the path of its file, and the
    cookie store is neither read nor written.  For a slug with a post,
    [loadProtectedPost] returns a state and leaves the process as it was;
    [verifyProtectedPostPassword] writes nothing to the console, and it
    returns a state unless the name [protected-post-<slug>] cannot stand in
    a header: only then can it throw, the TypeError of [cookies().set],
    and the process is left as it was. *)
Theorem actions_not_found_iff_missing slug prev formData p :
  let loaded := Actions.loadProtectedPost h generatedPosts slug p in
  let verified := Actions.verifyProtectedPostPassword h generatedPosts slug prev formData p in
  match postOf generatedPosts slug with
  | None =>
      loaded = (Js.Throw Js.NotFound, logged p [fetchFailure h slug])
      ∧ verified = (Js.Throw Js.NotFound, logged p [fetchFailure h slug])
  | Some _ =>
      (∃ state, loaded = (Js.Return state, p))
      ∧ console verified.2 = console p
      ∧ ((∃ state, verified.1 = Js.Return state)
         ∨ (Js.headerValue ("protected-post-" +:+ slug) = false
            ∧ ∃ message, verified = (Js.Throw (Js.Error message), p)))
  end.
Proof.
  intros loaded verified.
  destruct (postOf generatedPosts slug) as [entry|] eqn:Hfind.
  - split.
    + subst loaded. unfold Actions.loadProtectedPost, bind.
      rewrite (getPostBySlug_found _ _ _ _ _ Hfind). simpl.
      destruct (negb (bool_decide (fm_access (Generated.frontmatter entry) = protected)));
        [eexists; reflexivity|].
      destruct (Actions.falsy (password (Generated.frontmatter entry)));
        [eexists; reflexivity|].
      unfold Actions.hasProtectedAccess, cookieGet, bind, ret.
      destruct (negb _); eexists; reflexivity.
    + destruct (verifyProtectedPostPassword_process slug prev formData p)
        as [(Hsame & _ & Hkind & _) | [(entry' & pw & _ & _ & _ & _ & Hrun) | [Hnone _]]];
        fold verified in Hsame, Hkind || fold verified in Hrun || idtac.
      * rewrite Hsame. split; [reflexivity|].
        destruct Hkind as [Hreturns | [Hunsafe [message Hthrows]]]; [left; exact Hreturns|].
        right. split; [exact Hunsafe|]. exists message.
        destruct verified as [completion after]. simpl in *. congruence.
      * rewrite Hrun. split; [reflexivity|]. left. eexists. reflexivity.
      * congruence.
  - split.
    + subst loaded. unfold Actions.loadProtectedPost, bind.
      rewrite (getPostBySlug_absent _ _ Hfind). reflexivity.
    + subst verified. unfold Actions.verifyProtectedPostPassword, bind.
      rewrite (getPostBySlug_absent _ _ Hfind). reflexivity.
Qed.

End GateFacts.

(** ** The snapshot: listing and fetching *)

Section SnapshotFacts.
Context (h : Host) (generatedPosts : list SerializedPostEntry).

Lemma postOf_Some slug entry :
  postOf generatedPosts slug = Some entry →
  entry ∈ generatedPosts ∧ Generated.slug entry = slug.
Proof.
  unfold postOf. intros Hfind. apply find_some in Hfind as [Hin Heq].
  split; [apply list_elem_of_In; exact Hin | apply String.eqb_eq; exact Heq].
Qed.

Lemma postOf_None slug :
  postOf generatedPosts slug = None → slug ∉ Generated.slug <$> generatedPosts.
Proof.
  unfold postOf. intros Hfind (entry & -> & Hin)%list_elem_of_fmap.
  apply list_elem_of_In in Hin.
  pose proof (find_none _ _ Hfind _ Hin) as Hne. simpl in Hne.
  rewrite String.eqb_refl in Hne. discriminate.
Qed.

Lemma postOf_NoDup entry :
  NoDup (Generated.slug <$> generatedPosts) → entry ∈ generatedPosts →
  postOf generatedPosts (Generated.slug entry) = Some entry.
Proof.
  unfold postOf. induction generatedPosts as [|first rest IH]; intros Hdup Hin.
  - inversion Hin.
  - rewrite fmap_cons in Hdup. apply NoDup_cons in Hdup as [Hfirst Hrest]. simpl.
    destruct (String.eqb (Generated.slug first) (Generated.slug entry)) eqn:Heq.
    + apply String.eqb_eq in Heq. apply elem_of_cons in Hin as [->|Hin]; [reflexivity|].
      exfalso. apply Hfirst. rewrite Heq. apply list_elem_of_fmap. exists entry. auto.
    + apply elem_of_cons in Hin as [->|Hin].
      * rewrite String.eqb_refl in Heq. discriminate.
      * apply IH; assumption.
Qed.

(** X5.  The listing and the single fetch of the snapshot agree.  For a
    snapshot that is not empty and has no slug twice, [listPosts] returns
    its posts and writes nothing; [getPostBySlug] of the slug of a listed
    post returns the frontmatter the listing shows for it; and a slug of no
    listed post is answered by [notFound()]. *)
Theorem listed_posts_are_fetched p :
  generatedPosts ≠ [] →
  NoDup (Generated.slug <$> generatedPosts) →
  ∃ posts,
    Posts.listPosts h generatedPosts p = (Js.Return posts, p)
    ∧ entrySlug <$> posts = Generated.slug <$> generatedPosts
    ∧ (∀ post, post ∈ posts →
         ∃ content, Posts.getPostBySlug h generatedPosts (entrySlug post) p
                    = (Js.Return (frontmatter post, content), p))
    ∧ (∀ slug, slug ∉ entrySlug <$> posts →
         Posts.getPostBySlug h generatedPosts slug p
         = (Js.Throw Js.NotFound, logged p [fetchFailure h slug])).
Proof.
  intros Hne Hdup. exists (Posts.restoreEntry h <$> generatedPosts).
  assert (Hslugs : entrySlug <$> (Posts.restoreEntry h <$> generatedPosts)
                   = Generated.slug <$> generatedPosts).
  { rewrite <- list_fmap_compose. reflexivity. }
  split; [|split; [exact Hslugs|split]].
  - unfold Posts.listPosts, Posts.listPostsCached, bind.
    destruct generatedPosts; [contradiction|reflexivity].
  - intros post (entry & -> & Hin)%list_elem_of_fmap.
    exists (Generated.content entry). simpl.
    exact (getPostBySlug_found h generatedPosts _ entry p (postOf_NoDup entry Hdup Hin)).
  - intros slug Hout. rewrite Hslugs in Hout.
    apply getPostBySlug_absent.
    destruct (postOf generatedPosts slug) as [entry|] eqn:Hfind; [|reflexivity].
    apply postOf_Some in Hfind as [Hin <-]. exfalso. apply Hout.
    apply list_elem_of_fmap. exists entry. auto.
Qed.

End SnapshotFacts.

(** ** Dates, written and read back *)

Section DateFacts.
Context (h : Host).

Lemma toISOString_valid d t :
  getTime d = Some t → ∃ s, IsoDate.toISOString d = Js.Return s ∧ s ≠ "".
Proof.
  intros Htime. unfold IsoDate.toISOString. rewrite Htime.
  destruct (IsoDate.civilFromDays (t / IsoDate.msPerDay)) as [[y m] dd].
  eexists. split; [reflexivity|].
  intros [_ Hrest]%app_eq_nil_string.
  apply app_eq_nil_string in Hrest as [Hdash _]. discriminate Hdash.
Qed.

(** What [serializeFrontmatter] writes, [restoreDates] reads back. *)
Lemma serialize_restored (f : Frontmatter) :
  (∀ d, date f = Some d → is_Some (getTime d)) →
  (∀ d s, date f = Some d → IsoDate.toISOString d = Js.Return s →
          Date_parse h s = getTime d) →
  ∃ serialized,
    GenerateContent.serializeFrontmatter f = Js.Return serialized
    ∧ Posts.restoreDates h serialized = f.
Proof.
  intros Hvalid Hread. unfold GenerateContent.serializeFrontmatter.
  destruct f as [t a pw de th to [d|]]; simpl in *.
  - destruct (Hvalid d eq_refl) as [time Htime].
    destruct (toISOString_valid d time Htime) as (s & Hs & Hne).
    rewrite Hs. eexists. split; [reflexivity|].
    unfold Posts.restoreDates, withDate. simpl.
    rewrite decide_False by exact Hne.
    rewrite (Hread d s eq_refl Hs). destruct d. reflexivity.
  - eexists. split; reflexivity.
Qed.

(** X6.  What [serializeFrontmatter] writes, [restoreDates] of the snapshot
    reads back.  For a frontmatter whose date, if it has one, is a valid
    date that [new Date(s)] of the host reads back from its ISO string,
    [serializeFrontmatter] returns, and [restoreDates] of what it returned
    is the frontmatter it was given: title, access, password,
    description, thumbnail and topics as they were, and the date at the
    same instant (none when there was none).  [serializeFrontmatter]
    throws on a frontmatter whose date is an invalid date, and on no
    other. *)
Theorem serialize_then_restore (f : Frontmatter) :
  (∀ d, date f = Some d → is_Some (getTime d)) →
  (∀ d s, date f = Some d → IsoDate.toISOString d = Js.Return s →
          Date_parse h s = getTime d) →
  (∃ serialized,
     GenerateContent.serializeFrontmatter f = Js.Return serialized
     ∧ Posts.restoreDates h serialized = f
     ∧ (date serialized = None ↔ date f = None)
     ∧ date serialized ≠ Some "")
  ∧ ∀ g e, GenerateContent.serializeFrontmatter g = Js.Throw e →
           e = Js.Error "Invalid time value" ∧ ∃ d, date g = Some d ∧ getTime d = None.
Proof.
  intros Hvalid Hread. split.
  - destruct (serialize_restored f Hvalid Hread) as (serialized & Hs & Hrestored).
    exists serialized. split; [exact Hs|]. split; [exact Hrestored|].
    revert Hs. unfold GenerateContent.serializeFrontmatter.
    destruct (date f) as [d|] eqn:Hdate.
    + destruct (Hvalid d eq_refl) as [time Htime].
      destruct (toISOString_valid d time Htime) as (s & -> & Hne).
      intros [= <-]. simpl. split; [split; discriminate|]. congruence.
    + intros [= <-]. simpl. split; [tauto | discriminate].
  - intros g e. unfold GenerateContent.serializeFrontmatter.
    destruct (date g) as [d|] eqn:Hdate; [|discriminate].
    unfold IsoDate.toISOString. destruct (getTime d) as [t|] eqn:Htime.
    + destruct (IsoDate.civilFromDays (t / IsoDate.msPerDay)) as [[y m] dd]. discriminate.
    + intros [= <-]. split; [reflexivity|]. exists d. auto.
Qed.

End DateFacts.

(** ** Trimming, splitting and joining *)

Section Trimming.

Lemma rev_app_acc (s acc : string) : String.rev_app s acc = String.rev s +:+ acc.
Proof.
  unfold String.rev. revert acc. induction s as [|c s IH]; intros acc; [reflexivity|].
  simpl. rewrite IH, (IH (String c "")), app_assoc_string. reflexivity.
Qed.

Lemma rev_cons_string (c : ascii) (s : string) :
  String.rev (String c s) = String.rev s +:+ String c "".
Proof. unfold String.rev at 1. simpl. apply rev_app_acc. Qed.

Lemma rev_app_string (a b : string) : String.rev (a +:+ b) = String.rev b +:+ String.rev a.
Proof.
  induction a as [|c a IH].
  - rewrite app_nil_l_string. change (String.rev "") with "". rewrite app_nil_r_string.
    reflexivity.
  - rewrite app_cons_string, !rev_cons_string, IH, app_assoc_string. reflexivity.
Qed.

Lemma rev_rev_string (s : string) : String.rev (String.rev s) = s.
Proof.
  induction s as [|c s IH]; [reflexivity|].
  rewrite rev_cons_string, rev_app_string, IH. reflexivity.
Qed.

Lemma length_app_string (a b : string) :
  String.length (a +:+ b) = (String.length a + String.length b)%nat.
Proof.
  induction a as [|c a IH]; [rewrite app_nil_l_string; reflexivity|].
  rewrite app_cons_string. simpl. rewrite IH. reflexivity.
Qed.

Lemma length_rev_string (s : string) : String.length (String.rev s) = String.length s.
Proof.
  induction s as [|c s IH]; [reflexivity|].
  rewrite rev_cons_string, length_app_string, IH. simpl. lia.
Qed.

Lemma prefix_app_mono (t a b : string) :
  String.prefix t a = true → String.prefix t (a +:+ b) = true.
Proof.
  revert a. induction t as [|c t IH]; intros a; [intros _; apply prefix_nil|].
  destruct a as [|d a]; [discriminate|].
  rewrite app_cons_string, !prefix_cons.
  intros [Hc Ht]%andb_prop. rewrite Hc. simpl. apply IH. exact Ht.
Qed.

Lemma length_drop (n : nat) (s : string) :
  (String.length (Js.drop n s) ≤ String.length s)%nat.
Proof.
  revert s. induction n as [|n IH]; intros s; [destruct s; simpl; lia|].
  destruct s as [|c s]; simpl; [lia|]. specialize (IH s). lia.
Qed.

Lemma drop_suffix (n : nat) (s : string) : ∃ before, s = before +:+ Js.drop n s.
Proof.
  revert s. induction n as [|n IH]; intros s.
  - exists "". destruct s; reflexivity.
  - destruct s as [|c s]; [exists ""; reflexivity|].
    destruct (IH s) as [before Hs]. exists (String c before).
    rewrite app_cons_string. simpl. rewrite <- Hs. reflexivity.
Qed.

Lemma leadingSpace_None toks s : noLeading toks s ↔ Js.leadingSpace toks s = None.
Proof.
  unfold Js.leadingSpace, noLeading. split.
  - intros Hnone. destruct (find _ toks) as [t|] eqn:Hfind; [|reflexivity].
    apply find_some in Hfind as [Hin Hpre]. apply list_elem_of_In in Hin.
    rewrite (Hnone t Hin) in Hpre. discriminate.
  - intros Hnone t Hin. destruct (find _ toks) as [t'|] eqn:Hfind; [discriminate|].
    apply list_elem_of_In in Hin. exact (find_none _ _ Hfind t Hin).
Qed.

Lemma leadingSpace_Some toks s n :
  Js.leadingSpace toks s = Some n →
  ∃ t, t ∈ toks ∧ String.prefix t s = true ∧ String.length t = n.
Proof.
  unfold Js.leadingSpace. destruct (find _ toks) as [t|] eqn:Hfind; [|discriminate].
  intros [= <-]. apply find_some in Hfind as [Hin Hpre]. apply list_elem_of_In in Hin.
  exists t. auto.
Qed.

Lemma stripSpaces_fixed toks fuel s : noLeading toks s → Js.stripSpaces toks fuel s = s.
Proof.
  intros Hnone%leadingSpace_None. destruct fuel; simpl; [reflexivity|].
  rewrite Hnone. reflexivity.
Qed.

Lemma stripSpaces_stops toks fuel s :
  Forall (fun t => t ≠ "") toks → (String.length s ≤ fuel)%nat →
  noLeading toks (Js.stripSpaces toks fuel s).
Proof.
  intros Htoks. rewrite Forall_forall in Htoks.
  revert s. induction fuel as [|fuel IH]; intros s Hlen.
  - destruct s; [|simpl in Hlen; lia]. simpl. intros t Hin.
    destruct t; [exfalso; exact (Htoks _ Hin eq_refl) | reflexivity].
  - simpl. destruct (Js.leadingSpace toks s) as [[|n]|] eqn:Hlead.
    + apply leadingSpace_Some in Hlead as (t & Hin & _ & Hzero).
      destruct t; [|discriminate]. exfalso. exact (Htoks _ Hin eq_refl).
    + apply IH. apply leadingSpace_Some in Hlead as (t & _ & Hpre & Hsize).
      destruct s as [|c s]; [destruct t; discriminate|].
      simpl in *. pose proof (length_drop n s). lia.
    + apply leadingSpace_None. exact Hlead.
Qed.

Lemma stripSpaces_suffix toks fuel s : ∃ before, s = before +:+ Js.stripSpaces toks fuel s.
Proof.
  revert s. induction fuel as [|fuel IH]; intros s; [exists ""; reflexivity|].
  cbn [Js.stripSpaces].
  destruct (Js.leadingSpace toks s) as [[|n]|]; try (exists ""; reflexivity).
  destruct (drop_suffix (S n) s) as [b1 H1].
  destruct (IH (Js.drop (S n) s)) as [b2 H2].
  exists (b1 +:+ b2). rewrite app_assoc_string, <- H2. exact H1.
Qed.

Lemma whitespace_nonempty : Forall (fun t => t ≠ "") Js.whitespace.
Proof. apply (bool_decide_unpack _). vm_compute. exact I. Qed.

Lemma whitespace_rev_nonempty : Forall (fun t => t ≠ "") (String.rev <$> Js.whitespace).
Proof. apply (bool_decide_unpack _). vm_compute. exact I. Qed.

Lemma trimStart_stops s : noLeading Js.whitespace (Js.trimStart s).
Proof. apply stripSpaces_stops; [exact whitespace_nonempty | lia]. Qed.

(** What [trim] returns has no white space at its head nor at its end. *)
Lemma trim_stops s :
  noLeading Js.whitespace (Js.trim s)
  ∧ noLeading (String.rev <$> Js.whitespace) (String.rev (Js.trim s)).
Proof.
  unfold Js.trim, Js.trimEnd. set (s1 := Js.trimStart s).
  set (r := Js.stripSpaces (String.rev <$> Js.whitespace) (String.length s1) (String.rev s1)).
  assert (Hr : noLeading (String.rev <$> Js.whitespace) r).
  { apply stripSpaces_stops; [exact whitespace_rev_nonempty|].
    rewrite length_rev_string. lia. }
  split; [|rewrite rev_rev_string; exact Hr].
  destruct (stripSpaces_suffix (String.rev <$> Js.whitespace) (String.length s1)
              (String.rev s1)) as [before Hsuffix].
  fold r in Hsuffix.
  assert (Hs1 : s1 = String.rev r +:+ String.rev before).
  { rewrite <- rev_app_string, <- Hsuffix, rev_rev_string. reflexivity. }
  intros t Hin. destruct (String.prefix t (String.rev r)) eqn:Hpre; [|reflexivity].
  pose proof (trimStart_stops s t Hin) as Hnone. fold s1 in Hnone.
  rewrite Hs1, (prefix_app_mono _ _ _ Hpre) in Hnone. discriminate.
Qed.

Lemma trim_fixed s :
  noLeading Js.whitespace s → noLeading (String.rev <$> Js.whitespace) (String.rev s) →
  Js.trim s = s.
Proof.
  intros Hhead Hend. unfold Js.trim, Js.trimStart, Js.trimEnd.
  rewrite (stripSpaces_fixed _ _ _ Hhead), (stripSpaces_fixed _ _ _ Hend).
  apply rev_rev_string.
Qed.

Lemma trim_idempotent s : Js.trim (Js.trim s) = Js.trim s.
Proof. apply trim_fixed; apply trim_stops. Qed.

Lemma join_split (sep : ascii) (s : string) : Js.join (String sep "") (Js.split sep s) = s.
Proof.
  unfold Js.join. induction s as [|c s IH]; [reflexivity|].
  simpl. destruct (Ascii.eqb_spec c sep) as [->|Hc].
  - destruct (Js.split sep s) as [|first rest] eqn:Hsplit;
      [exfalso; exact (split_nonempty _ _ Hsplit)|].
    change (String.concat (String sep "") ("" :: first :: rest))
      with ("" +:+ String sep "" +:+ String.concat (String sep "") (first :: rest)).
    rewrite IH. reflexivity.
  - destruct (Js.split sep s) as [|first rest] eqn:Hsplit;
      [exfalso; exact (split_nonempty _ _ Hsplit)|].
    destruct rest as [|second rest].
    + simpl in *. rewrite IH. reflexivity.
    + change (String.concat (String sep "") (String c first :: second :: rest))
        with (String c first +:+ String sep ""
              +:+ String.concat (String sep "") (second :: rest)).
      change (String.concat (String sep "") (first :: second :: rest))
        with (first +:+ String sep "" +:+ String.concat (String sep "") (second :: rest))
        in IH.
      rewrite app_cons_string, IH. reflexivity.
Qed.

End Trimming.

(** X7.  [normalizeSlug] is idempotent: a slug it returns is returned
    unchanged when it is normalized again.  What it returns has no white
    space at its head nor at its end, is not empty, "." or "..", and holds
    neither a slash nor a backslash. *)
Theorem normalizeSlug_idempotent slug cleaned :
  Discovery.normalizeSlug slug = Js.Return cleaned →
  Discovery.normalizeSlug cleaned = Js.Return cleaned
  ∧ Js.trim cleaned = cleaned
  ∧ ¬ refusedSlug cleaned.
Proof.
  intros [-> Haccepted]%normalizeSlug_returns.
  pose proof (trim_idempotent slug) as Htrim.
  split; [|split; assumption].
  rewrite <- Htrim at 2. apply normalizeSlug_accepts. rewrite Htrim. exact Haccepted.
Qed.

(** X8.  [toPosixPath] returns its argument: where [path.sep] is "/",
    splitting at the separator and joining with "/" changes no path, so
    that the [path] of a post is what [path.join] made of its content
    directory, its slug and "index.md". *)
Theorem toPosixPath_identity (h : Host) (postsRoot slug filePath : string) :
  Discovery.toPosixPath filePath = filePath
  ∧ (∀ entry,
       fulfilled (settled (LivePosts.readEntry h postsRoot slug)) = Some entry →
       entryPath entry = Path.join [LivePosts.contentDir h; slug; "index.md"])
  ∧ (∀ entry,
       fulfilled (settled (GenerateContent.readEntry h postsRoot slug)) = Some entry →
       Generated.path entry
       = Path.join [GenerateContent.contentDir h; GenerateContent.postsRootDir h; slug;
                    "index.md"]).
Proof.
  assert (Hid : ∀ p, Discovery.toPosixPath p = p) by (intros p; apply (join_split "/")).
  split; [apply Hid|]. split; intros entry.
  - unfold settled, LivePosts.readEntry, bind, lift, ret. simpl.
    destruct (LivePosts.resolvePostFilePath h postsRoot slug) as [file|e]; [|discriminate].
    destruct (readFile (fs h) file) as [raw|e]; [|discriminate].
    destruct (parsePost h raw) as [parsed|e]; [|discriminate].
    simpl. intros [= <-]. simpl. apply Hid.
  - unfold settled, GenerateContent.readEntry, bind, lift, ret. simpl.
    destruct (GenerateContent.resolvePostFilePath h postsRoot slug) as [file|e];
      [|discriminate].
    destruct (readFile (fs h) file) as [raw|e]; [|discriminate].
    destruct (parsePost h raw) as [parsed|e]; [|discriminate]. simpl.
    destruct (GenerateContent.serializeFrontmatter parsed.1) as [serialized|e];
      [|discriminate].
    simpl. intros [= <-]. simpl. apply Hid.
Qed.

(** ** The file of a discovered slug *)

Section PathFacts.

Lemma segments_slash allow d : Path.segments allow (d +:+ "/") = Path.segments allow d.
Proof.
  unfold Path.segments. change (d +:+ "/") with (d +:+ String "/" "").
  rewrite split_app, fold_left_app. simpl. apply step_empty.
Qed.

Lemma segments_file allow root name :
  Js.includes name "/" = false → proper name →
  Path.segments allow (root +:+ "/" +:+ (name +:+ "/" +:+ "index.md"))
  = "index.md" :: name :: Path.segments allow root.
Proof.
  intros Hslash Hproper. unfold Path.segments.
  change (root +:+ "/" +:+ (name +:+ "/" +:+ "index.md"))
    with (root +:+ String "/" (name +:+ String "/" "index.md")).
  rewrite !split_app, (split_without "/" name Hslash), !fold_left_app. simpl.
  rewrite (step_proper _ _ name Hproper).
  apply step_proper. repeat split; discriminate.
Qed.

Lemma endsWithSlash_file root name :
  Path.endsWithSlash (root +:+ "/" +:+ (name +:+ "/" +:+ "index.md")) = false.
Proof.
  unfold Path.endsWithSlash. rewrite !rev_app_string.
  change (String.rev "index.md") with "dm.xedni".
  rewrite !app_assoc_string. reflexivity.
Qed.

Lemma file_nonempty root name : root +:+ "/" +:+ (name +:+ "/" +:+ "index.md") ≠ "".
Proof. intros [_ Hrest]%app_eq_nil_string. discriminate Hrest. Qed.

Lemma startsWith_slash_cons root :
  Js.startsWith root "/" = true → ∃ rest, root = String "/" rest.
Proof.
  destruct root as [|c rest]; [discriminate|].
  unfold Js.startsWith. rewrite prefix_cons. intros [Hc _]%andb_prop.
  apply Ascii.eqb_eq in Hc as <-. exists rest. reflexivity.
Qed.

(** Under an absolute root, [path.join] and [path.resolve] make the same
    path of a slug that [normalizeSlug] accepts. *)
Lemma join_child root name :
  Js.startsWith root "/" = true → proper name → Js.includes name "/" = false →
  Path.join [root; name; "index.md"]
  = "/" +:+ Js.join "/" (rev (Path.segments false root) ++ [name; "index.md"]).
Proof.
  intros Habs Hproper Hslash.
  destruct (startsWith_slash_cons root Habs) as [rest ->].
  destruct Hproper as (Hne & Hdot & Hdots).
  unfold Path.join. simpl List.filter.
  rewrite (proj2 (String.eqb_neq name "") Hne). simpl negb. cbv iota.
  change (Js.join "/" [String "/" rest; name; "index.md"])
    with (String "/" rest +:+ "/" +:+ (name +:+ "/" +:+ "index.md")).
  unfold Path.normalize.
  rewrite decide_False by apply file_nonempty.
  rewrite endsWithSlash_file.
  assert (Js.startsWith (String "/" rest +:+ "/" +:+ (name +:+ "/" +:+ "index.md")) "/"
          = true) as ->.
  { unfold Js.startsWith. rewrite app_cons_string, prefix_cons, prefix_nil. reflexivity. }
  simpl negb. unfold Path.normalizeString.
  rewrite segments_file by (try assumption; repeat split; assumption).
  change (rev ("index.md" :: name :: Path.segments false (String "/" rest)))
    with ((rev (Path.segments false (String "/" rest)) ++ [name]) ++ ["index.md"]).
  rewrite <- app_assoc. simpl app at 2.
  rewrite decide_False; [reflexivity|].
  apply join_nonempty; [intros [_ ?]%app_eq_nil; discriminate|].
  apply Forall_app. split; [apply Forall_rev, segments_nonempty|].
  repeat constructor; [exact Hne | discriminate].
Qed.

Lemma resolve_absolute cwd root :
  Js.startsWith root "/" = true →
  Path.resolve cwd [root] = "/" +:+ Js.join "/" (rev (Path.segments false root)).
Proof.
  intros Habs. unfold Path.resolve.
  change (rev [root] ++ [cwd]) with [root; cwd]. rewrite resolveLoop_cons.
  destruct (decide (root = "")) as [->|_]; [discriminate|].
  rewrite Habs. unfold Path.normalizeString. simpl negb.
  rewrite app_nil_r_string, segments_slash. reflexivity.
Qed.

Lemma resolve_child_absolute cwd root name :
  Js.startsWith root "/" = true → proper name → Js.includes name "/" = false →
  Path.resolve cwd [root; name; "index.md"]
  = "/" +:+ Js.join "/" (rev (Path.segments false root) ++ [name; "index.md"]).
Proof.
  intros Habs Hproper Hslash. unfold Path.resolve.
  rewrite (resolveLoop_child cwd root name (proj1 Hproper) Hslash).
  rewrite resolveLoop_cons.
  destruct (decide (root = "")) as [->|_]; [discriminate|].
  rewrite Habs. simpl fst. simpl snd. cbv iota beta. unfold Path.normalizeString. simpl negb.
  change (root +:+ "/" +:+ "") with (root +:+ "/").
  rewrite (segments_below false (root +:+ "/") name) by
    (try assumption; right; exists root; reflexivity).
  rewrite segments_slash.
  change (rev ("index.md" :: name :: Path.segments false root))
    with ((rev (Path.segments false root) ++ [name]) ++ ["index.md"]).
  rewrite <- app_assoc. reflexivity.
Qed.

Lemma startsWith_slash_stripped slug :
  Js.includes slug "/" = false →
  Js.startsWith slug "/" = false ∧ Js.stripLeadingSlash slug = slug.
Proof.
  intros Hslash. pose proof (startsWith_slash_without slug Hslash) as Hstart.
  split; [exact Hstart|].
  destruct slug as [|c rest]; [reflexivity|].
  rewrite includes_char_cons in Hslash. apply orb_false_elim in Hslash as [Hc _].
  apply Ascii.eqb_neq in Hc.
  destruct c as [[] [] [] [] [] [] [] []]; try reflexivity.
  exfalso. apply Hc. reflexivity.
Qed.

(** An accepted slug under an absolute root that is not the root directory
    passes the test of [resolvePostFilePath], and its file is the file
    [listPostSlugs] looks for. *)
Lemma resolvePostFilePath_accepted (h : Host) root slug :
  Js.startsWith root "/" = true →
  Path.resolve (cwd h) [root] ≠ "/" →
  Discovery.normalizeSlug slug = Js.Return slug →
  Discovery.resolvePostFilePath h root slug
  = Js.Return (Path.join [root; slug; Discovery.POST_ENTRY_FILENAME]).
Proof.
  intros Habs Hroot Hslug.
  pose proof (normalizeSlug_returns _ _ Hslug) as [_ Haccepted].
  apply accepted_proper in Haccepted as [Hproper Hslash].
  unfold Discovery.resolvePostFilePath, Discovery.POST_ENTRY_FILENAME.
  rewrite (proj2 (startsWith_slash_stripped slug Hslash)), Hslug.
  rewrite (join_child root slug Habs Hproper Hslash).
  rewrite (resolve_child_absolute (cwd h) root slug Habs Hproper Hslash).
  rewrite (resolve_absolute (cwd h) root Habs) in *.
  destruct (rev (Path.segments false root)) as [|first rest] eqn:Hsegs.
  { exfalso. apply Hroot. reflexivity. }
  replace ((first :: rest) ++ [slug; "index.md"])
    with (((first :: rest) ++ [slug]) ++ ["index.md"])
    by (rewrite <- app_assoc; reflexivity).
  rewrite join_snoc_ne by (intros [_ ?]%app_eq_nil; discriminate).
  rewrite join_snoc_ne by discriminate.
  unfold Js.startsWith, Path.sep.
  replace ("/" +:+ (Js.join "/" (first :: rest) +:+ "/" +:+ slug) +:+ "/" +:+ "index.md")
    with (("/" +:+ Js.join "/" (first :: rest) +:+ "/") +:+ (slug +:+ "/" +:+ "index.md"))
    by (rewrite !app_assoc_string; reflexivity).
  rewrite prefix_app. reflexivity.
Qed.

End PathFacts.

(** ** What discovery returns *)

Section DiscoveryResults.
Context (h : Host) (layout : string).

Lemma mapThrowing_inv {X Y} (f : X → Js.Completion Y) xs ys :
  Discovery.mapThrowing f xs = Js.Return ys →
  Forall2 (fun x y => f x = Js.Return y) xs ys.
Proof.
  revert ys. induction xs as [|x xs IH]; simpl; intros ys.
  - intros [= <-]. constructor.
  - destruct (f x) as [y|e] eqn:Hx; [|discriminate].
    destruct (Discovery.mapThrowing f xs) as [rest|e]; [|discriminate].
    intros [= <-]. constructor; [exact Hx | apply IH; reflexivity].
Qed.

(** [Promise.allSettled] never rejects, and its outcomes are those of the
    tasks. *)
Lemma allSettled_outcomes {X Y} (f : X → M Y) xs p :
  ∃ rs p', allSettled f xs p = (Js.Return rs, p')
           ∧ Forall2 (fun x r => ∃ q, (f x q).1 = r) xs rs.
Proof.
  revert p. induction xs as [|x xs IH]; intros p.
  - exists [], p. split; [reflexivity | constructor].
  - simpl. destruct (f x p) as [c p1] eqn:Hx.
    destruct (IH p1) as (rs & p' & Hrun & Hall).
    exists (c :: rs), p'. unfold bind, ret. rewrite Hrun.
    split; [reflexivity|]. constructor; [|exact Hall].
    exists p. rewrite Hx. reflexivity.
Qed.

Lemma firstRejection_inv {Y} (rs : list (Js.Completion Y)) ys :
  Discovery.firstRejection rs = Js.Return ys → rs = Js.Return <$> ys.
Proof.
  revert ys. induction rs as [|[y|e] rs IH]; simpl; intros ys.
  - intros [= <-]. reflexivity.
  - destruct (Discovery.firstRejection rs) as [rest|e]; [|discriminate].
    intros [= <-]. rewrite (IH rest eq_refl). reflexivity.
  - discriminate.
Qed.

Lemma probe_pushes postsRoot slug q found :
  (Discovery.probe h postsRoot slug q).1 = Js.Return (Some found) →
  found = slug ∧ hasEntryFile h postsRoot slug = true.
Proof.
  unfold Discovery.probe, hasEntryFile, tryCatch, bind, lift, ret.
  destruct (access (fs h) _) as [u|e]; simpl.
  - intros [= <-]. auto.
  - destruct (Js.instanceofError e); simpl; discriminate.
Qed.

(** The slugs [listPostSlugs] returns, one by one. *)
Lemma listPostSlugs_members postsRoot slugs p p' :
  Discovery.listPostSlugs h layout postsRoot p = (Js.Return slugs, p') →
  slugs ≠ []
  ∧ ∃ entries,
      readdir (fs h) postsRoot = Js.Return entries
      ∧ ∀ slug, slug ∈ slugs →
          hasEntryFile h postsRoot slug = true
          ∧ ∃ entry, entry ∈ entries ∧ Discovery.visibleDirectory entry = true
                     ∧ Discovery.normalizeSlug (name entry) = Js.Return slug.
Proof.
  unfold Discovery.listPostSlugs, Discovery.promiseAll, bind, lift.
  destruct (readdir (fs h) postsRoot) as [entries|e]; [|discriminate].
  destruct (Discovery.mapThrowing _ _) as [dirNames|e] eqn:Hnames; [|discriminate].
  destruct (allSettled_outcomes (Discovery.probe h postsRoot) dirNames p)
    as (rs & p1 & -> & Hprobes).
  destruct (Discovery.firstRejection rs) as [pushed|e] eqn:Hpushed; [|discriminate].
  apply firstRejection_inv in Hpushed as ->.
  apply mapThrowing_inv in Hnames.
  destruct (length (omap id pushed) =? 0)%nat eqn:Hlen; [discriminate|].
  intros [= <- <-]. split.
  - intros Hnil. pose proof (sort_Permutation (fun a b => Some (localeCompare h a b))
                               (omap id pushed)) as Hperm.
    rewrite Hnil in Hperm. apply Permutation_nil in Hperm.
    rewrite Hperm in Hlen. discriminate.
  - exists entries. split; [reflexivity|]. intros slug Hin.
    rewrite (sort_Permutation _ _) in Hin.
    apply list_elem_of_omap in Hin as (pushedSlug & Hin & Hsome).
    simpl in Hsome. subst pushedSlug.
    assert (Js.Return (Some slug) ∈ Js.Return <$> pushed) as Hr
      by (apply list_elem_of_fmap; exists (Some slug); auto).
    apply list_elem_of_lookup in Hr as [i Hi].
    destruct (Forall2_lookup_r _ _ _ _ _ Hprobes Hi) as (dirName & Hdir & q & Hq).
    apply probe_pushes in Hq as [-> Hfile]. split; [exact Hfile|].
    destruct (Forall2_lookup_r _ _ _ _ _ Hnames Hdir) as (entry & Hentry & Hslug).
    apply list_elem_of_lookup_2, list_elem_of_In, filter_In in Hentry as [Hentry Hvisible].
    exists entry. split; [apply list_elem_of_In; exact Hentry|]. auto.
Qed.

Lemma normalizeSlug_fixed slug cleaned :
  Discovery.normalizeSlug slug = Js.Return cleaned →
  Discovery.normalizeSlug cleaned = Js.Return cleaned.
Proof.
  intros [-> Haccepted]%normalizeSlug_returns.
  pose proof (trim_idempotent slug) as Htrim.
  rewrite <- Htrim at 2. apply normalizeSlug_accepts. rewrite Htrim. exact Haccepted.
Qed.

(** X9.  Whenever [listPostSlugs] returns, the list is not empty, and
    every slug of it is the trimmed name of a directory of the posts root
    whose name does not start with a dot, holds the entry file, and is a
    slug [normalizeSlug] returns as it is.  No assumption is made on the
    file system, on the collation or on the names. *)
Theorem listPostSlugs_sound postsRoot slugs p p' :
  Discovery.listPostSlugs h layout postsRoot p = (Js.Return slugs, p') →
  slugs ≠ []
  ∧ cookieStore p' = cookieStore p
  ∧ ∃ entries,
      readdir (fs h) postsRoot = Js.Return entries
      ∧ Forall (fun slug =>
                  hasEntryFile h postsRoot slug = true
                  ∧ Discovery.normalizeSlug slug = Js.Return slug
                  ∧ ∃ entry, entry ∈ entries ∧ isDirectory entry = true
                             ∧ Js.startsWith (name entry) "." = false
                             ∧ slug = Js.trim (name entry)) slugs.
Proof.
  intros Hrun.
  destruct (listPostSlugs_members _ _ _ _ Hrun) as (Hne & entries & Hdir & Hall).
  split; [exact Hne|]. split.
  - revert Hrun. unfold Discovery.listPostSlugs, Discovery.promiseAll, bind, lift.
    destruct (readdir (fs h) postsRoot) as [entries'|e]; [|discriminate].
    destruct (Discovery.mapThrowing _ _) as [dirNames|e]; [|discriminate].
    assert (∀ names q, cookieStore (allSettled (Discovery.probe h postsRoot) names q).2
                       = cookieStore q) as Hcookies.
    { induction names as [|dirName names IH]; intros q; [reflexivity|].
      simpl. unfold Discovery.probe at 1, tryCatch, bind, lift, ret.
      destruct (access (fs h) _) as [u|e]; simpl.
      - specialize (IH q). destruct (allSettled _ names q) as [[rs|e] q']; exact IH.
      - destruct (Js.instanceofError e); simpl.
        + match goal with
          | |- context [allSettled _ names ?q1] =>
              specialize (IH q1); destruct (allSettled _ names q1) as [[rs|e'] q']
          end; exact IH.
        + specialize (IH q). destruct (allSettled _ names q) as [[rs|e'] q']; exact IH. }
    specialize (Hcookies dirNames p).
    destruct (allSettled _ dirNames p) as [[rs|e] p1]; [|discriminate].
    destruct (Discovery.firstRejection rs) as [pushed|e]; [|discriminate].
    destruct (length _ =? 0)%nat; [discriminate|].
    intros [= _ <-]. exact Hcookies.
  - exists entries. split; [exact Hdir|]. apply Forall_forall. intros slug Hin.
    destruct (Hall slug Hin) as (Hfile & entry & Hentry & Hvisible & Hslug).
    split; [exact Hfile|]. split; [exact (normalizeSlug_fixed _ _ Hslug)|].
    exists entry. unfold Discovery.visibleDirectory in Hvisible.
    apply andb_prop in Hvisible as [Hisdir Hdot]. apply negb_true_iff in Hdot.
    apply normalizeSlug_returns in Hslug as [-> _]. auto.
Qed.

(** X10.  Discovery and the batch agree on the file of a post.  Under a
    posts root that is an absolute path and not the root directory, for
    every slug [listPostSlugs] returns, [resolvePostFilePath] returns a
    path, the one whose existence [listPostSlugs] checked: the task of a
    discovered slug is never rejected for its slug, and the file it reads
    was there at discovery. *)
Theorem discovered_slugs_resolve postsRoot slugs p p' :
  Js.startsWith postsRoot "/" = true →
  Path.resolve (cwd h) [postsRoot] ≠ "/" →
  Discovery.listPostSlugs h layout postsRoot p = (Js.Return slugs, p') →
  Forall (fun slug =>
            ∃ file, Discovery.resolvePostFilePath h postsRoot slug = Js.Return file
                    ∧ file = Path.join [postsRoot; slug; "index.md"]
                    ∧ access (fs h) file = Js.Return tt) slugs.
Proof.
  intros Habs Hroot Hrun.
  destruct (listPostSlugs_members _ _ _ _ Hrun) as (_ & entries & _ & Hall).
  apply Forall_forall. intros slug Hin.
  destruct (Hall slug Hin) as (Hfile & entry & _ & _ & Hslug).
  apply normalizeSlug_fixed in Hslug.
  exists (Path.join [postsRoot; slug; "index.md"]).
  split; [exact (resolvePostFilePath_accepted h postsRoot slug Habs Hroot Hslug)|].
  split; [reflexivity|].
  unfold hasEntryFile, Discovery.POST_ENTRY_FILENAME in Hfile.
  destruct (access (fs h) _) as [[]|e]; [reflexivity | discriminate].
Qed.

End DiscoveryResults.

(** ** The listing, the single fetch and the snapshot *)

Section Pipeline.
Context (h : Host).

Lemma assertPostsRootExists_missing contentDir postsRoot e p :
  access (fs h) postsRoot = Js.Throw e → Js.instanceofError e = true →
  Discovery.assertPostsRootExists h contentDir postsRoot p
  = (Js.Throw (rootNotFound postsRoot contentDir), p).
Proof.
  intros Haccess Herror.
  unfold Discovery.assertPostsRootExists, tryCatch, lift. rewrite Haccess, Herror.
  reflexivity.
Qed.

Lemma live_getPostBySlugCached_pure slug p :
  LivePosts.getPostBySlugCached h slug p
  = (settled (LivePosts.getPostBySlugCached h slug), p).
Proof.
  unfold settled, LivePosts.getPostBySlugCached, LivePosts.assertPostsRootExists,
    Discovery.assertPostsRootExists, tryCatch, bind, lift, throw. simpl.
  destruct (access (fs h) _) as [u|e]; [|destruct (Js.instanceofError e); reflexivity].
  destruct (LivePosts.resolvePostFilePath h _ slug) as [file|e]; [|reflexivity].
  destruct (readFile (fs h) file) as [raw|e]; reflexivity.
Qed.

(** [getPostBySlug] of the live site, by what its cached part did. *)
Lemma live_getPostBySlug_run slug p :
  LivePosts.getPostBySlug h slug p
  = match settled (LivePosts.getPostBySlugCached h slug) with
    | Js.Return post => (Js.Return (LivePosts.restoreDates post.1, post.2), p)
    | Js.Throw reason => (Js.Throw Js.NotFound, logged p (notFoundLog h slug reason))
    end.
Proof.
  unfold LivePosts.getPostBySlug, tryCatch, bind.
  rewrite live_getPostBySlugCached_pure.
  destruct (settled (LivePosts.getPostBySlugCached h slug)) as [post|reason];
    [reflexivity|].
  destruct reason; simpl; rewrite ?log_logged, ?logged_nil; reflexivity.
Qed.

(** X11.  A posts root that cannot be accessed ends every reading of the
    content before anything is read or logged: the listings of the live
    site and [buildPosts] fail with the error that names the root and the
    default content directory of the script, and [getPostBySlug] of the
    live site answers [notFound()] for every slug, after one
    [console.error] with that message. *)
Theorem missing_root_is_fatal p :
  rejectsWithErrors (fs h) →
  (∀ e, access (fs h) (LivePosts.resolvePostsRoot h) = Js.Throw e →
     let failure := rootNotFound (LivePosts.resolvePostsRoot h) "external-posts" in
     LivePosts.listPostsCached h p = (Js.Throw failure, p)
     ∧ LivePosts.listPosts h p = (Js.Throw failure, p)
     ∧ LivePosts.listPublicPosts h p = (Js.Throw failure, p)
     ∧ ∀ slug, LivePosts.getPostBySlug h slug p
               = (Js.Throw Js.NotFound, logged p (notFoundLog h slug failure)))
  ∧ (∀ e, access (fs h) (GenerateContent.resolvePostsRoot h) = Js.Throw e →
       GenerateContent.buildPosts h p
       = (Js.Throw (rootNotFound (GenerateContent.resolvePostsRoot h) "my-blog-contents"), p)).
Proof.
  intros Herrors. split; intros e Haccess; pose proof (Herrors _ _ Haccess) as Herror.
  - intros failure.
    assert (Hlist : LivePosts.listPostsCached h p = (Js.Throw failure, p)).
    { unfold LivePosts.listPostsCached, LivePosts.assertPostsRootExists, bind.
      rewrite (assertPostsRootExists_missing _ _ e p Haccess Herror). reflexivity. }
    split; [exact Hlist|]. split; [|split].
    + unfold LivePosts.listPosts, bind. rewrite Hlist. reflexivity.
    + unfold LivePosts.listPublicPosts, LivePosts.listPosts, bind. rewrite Hlist.
      reflexivity.
    + intros slug. rewrite live_getPostBySlug_run.
      unfold settled, LivePosts.getPostBySlugCached, LivePosts.assertPostsRootExists, bind.
      rewrite (assertPostsRootExists_missing _ _ e _ Haccess Herror). reflexivity.
  - unfold GenerateContent.buildPosts, GenerateContent.assertPostsRootExists, bind.
    rewrite (assertPostsRootExists_missing _ _ e p Haccess Herror). reflexivity.
Qed.

(** X12.  The single fetch of the live site agrees with its listing.
    Where the posts root can be accessed, a slug whose task in
    [listPostsCached] is fulfilled is fetched by [getPostBySlug] with the
    frontmatter [listPosts] shows for it, and nothing is logged; a slug
    whose task is rejected is answered by [notFound()], and the console
    gets the reason the listing would have warned about. *)
Theorem live_fetch_agrees_with_listing slug p :
  access (fs h) (LivePosts.resolvePostsRoot h) = Js.Return tt →
  match settled (LivePosts.readEntry h (LivePosts.resolvePostsRoot h) slug) with
  | Js.Return entry =>
      entrySlug entry = slug
      ∧ ∃ content, LivePosts.getPostBySlug h slug p
                   = (Js.Return (frontmatter (LivePosts.restoreEntry entry), content), p)
  | Js.Throw reason =>
      LivePosts.getPostBySlug h slug p
      = (Js.Throw Js.NotFound, logged p (notFoundLog h slug reason))
  end.
Proof.
  intros Haccess. rewrite live_getPostBySlug_run.
  unfold settled, LivePosts.getPostBySlugCached, LivePosts.readEntry,
    LivePosts.assertPostsRootExists, bind, lift, ret.
  rewrite (assertPostsRootExists_found h _ _ _ Haccess). simpl.
  destruct (LivePosts.resolvePostFilePath h _ slug) as [file|e]; [|reflexivity].
  destruct (readFile (fs h) file) as [raw|e]; [|reflexivity].
  destruct (parsePost h raw) as [[meta content]|e]; [|reflexivity].
  simpl. split; [reflexivity|]. exists content. reflexivity.
Qed.

(** X13.  [getPostBySlug] of the live site throws nothing but
    [notFound()]: whatever the slug and whatever went wrong (the root, the
    slug, the file, the frontmatter), it either returns a post and leaves
    the process as it was, or throws [notFound()] after at most one line
    on the console, a warning when the frontmatter was invalid and an
    error otherwise; it never touches the cookie store. *)
Theorem live_getPostBySlug_only_not_found slug p :
  let outcome := LivePosts.getPostBySlug h slug p in
  ((∃ post, outcome = (Js.Return post, p))
   ∨ (∃ lines, outcome = (Js.Throw Js.NotFound, logged p lines)
               ∧ (length lines ≤ 1)%nat
               ∧ Forall (fun line =>
                           level line = console_warn
                           ↔ text line = "Frontmatter invalid, returning 404") lines))
  ∧ cookieStore outcome.2 = cookieStore p.
Proof.
  intros outcome. subst outcome. rewrite live_getPostBySlug_run.
  destruct (settled (LivePosts.getPostBySlugCached h slug)) as [post|reason].
  - split; [left; eexists; reflexivity | reflexivity].
  - split; [|reflexivity]. right. exists (notFoundLog h slug reason).
    split; [reflexivity|].
    destruct reason; simpl; (split; [lia|]); repeat constructor;
      simpl; try discriminate; reflexivity.
Qed.

(** X14.  What [buildPosts] returns, [posts.ts] accepts: the snapshot is
    never empty, so that [listPosts] returns its posts in the order of the
    snapshot and writes nothing, and [getPostBySlug] finds a post for the
    slug of every entry. *)
Theorem snapshot_is_accepted (site : Host) entries p p' q :
  GenerateContent.buildPosts h p = (Js.Return entries, p') →
  entries ≠ []
  ∧ (∃ posts, Posts.listPosts site entries q = (Js.Return posts, q)
              ∧ entrySlug <$> posts = Generated.slug <$> entries)
  ∧ (∀ entry, entry ∈ entries →
       ∃ post, Posts.getPostBySlug site entries (Generated.slug entry) q
               = (Js.Return post, q)).
Proof.
  unfold GenerateContent.buildPosts, bind.
  destruct (GenerateContent.assertPostsRootExists h _ p) as [[[]|e] p1]; [|discriminate].
  destruct (GenerateContent.listPostSlugs h _ p1) as [[slugs|e] p2]; [|discriminate].
  destruct (allSettled _ slugs p2) as [[results|e] p3]; [|discriminate].
  destruct (Discovery.collect slugs 0 results [] p3) as [[built|e] p4]; [|discriminate].
  destruct (length built =? 0)%nat eqn:Hlen; [discriminate|].
  intros [= <- <-].
  assert (Hne : built ≠ []) by (intros ->; discriminate).
  split; [exact Hne|]. split.
  - exists (Posts.restoreEntry site <$> built). split.
    + unfold Posts.listPosts, Posts.listPostsCached, bind. rewrite Hlen. reflexivity.
    + rewrite <- list_fmap_compose. reflexivity.
  - intros entry Hin.
    destruct (postOf built (Generated.slug entry)) as [first|] eqn:Hfind.
    + eexists. exact (getPostBySlug_found site built _ first q Hfind).
    + exfalso. apply (postOf_None built _ Hfind).
      apply list_elem_of_fmap. exists entry. auto.
Qed.

(** X15.  The snapshot holds what the live site would read.  A slug whose
    task in [buildPosts] is fulfilled is a slug whose task in
    [listPostsCached], under the same root, is fulfilled; the two entries
    have the same slug and the same digest; the content of the snapshot is
    the body [parsePost] returned; and when [new Date(s)] reads back the
    ISO string of the date, [restoreDates] of the snapshot's frontmatter is
    the frontmatter of the live entry. *)
Theorem snapshot_entry_is_live_entry (site : Host) postsRoot slug entry :
  fulfilled (settled (GenerateContent.readEntry h postsRoot slug)) = Some entry →
  ∃ live file raw,
    fulfilled (settled (LivePosts.readEntry h postsRoot slug)) = Some live
    ∧ Discovery.resolvePostFilePath h postsRoot slug = Js.Return file
    ∧ readFile (fs h) file = Js.Return raw
    ∧ parsePost h raw = Js.Return (frontmatter live, Generated.content entry)
    ∧ entrySlug live = Generated.slug entry
    ∧ sha live = Generated.sha entry
    ∧ Generated.sha entry = Crypto.sha1 raw
    ∧ ((∀ d s, date (frontmatter live) = Some d → IsoDate.toISOString d = Js.Return s →
               Date_parse site s = getTime d) →
       frontmatter (Posts.restoreEntry site entry) = frontmatter live).
Proof.
  unfold settled, GenerateContent.readEntry, LivePosts.readEntry,
    GenerateContent.resolvePostFilePath, LivePosts.resolvePostFilePath, bind, lift, ret.
  simpl.
  destruct (Discovery.resolvePostFilePath h postsRoot slug) as [file|e] eqn:Hfile;
    [|discriminate].
  destruct (readFile (fs h) file) as [raw|e] eqn:Hraw; [|discriminate].
  destruct (parsePost h raw) as [[meta content]|e] eqn:Hparsed; [|discriminate]. simpl.
  destruct (GenerateContent.serializeFrontmatter meta) as [serialized|e] eqn:Hserialized;
    [|discriminate].
  simpl. intros [= <-]. eexists _, file, raw. simpl.
  split; [reflexivity|]. split; [reflexivity|]. split; [exact Hraw|].
  split; [exact Hparsed|]. do 3 (split; [reflexivity|]).
  intros Hread.
  assert (Hvalid : ∀ d, date meta = Some d → is_Some (getTime d)).
  { intros d Hdate. destruct (getTime d) as [t|] eqn:Htime; [eexists; reflexivity|].
    exfalso. revert Hserialized. unfold GenerateContent.serializeFrontmatter.
    rewrite Hdate. unfold IsoDate.toISOString. rewrite Htime. discriminate. }
  destruct (serialize_restored site meta Hvalid Hread) as (serialized' & Hs & Hrestored).
  rewrite Hserialized in Hs. injection Hs as <-. exact Hrestored.
Qed.

End Pipeline.

(** ** The order of the directory listing, and the spelling of a slug *)

Section Order.
Context (h : Host) (layout : string).

Lemma filter_Permutation {X} (f : X → bool) (l l' : list X) :
  l ≡ₚ l' → List.filter f l ≡ₚ List.filter f l'.
Proof.
  induction 1 as [|x l l' _ IH|x y l|l l' l'' _ IH1 _ IH2]; simpl.
  - reflexivity.
  - destruct (f x); [constructor|]; exact IH.
  - destruct (f x), (f y); try reflexivity. constructor.
  - etransitivity; eassumption.
Qed.

Lemma probe_settled postsRoot slug q :
  (Discovery.probe h postsRoot slug q).1 = settled (Discovery.probe h postsRoot slug).
Proof.
  unfold settled, Discovery.probe, tryCatch, bind, lift, ret.
  destruct (access (fs h) _) as [u|e]; [reflexivity|]. simpl.
  destruct (Js.instanceofError e); reflexivity.
Qed.

Lemma allSettled_settled {X Y} (f : X → M Y) xs p :
  (∀ x q, (f x q).1 = settled (f x)) →
  (allSettled f xs p).1 = Js.Return ((fun x => settled (f x)) <$> xs).
Proof.
  intros Hpure. revert p. induction xs as [|x xs IH]; intros p; [reflexivity|].
  simpl. specialize (Hpure x p). destruct (f x p) as [c p1]. simpl in Hpure. subst c.
  unfold bind, ret. specialize (IH p1).
  destruct (allSettled f xs p1) as [[rs|e] p2]; simpl in IH; [|discriminate].
  injection IH as ->. reflexivity.
Qed.

Lemma firstRejection_Permutation {Y} (rs rs' : list (Js.Completion Y)) ys :
  Discovery.firstRejection rs = Js.Return ys → rs ≡ₚ rs' →
  ∃ ys', Discovery.firstRejection rs' = Js.Return ys' ∧ ys ≡ₚ ys'.
Proof.
  intros ->%firstRejection_inv Hperm.
  exists (omap fulfilled rs'). split.
  - assert (Forall (fun r => ∃ y, r = Js.Return y) rs') as Hall.
    { rewrite <- Hperm. apply Forall_fmap, Forall_forall. intros y _. exists y. reflexivity. }
    clear Hperm. induction Hall as [|r rs' [y ->] _ IH]; [reflexivity|].
    simpl. rewrite IH. reflexivity.
  - rewrite <- Hperm. clear Hperm. induction ys as [|y ys IH]; [reflexivity|].
    simpl. constructor. exact IH.
Qed.

Lemma mapThrowing_Permutation {X Y} (f : X → Js.Completion Y) (g : X → Y) xs xs' ys :
  (∀ x y, f x = Js.Return y → y = g x) →
  Discovery.mapThrowing f xs = Js.Return ys → xs ≡ₚ xs' →
  ys = g <$> xs ∧ Discovery.mapThrowing f xs' = Js.Return (g <$> xs').
Proof.
  intros Hg Hrun%mapThrowing_inv Hperm.
  assert (Hall : Forall (fun x => f x = Js.Return (g x)) xs).
  { clear Hperm. induction Hrun as [|x y xs ys Hx _ IH]; [constructor|].
    constructor; [|exact IH]. rewrite Hx. f_equal. exact (Hg _ _ Hx). }
  split.
  - clear Hperm Hall. induction Hrun as [|x y xs ys Hx _ IH]; [reflexivity|].
    rewrite fmap_cons, <- IH. f_equal. exact (Hg _ _ Hx).
  - apply mapThrowing_returns. rewrite Hperm in Hall.
    intros x Hin. exact (proj1 (Forall_forall _ _) Hall x Hin).
Qed.

(** X16.  The slugs [listPostSlugs] returns do not depend on the order in
    which [readdir] lists the directory, nor, the checks being made in that
    order here, on the order in which they complete: for a collation that
    orders consistently and holds no two different slugs of this
    directory equal, the same directory listed in another order gives the
    same list of slugs (the warnings for directories without entry file
    may come in another order). *)
Theorem listPostSlugs_order_independent postsRoot entries entries' slugs p p' q :
  consistentComparator (collation h) →
  (∀ a b, a ∈ slugs → b ∈ slugs →
          notAfter (collation h) a b → notAfter (collation h) b a → a = b) →
  readdir (fs h) postsRoot = Js.Return entries →
  entries ≡ₚ entries' →
  Discovery.listPostSlugs h layout postsRoot p = (Js.Return slugs, p') →
  ∃ q', Discovery.listPostSlugs (relisted h entries') layout postsRoot q
        = (Js.Return slugs, q').
Proof.
  intros Hconsistent Hantisym Hdir Hperm.
  unfold Discovery.listPostSlugs, Discovery.promiseAll, bind, lift.
  rewrite Hdir. simpl readdir.
  destruct (Discovery.mapThrowing _ (List.filter Discovery.visibleDirectory entries))
    as [dirNames|e] eqn:Hnames; [|discriminate].
  destruct (mapThrowing_Permutation _ (fun entry => Js.trim (name entry)) _
              (List.filter Discovery.visibleDirectory entries') _
              (fun entry y Hy => proj1 (normalizeSlug_returns _ _ Hy))
              Hnames (filter_Permutation _ _ _ Hperm)) as [-> ->].
  set (dirNames := (fun entry => Js.trim (name entry))
                   <$> List.filter Discovery.visibleDirectory entries).
  set (dirNames' := (fun entry => Js.trim (name entry))
                    <$> List.filter Discovery.visibleDirectory entries').
  assert (Hnames' : dirNames ≡ₚ dirNames')
    by (apply fmap_Permutation, filter_Permutation, Hperm).
  pose proof (allSettled_settled (Discovery.probe h postsRoot) dirNames p
                (probe_settled postsRoot)) as Hrs.
  pose proof (allSettled_settled (Discovery.probe (relisted h entries') postsRoot)
                dirNames' q (probe_settled postsRoot)) as Hrs'.
  destruct (allSettled (Discovery.probe h postsRoot) dirNames p) as [c p1].
  destruct (allSettled (Discovery.probe (relisted h entries') postsRoot) dirNames' q)
    as [c' q1].
  simpl in Hrs, Hrs'. subst c c'.
  destruct (Discovery.firstRejection _) as [pushed|e] eqn:Hpushed; [|discriminate].
  destruct (firstRejection_Permutation _
              ((fun x => settled (Discovery.probe h postsRoot x)) <$> dirNames') _ Hpushed)
    as (pushed' & Hpushed' & Hfound).
  { apply fmap_Permutation, Hnames'. }
  change (fun x => settled (Discovery.probe (relisted h entries') postsRoot x))
    with (fun x => settled (Discovery.probe h postsRoot x)).
  rewrite Hpushed'.
  assert (Homap : omap id pushed ≡ₚ omap id pushed') by (rewrite Hfound; reflexivity).
  rewrite <- (Permutation_length Homap).
  destruct (length (omap id pushed) =? 0)%nat; [discriminate|].
  intros [= <- _]. exists q1. unfold ret. f_equal. f_equal.
  symmetry. apply (sort_order_independent_on (collation h) Hconsistent); [|exact Homap].
  intros a b Ha Hb. apply Hantisym; rewrite sort_Permutation; assumption.
Qed.

Lemma resolvePostFilePath_alias postsRoot slug slug' :
  Js.trim (Js.stripLeadingSlash slug) = Js.trim (Js.stripLeadingSlash slug') →
  fulfilled (Discovery.resolvePostFilePath h postsRoot slug)
  = fulfilled (Discovery.resolvePostFilePath h postsRoot slug').
Proof.
  intros Hclean. unfold Discovery.resolvePostFilePath, Discovery.normalizeSlug.
  rewrite Hclean. destruct (_ || _); [reflexivity|].
  destruct (negb _ && negb _); reflexivity.
Qed.

(** X17.  The live site reads a slug after one leading slash is removed
    and the white space around it is trimmed: two slugs that are the same
    after this name the same post.  [getPostBySlug] returns the same post
    for both, or answers [notFound()] for both. *)
Theorem live_slug_aliases slug slug' p :
  Js.trim (Js.stripLeadingSlash slug) = Js.trim (Js.stripLeadingSlash slug') →
  (LivePosts.getPostBySlug h slug p).1 = (LivePosts.getPostBySlug h slug' p).1.
Proof.
  intros Hclean. rewrite !live_getPostBySlug_run.
  assert (Hcached : fulfilled (settled (LivePosts.getPostBySlugCached h slug))
                    = fulfilled (settled (LivePosts.getPostBySlugCached h slug'))).
  { pose proof (resolvePostFilePath_alias (LivePosts.resolvePostsRoot h) _ _ Hclean)
      as Hfile.
    unfold settled, LivePosts.getPostBySlugCached, LivePosts.resolvePostFilePath, bind, lift.
    destruct (LivePosts.assertPostsRootExists h _ _) as [[u|e] p1]; [|reflexivity].
    destruct (Discovery.resolvePostFilePath h _ slug) as [file|e],
             (Discovery.resolvePostFilePath h _ slug') as [file'|e'];
      simpl in Hfile; try discriminate; try reflexivity.
    injection Hfile as <-. reflexivity. }
  destruct (settled (LivePosts.getPostBySlugCached h slug)) as [post|reason],
           (settled (LivePosts.getPostBySlugCached h slug')) as [post'|reason'];
    simpl in Hcached; try discriminate; try reflexivity.
  injection Hcached as <-. reflexivity.
Qed.

End Order.

(** ** The posts root of the two scripts *)

Section Roots.

Lemma split_join_plain names :
  names ≠ [] → Forall plainName names → Js.split "/" (Js.join "/" names) = names.
Proof.
  intros Hne Hplain. induction Hplain as [|first rest [_ Hslash] Hrest IH]; [contradiction|].
  destruct rest as [|second rest].
  - apply (split_without "/"). exact Hslash.
  - change (Js.join "/" (first :: second :: rest))
      with (first +:+ String "/" (Js.join "/" (second :: rest))).
    rewrite split_app, (split_without "/" first Hslash), IH by discriminate. reflexivity.
Qed.

Lemma fold_step_plain allow names kept :
  Forall plainName names → fold_left (Path.step allow) names kept = rev names ++ kept.
Proof.
  intros Hplain. revert kept.
  induction Hplain as [|first rest [Hproper _] _ IH]; intros kept; [reflexivity|].
  simpl. rewrite (step_proper _ _ first Hproper), IH, <- app_assoc. reflexivity.
Qed.

Lemma segments_under allow root names :
  names ≠ [] → Forall plainName names →
  Path.segments allow (root +:+ "/" +:+ Js.join "/" names)
  = rev names ++ Path.segments allow root.
Proof.
  intros Hne Hplain. unfold Path.segments.
  change (root +:+ "/" +:+ Js.join "/" names) with (root +:+ String "/" (Js.join "/" names)).
  rewrite split_app, fold_left_app, (split_join_plain names Hne Hplain).
  apply fold_step_plain. exact Hplain.
Qed.

Lemma rev_plain_head name rest :
  name ≠ "" → Js.includes name "/" = false →
  String.prefix "/" (String.rev name +:+ rest) = false.
Proof.
  intros Hne Hslash. revert rest. induction name as [|c name IH]; [contradiction|].
  intros rest. rewrite includes_char_cons in Hslash.
  apply orb_false_elim in Hslash as [Hc Hslash].
  rewrite rev_cons_string, app_assoc_string. destruct name as [|d name].
  - change (String.rev "") with "". rewrite app_nil_l_string, app_cons_string, prefix_cons, Hc.
    reflexivity.
  - apply IH; [discriminate | exact Hslash].
Qed.

Lemma join_cons_ne (sep first : string) (rest : list string) :
  rest ≠ [] → Js.join sep (first :: rest) = first +:+ sep +:+ Js.join sep rest.
Proof. destruct rest; [contradiction | reflexivity]. Qed.

Lemma endsWithSlash_under root names :
  names ≠ [] → Forall plainName names →
  Path.endsWithSlash (root +:+ "/" +:+ Js.join "/" names) = false.
Proof.
  intros Hne Hplain. unfold Path.endsWithSlash.
  destruct (exists_last Hne) as (init & last & ->).
  apply Forall_app in Hplain as [_ Hlast]. apply Forall_cons in Hlast as [[Hproper Hslash] _].
  rewrite join_snoc. destruct init as [|first init].
  - rewrite !rev_app_string, !app_assoc_string.
    apply rev_plain_head; [apply Hproper | exact Hslash].
  - rewrite !rev_app_string, !app_assoc_string.
    apply rev_plain_head; [apply Hproper | exact Hslash].
Qed.

Lemma filter_plain names :
  Forall plainName names → List.filter (fun a => negb (String.eqb a "")) names = names.
Proof.
  induction 1 as [|first rest [[Hne _] _] _ IH]; [reflexivity|].
  simpl. rewrite (proj2 (String.eqb_neq first "") Hne), IH. reflexivity.
Qed.

(** [path.join] of an absolute path and plain names under it. *)
Lemma join_under root names :
  Js.startsWith root "/" = true → names ≠ [] → Forall plainName names →
  Path.join (root :: names)
  = "/" +:+ Js.join "/" (rev (Path.segments false root) ++ names).
Proof.
  intros Habs Hne Hplain.
  destruct (startsWith_slash_cons root Habs) as [tail ->].
  unfold Path.join. simpl List.filter. rewrite (filter_plain names Hplain).
  rewrite (join_cons_ne "/" _ names Hne).
  unfold Path.normalize.
  rewrite decide_False
    by (intros [Hnil _]%app_eq_nil_string; discriminate Hnil).
  rewrite (endsWithSlash_under _ names Hne Hplain).
  assert (Js.startsWith (String "/" tail +:+ "/" +:+ Js.join "/" names) "/" = true) as ->.
  { unfold Js.startsWith. rewrite app_cons_string, prefix_cons, prefix_nil. reflexivity. }
  simpl negb. unfold Path.normalizeString.
  rewrite (segments_under false _ names Hne Hplain), rev_app_distr, rev_involutive.
  rewrite decide_False; [reflexivity|].
  apply join_nonempty; [intros [_ ?]%app_eq_nil; contradiction|].
  apply Forall_app. split; [apply Forall_rev, segments_nonempty|].
  eapply Forall_impl; [exact Hplain|]. intros name [[Hname _] _]. exact Hname.
Qed.

(** Such a path is absolute, and [path.resolve] does not make the root
    directory of it. *)
Lemma under_is_no_root cwd kept names :
  names ≠ [] → Forall plainName names →
  let root := "/" +:+ Js.join "/" (kept ++ names) in
  Js.startsWith root "/" = true ∧ Path.resolve cwd [root] ≠ "/".
Proof.
  intros Hne Hplain root.
  assert (Habs : Js.startsWith root "/" = true).
  { unfold Js.startsWith. subst root. rewrite app_cons_string, prefix_cons, prefix_nil.
    reflexivity. }
  split; [exact Habs|]. rewrite (resolve_absolute cwd root Habs).
  destruct (exists_last Hne) as (init & last & ->).
  apply Forall_app in Hplain as [_ Hlast]. apply Forall_cons in Hlast as [[Hproper Hslash] _].
  assert (∃ before, root = before +:+ String "/" last) as [before Hroot].
  { subst root. rewrite app_assoc, join_snoc. destruct (kept ++ init) as [|first others].
    - exists "". reflexivity.
    - exists ("/" +:+ Js.join "/" (first :: others)).
      rewrite !app_assoc_string. reflexivity. }
  assert (Hsegments : Path.segments false root = last :: Path.segments false before).
  { rewrite Hroot. unfold Path.segments.
    rewrite split_app, fold_left_app, (split_without "/" last Hslash). simpl.
    apply step_proper. exact Hproper. }
  rewrite Hsegments. simpl rev.
  rewrite join_snoc. destruct (rev (Path.segments false before)) as [|first others].
  - destruct last as [|c last]; [destruct Hproper as [Hlast _]; contradiction | discriminate].
  - change ("/" +:+ Js.join "/" (first :: others) +:+ "/" +:+ last)
      with (String "/" (Js.join "/" (first :: others) +:+ "/" +:+ last)).
    intros [= Hnil]. apply app_eq_nil_string in Hnil as [_ Hnil]. discriminate Hnil.
Qed.

End Roots.

Section RootsOfScripts.
Context (h : Host).

(** X18.  With an absolute working directory and a plain directory name
    for the content directory (and, for the generation script, for the
    posts directory; the defaults are such names), the posts root of each
    script is an absolute path other than the root directory, and every
    slug its [listPostSlugs] returns is resolved by [resolvePostFilePath]
    to a file that was there at discovery: a task of the batch can fail in
    reading and parsing the file only. *)
Theorem discovered_posts_have_files :
  Js.startsWith (cwd h) "/" = true →
  (plainName (LivePosts.contentDir h) →
   let root := LivePosts.resolvePostsRoot h in
   root = "/" +:+ Js.join "/" (rev (Path.segments false (cwd h)) ++ [LivePosts.contentDir h])
   ∧ ∀ slugs p p',
       LivePosts.listPostSlugs h root p = (Js.Return slugs, p') →
       Forall (fun slug =>
                 ∃ file, LivePosts.resolvePostFilePath h root slug = Js.Return file
                         ∧ access (fs h) file = Js.Return tt) slugs)
  ∧ (plainName (GenerateContent.contentDir h) →
     plainName (GenerateContent.postsRootDir h) →
     let root := GenerateContent.resolvePostsRoot h in
     root = "/" +:+ Js.join "/" (rev (Path.segments false (cwd h))
                                 ++ [GenerateContent.contentDir h;
                                     GenerateContent.postsRootDir h])
     ∧ ∀ slugs p p',
         GenerateContent.listPostSlugs h root p = (Js.Return slugs, p') →
         Forall (fun slug =>
                   ∃ file, GenerateContent.resolvePostFilePath h root slug = Js.Return file
                           ∧ access (fs h) file = Js.Return tt) slugs).
Proof.
  intros Hcwd.
  assert (Hfiles : ∀ layout kept names root,
            names ≠ [] → Forall plainName names →
            root = "/" +:+ Js.join "/" (kept ++ names) →
            ∀ slugs p p',
              Discovery.listPostSlugs h layout root p = (Js.Return slugs, p') →
              Forall (fun slug =>
                        ∃ file, Discovery.resolvePostFilePath h root slug = Js.Return file
                                ∧ access (fs h) file = Js.Return tt) slugs).
  { intros layout kept names root Hne Hplain -> slugs p p' Hrun.
    destruct (under_is_no_root (cwd h) kept names Hne Hplain) as [Habs Hroot].
    destruct (listPostSlugs_members h layout _ _ _ _ Hrun) as (_ & entries & _ & Hall).
    apply Forall_forall. intros slug Hin.
    destruct (Hall slug Hin) as (Hfile & entry & _ & _ & Hslug).
    apply normalizeSlug_fixed in Hslug.
    exists (Path.join ["/" +:+ Js.join "/" (kept ++ names); slug; "index.md"]).
    split; [exact (resolvePostFilePath_accepted h _ slug Habs Hroot Hslug)|].
    unfold hasEntryFile, Discovery.POST_ENTRY_FILENAME in Hfile.
    destruct (access (fs h) _) as [[]|e]; [reflexivity | discriminate]. }
  split.
  - intros Hcontent root.
    assert (Hroot : root = "/" +:+ Js.join "/" (rev (Path.segments false (cwd h))
                                                 ++ [LivePosts.contentDir h])).
    { apply join_under; [exact Hcwd | discriminate | repeat constructor; apply Hcontent]. }
    split; [exact Hroot|].
    apply (Hfiles _ (rev (Path.segments false (cwd h))) [LivePosts.contentDir h] root);
      [discriminate| |exact Hroot].
    repeat constructor; apply Hcontent.
  - intros Hcontent Hposts root.
    assert (Hroot : root = "/" +:+ Js.join "/" (rev (Path.segments false (cwd h))
                                                 ++ [GenerateContent.contentDir h;
                                                     GenerateContent.postsRootDir h])).
    { apply join_under; [exact Hcwd | discriminate |].
      constructor; [exact Hcontent|]. constructor; [exact Hposts | constructor]. }
    split; [exact Hroot|].
    apply (Hfiles _ (rev (Path.segments false (cwd h)))
             [GenerateContent.contentDir h; GenerateContent.postsRootDir h] root);
      [discriminate| |exact Hroot].
    constructor; [exact Hcontent|]. constructor; [exact Hposts | constructor].
Qed.

End RootsOfScripts.

(** ** The further properties on the sample repository *)

Lemma load_after_unlock_witness :
  Actions.loadProtectedPost Sample.buildHost Sample.generatedPosts "secret"
    (withCookie Sample.start "protected-post-secret" (credential Sample.buildHost "hunter2"))
  = (Js.Return (granted "# Hidden"),
     withCookie Sample.start "protected-post-secret" (credential Sample.buildHost "hunter2")).
Proof.
  apply (load_after_unlock Sample.buildHost Sample.generatedPosts "secret" None
           [("password", Actions.FormString "hunter2")] Sample.start).
  - vm_compute. reflexivity.
  - reflexivity.
Defined.

Lemma unlock_is_per_post_witness :
  (Actions.loadProtectedPost Sample.buildHost Sample.twins "twin"
     (Actions.verifyProtectedPostPassword Sample.buildHost Sample.twins "secret" None
        [("password", Actions.FormString "hunter2")] Sample.start).2).1
  = (Actions.loadProtectedPost Sample.buildHost Sample.twins "twin" Sample.start).1.
Proof.
  apply (unlock_is_per_post Sample.buildHost Sample.twins "secret" "twin"). discriminate.
Defined.

(** The twin of the unlocked post stays locked, though it has the same
    password. *)
Example twin_stays_locked :
  (Actions.verifyProtectedPostPassword Sample.buildHost Sample.twins "secret" None
     [("password", Actions.FormString "hunter2")] Sample.start).1
  = Js.Return (granted "# Hidden")
  ∧ (Actions.loadProtectedPost Sample.buildHost Sample.twins "twin"
       (Actions.verifyProtectedPostPassword Sample.buildHost Sample.twins "secret" None
          [("password", Actions.FormString "hunter2")] Sample.start).2).1
    = Js.Return unauthenticated.
Proof. vm_compute. split; reflexivity. Qed.

Lemma generatedPosts_NoDup : NoDup (Generated.slug <$> Sample.generatedPosts).
Proof. apply (bool_decide_unpack _). vm_compute. exact I. Qed.

Lemma listed_posts_are_fetched_witness :
  ∃ posts,
    Posts.listPosts Sample.buildHost Sample.generatedPosts Sample.start
    = (Js.Return posts, Sample.start)
    ∧ entrySlug <$> posts = Generated.slug <$> Sample.generatedPosts
    ∧ (∀ post, post ∈ posts →
         ∃ content, Posts.getPostBySlug Sample.buildHost Sample.generatedPosts
                      (entrySlug post) Sample.start
                    = (Js.Return (frontmatter post, content), Sample.start))
    ∧ (∀ slug, slug ∉ entrySlug <$> posts →
         Posts.getPostBySlug Sample.buildHost Sample.generatedPosts slug Sample.start
         = (Js.Throw Js.NotFound, logged Sample.start [fetchFailure Sample.buildHost slug])).
Proof.
  apply (listed_posts_are_fetched Sample.buildHost Sample.generatedPosts Sample.start).
  - discriminate.
  - exact generatedPosts_NoDup.
Defined.

Lemma serialize_then_restore_witness :
  (∃ serialized,
     GenerateContent.serializeFrontmatter Sample.dated = Js.Return serialized
     ∧ Posts.restoreDates Sample.buildHost serialized = Sample.dated
     ∧ (date serialized = None ↔ date Sample.dated = None)
     ∧ date serialized ≠ Some "")
  ∧ ∀ g e, GenerateContent.serializeFrontmatter g = Js.Throw e →
           e = Js.Error "Invalid time value" ∧ ∃ d, date g = Some d ∧ getTime d = None.
Proof.
  apply (serialize_then_restore Sample.buildHost Sample.dated).
  - intros d [= <-]. eexists. reflexivity.
  - intros d s [= <-] Hs. vm_compute in Hs. injection Hs as <-. vm_compute. reflexivity.
Defined.

(** The date of the sample, as the snapshot holds it. *)
Example serializeFrontmatter_sample :
  date <$> fulfilled (GenerateContent.serializeFrontmatter Sample.dated)
  = Some (Some "2024-01-01T00:00:00.000Z").
Proof. vm_compute. reflexivity. Qed.

Lemma normalizeSlug_idempotent_witness :
  Discovery.normalizeSlug "my-post" = Js.Return "my-post"
  ∧ Js.trim "my-post" = "my-post"
  ∧ ¬ refusedSlug "my-post".
Proof.
  apply (normalizeSlug_idempotent "  my-post "). vm_compute. reflexivity.
Defined.

Lemma listPostSlugs_sound_witness :
  Sample.discovered ≠ []
  ∧ cookieStore (Sample.afterDiscovery "/app/external-posts") = cookieStore Sample.start
  ∧ ∃ entries,
      readdir (fs Sample.liveHost) "/app/external-posts" = Js.Return entries
      ∧ Forall (fun slug =>
                  hasEntryFile Sample.liveHost "/app/external-posts" slug = true
                  ∧ Discovery.normalizeSlug slug = Js.Return slug
                  ∧ ∃ entry, entry ∈ entries ∧ isDirectory entry = true
                             ∧ Js.startsWith (name entry) "." = false
                             ∧ slug = Js.trim (name entry)) Sample.discovered.
Proof.
  apply (listPostSlugs_sound Sample.liveHost Sample.liveLayout "/app/external-posts"
           Sample.discovered Sample.start (Sample.afterDiscovery "/app/external-posts")).
  vm_compute. reflexivity.
Defined.

Lemma discovered_slugs_resolve_witness :
  Forall (fun slug =>
            ∃ file, Discovery.resolvePostFilePath Sample.liveHost "/app/external-posts" slug
                    = Js.Return file
                    ∧ file = Path.join ["/app/external-posts"; slug; "index.md"]
                    ∧ access (fs Sample.liveHost) file = Js.Return tt) Sample.discovered.
Proof.
  apply (discovered_slugs_resolve Sample.liveHost Sample.liveLayout "/app/external-posts"
           Sample.discovered Sample.start (Sample.afterDiscovery "/app/external-posts")).
  - reflexivity.
  - vm_compute. discriminate.
  - vm_compute. reflexivity.
Defined.

Lemma missing_root_is_fatal_witness :
  LivePosts.listPostsCached Sample.emptyHost Sample.start
  = (Js.Throw (rootNotFound "/app/external-posts" "external-posts"), Sample.start)
  ∧ GenerateContent.buildPosts Sample.emptyHost Sample.start
    = (Js.Throw (rootNotFound "/app/my-blog-contents/external-posts" "my-blog-contents"),
       Sample.start).
Proof.
  destruct (missing_root_is_fatal Sample.emptyHost Sample.start
              (fileSystem_rejectsWithErrors [] [])) as [Hlive Hbuild].
  split.
  - exact (proj1 (Hlive _ eq_refl)).
  - exact (Hbuild _ eq_refl).
Defined.

Lemma live_fetch_agrees_with_listing_witness :
  match settled (LivePosts.readEntry Sample.liveHost
                   (LivePosts.resolvePostsRoot Sample.liveHost) "broken") with
  | Js.Return entry =>
      entrySlug entry = "broken"
      ∧ ∃ content, LivePosts.getPostBySlug Sample.liveHost "broken" Sample.start
                   = (Js.Return (frontmatter (LivePosts.restoreEntry entry), content),
                      Sample.start)
  | Js.Throw reason =>
      LivePosts.getPostBySlug Sample.liveHost "broken" Sample.start
      = (Js.Throw Js.NotFound,
         logged Sample.start (notFoundLog Sample.liveHost "broken" reason))
  end.
Proof.
  exact (live_fetch_agrees_with_listing Sample.liveHost "broken" Sample.start eq_refl).
Defined.

(** A listed post is fetched; the post without title is skipped by the
    listing and answered by [notFound()], with the same issues. *)
Example live_getPostBySlug_sample :
  (∃ post, LivePosts.getPostBySlug Sample.liveHost "a" Sample.start
           = (Js.Return (post, "# First"), Sample.start)
           ∧ title post = "First")
  ∧ LivePosts.getPostBySlug Sample.liveHost "broken" Sample.start
    = (Js.Throw Js.NotFound,
       logged Sample.start
         (notFoundLog Sample.liveHost "broken"
            (Js.FrontmatterValidationError "Invalid frontmatter"
               [("title", "is required")]))).
Proof. split; [eexists; split|]; vm_compute; reflexivity. Qed.

Lemma snapshot_is_accepted_witness :
  Sample.generatedPosts ≠ []
  ∧ (∃ posts, Posts.listPosts Sample.buildHost Sample.generatedPosts Sample.start
              = (Js.Return posts, Sample.start)
              ∧ entrySlug <$> posts = Generated.slug <$> Sample.generatedPosts)
  ∧ (∀ entry, entry ∈ Sample.generatedPosts →
       ∃ post, Posts.getPostBySlug Sample.buildHost Sample.generatedPosts
                 (Generated.slug entry) Sample.start
               = (Js.Return post, Sample.start)).
Proof.
  apply (snapshot_is_accepted Sample.buildHost Sample.buildHost Sample.generatedPosts
           Sample.start (GenerateContent.buildPosts Sample.buildHost Sample.start).2
           Sample.start).
  vm_compute. reflexivity.
Defined.

Lemma snapshot_entry_is_live_entry_witness :
  ∃ live file raw,
    fulfilled (settled (LivePosts.readEntry Sample.buildHost
                          "/app/my-blog-contents/external-posts" "secret")) = Some live
    ∧ Discovery.resolvePostFilePath Sample.buildHost
        "/app/my-blog-contents/external-posts" "secret" = Js.Return file
    ∧ readFile (fs Sample.buildHost) file = Js.Return raw
    ∧ parsePost Sample.buildHost raw
      = Js.Return (frontmatter live, Generated.content Sample.secretPost)
    ∧ entrySlug live = Generated.slug Sample.secretPost
    ∧ sha live = Generated.sha Sample.secretPost
    ∧ Generated.sha Sample.secretPost = Crypto.sha1 raw
    ∧ ((∀ d s, date (frontmatter live) = Some d → IsoDate.toISOString d = Js.Return s →
               Date_parse Sample.buildHost s = getTime d) →
       frontmatter (Posts.restoreEntry Sample.buildHost Sample.secretPost)
       = frontmatter live).
Proof.
  apply (snapshot_entry_is_live_entry Sample.buildHost Sample.buildHost
           "/app/my-blog-contents/external-posts" "secret" Sample.secretPost).
  vm_compute. reflexivity.
Defined.

Lemma byteCompare_antisymmetric files a b :
  notAfter (collation (Sample.hostOn files)) a b →
  notAfter (collation (Sample.hostOn files)) b a → a = b.
Proof.
  unfold notAfter, Js.SortCompare, collation. simpl. unfold Sample.byteCompare.
  rewrite (String.compare_antisym a b).
  destruct (String.compare b a) eqn:Hcompare; simpl; try lia.
  intros _ _. symmetry. apply String.compare_eq_iff. exact Hcompare.
Qed.

Lemma listPostSlugs_order_independent_witness :
  ∃ q', Discovery.listPostSlugs (relisted Sample.liveHost (rev Sample.entriesOfRoot))
          Sample.liveLayout "/app/external-posts" Sample.start
        = (Js.Return Sample.discovered, q').
Proof.
  apply (listPostSlugs_order_independent Sample.liveHost Sample.liveLayout
           "/app/external-posts" Sample.entriesOfRoot (rev Sample.entriesOfRoot)
           Sample.discovered Sample.start (Sample.afterDiscovery "/app/external-posts")
           Sample.start (byteCompare_consistent _)
           (fun a b _ _ => byteCompare_antisymmetric _ a b)
           eq_refl (Permutation_rev _)).
  vm_compute. reflexivity.
Defined.

Lemma live_slug_aliases_witness :
  (LivePosts.getPostBySlug Sample.liveHost "/a" Sample.start).1
  = (LivePosts.getPostBySlug Sample.liveHost " a " Sample.start).1.
Proof.
  apply (live_slug_aliases Sample.liveHost "/a" " a " Sample.start).
  vm_compute. reflexivity.
Defined.

(** The post [a] under three spellings of its slug. *)
Example live_slug_aliases_sample :
  (LivePosts.getPostBySlug Sample.liveHost "a" Sample.start).1
  = (LivePosts.getPostBySlug Sample.liveHost "/a" Sample.start).1
  ∧ snd <$> fulfilled (LivePosts.getPostBySlug Sample.liveHost " a " Sample.start).1
    = Some "# First".
Proof. vm_compute. split; reflexivity. Qed.

Lemma discovered_posts_have_files_witness :
  LivePosts.resolvePostsRoot Sample.liveHost
  = "/" +:+ Js.join "/" (rev (Path.segments false "/app") ++ ["external-posts"])
  ∧ Forall (fun slug =>
              ∃ file, LivePosts.resolvePostFilePath Sample.liveHost
                        (LivePosts.resolvePostsRoot Sample.liveHost) slug = Js.Return file
                      ∧ access (fs Sample.liveHost) file = Js.Return tt) Sample.discovered.
Proof.
  assert (Hplain : plainName (LivePosts.contentDir Sample.liveHost)).
  { split; [repeat split; discriminate | reflexivity]. }
  destruct (proj1 (discovered_posts_have_files Sample.liveHost eq_refl) Hplain)
    as [Hroot Hfiles].
  split; [exact Hroot|].
  apply (Hfiles Sample.discovered Sample.start (Sample.afterDiscovery "/app/external-posts")).
  vm_compute. reflexivity.
Defined.

(** The posts roots of the sample hosts. *)
Example resolvePostsRoot_sample :
  LivePosts.resolvePostsRoot Sample.liveHost = "/app/external-posts"
  ∧ GenerateContent.resolvePostsRoot Sample.buildHost = "/app/my-blog-contents/external-posts".
Proof. vm_compute. split; reflexivity. Qed.

(** The dated post [a]: the snapshot holds its date as an ISO string, and
    [restoreDates] gives the site the frontmatter the live reading has. *)
Example snapshot_round_trip_sample :
  match fulfilled (settled (GenerateContent.readEntry Sample.buildHost
                              "/app/my-blog-contents/external-posts" "a")),
        fulfilled (settled (LivePosts.readEntry Sample.buildHost
                              "/app/my-blog-contents/external-posts" "a")) with
  | Some entry, Some live =>
      date (Generated.frontmatter entry) = Some "2024-01-01T00:00:00.000Z"
      ∧ frontmatter (Posts.restoreEntry Sample.buildHost entry) = frontmatter live
  | _, _ => False
  end.
Proof. vm_compute. split; reflexivity. Qed.
